(** * MakeAgend: license state machine, access gate and appointment conflicts

    A shallow embedding of the scheduling and licensing core of MakeAgend
    (TypeScript, Firebase Realtime Database) and the proofs of its
    specification.  The embedding follows the sources file by file:

    - [JsDate]            the host [Date] object the services compute with;
    - [Types]             [src/types/index.ts];
    - [LicenseService]    [services/licenseService.ts];
    - [RealTimeLicense]   [utils/realTimeLicenseService.ts];
    - [LicenseGuard]      [hooks/useLicenseGuard.ts];
    - [AppointmentModal]  [components/appointments/AppointmentModal.tsx];
    - [BusinessKey]       [utils/businessKey.ts];
    - [AuthContext]       [contexts/AuthContext.tsx];
    - [RealTimeBlocking], [LicenseGuardActions], [BusinessKeyLookup],
      [LicenseSweep], [AuthLicense]: further functions of these files;
    - [Permissions]       [hooks/usePermissions.ts].

    Keyed collections of the database are finite maps ([gmap]), arrays held
    in component state are lists, [number] fields are integers, a thrown
    [Error] is a value of [Err], and [new Date()] reads an explicit clock. *)

From stdpp Require Import gmap strings list fin_maps.
From Stdlib Require Import ZArith String Ascii Bool Lia.

Open Scope Z_scope.

(** ** The host [Date] object

    Time values are milliseconds since the epoch; [None] is the time value
    [NaN] of an invalid date.  The day arithmetic is the one of ECMAScript
    (Day, TimeWithinDay, MakeDay, MakeDate, TimeClip), with the civil
    calendar computed by the usual era/day-of-era decomposition.  The local
    zone is a fixed offset [tza] (milliseconds east of UTC); zones that
    change their offset during the year are outside this model. *)
Module JsDate.

Definition msPerDay : Z := 86400000.

Definition Day (t : Z) : Z := t / msPerDay.
Definition TimeWithinDay (t : Z) : Z := t mod msPerDay.

(** Day number (days since 1970-01-01) of the civil date [y]-[m]-[d], with
  [m] in 1..12; [d] may lie outside the month, the day number then runs
  on into the neighbouring months. *)
Definition days_from_civil (y m d : Z) : Z :=
let y' := if m <=? 2 then y - 1 else y in
let era := y' / 400 in
let yoe := y' - era * 400 in
let mp := if m <=? 2 then m + 9 else m - 3 in
let doy := (153 * mp + 2) / 5 + d - 1 in
let doe := yoe * 365 + yoe / 4 - yoe / 100 + doy in
era * 146097 + doe - 719468.

(** Civil date (year, month 1..12, day 1..31) of a day number. *)
Definition civil_from_days (z : Z) : Z * Z * Z :=
let z' := z + 719468 in
let era := z' / 146097 in
let doe := z' - era * 146097 in
let yoe := (doe - doe / 1460 + doe / 36524 - doe / 146096) / 365 in
let doy := doe - (365 * yoe + yoe / 4 - yoe / 100) in
let mp := (5 * doy + 2) / 153 in
let d := doy - (153 * mp + 2) / 5 + 1 in
let m := if mp <? 10 then mp + 3 else mp - 9 in
let y := yoe + era * 400 in
(if m <=? 2 then y + 1 else y, m, d).

Definition YearFromTime (t : Z) : Z := (civil_from_days (Day t)).1.1.
(** Months are numbered from 0, as [getMonth] reports them. *)
Definition MonthFromTime (t : Z) : Z := (civil_from_days (Day t)).1.2 - 1.
Definition DateFromTime (t : Z) : Z := (civil_from_days (Day t)).2.

Definition HourFromTime (t : Z) : Z := (TimeWithinDay t) / 3600000.
Definition MinFromTime (t : Z) : Z := (TimeWithinDay t) / 60000 mod 60.
Definition SecFromTime (t : Z) : Z := (TimeWithinDay t) / 1000 mod 60.
Definition msFromTime (t : Z) : Z := (TimeWithinDay t) mod 1000.

Definition MakeTime (h mi s ms : Z) : Z := h * 3600000 + mi * 60000 + s * 1000 + ms.

(** [MakeDay year month date]: the month (from 0) may overflow into the
  following years, the date may overflow into the following months. *)
Definition MakeDay (year month date : Z) : Z :=
let ym := year + month / 12 in
let mn := month mod 12 in
days_from_civil ym (mn + 1) 1 + date - 1.

Definition MakeDate (day time : Z) : Z := day * msPerDay + time.

Definition maxTime : Z := 8640000000000000.

Definition TimeClip (t : Z) : option Z :=
if Z.abs t <=? maxTime then Some t else None.

Definition isLeap (y : Z) : bool :=
((y mod 4 =? 0) && negb (y mod 100 =? 0)) || (y mod 400 =? 0).

Definition DaysInMonth (y m : Z) : Z :=
if m =? 2 then (if isLeap y then 29 else 28)
else if (m =? 4) || (m =? 6) || (m =? 9) || (m =? 11) then 30 else 31.

(** A [Date] object: its time value, or [None] for an invalid date. *)
Definition Date := option Z.

Section Zone.
(** Offset of local time from UTC, in milliseconds. *)
Variable tza : Z.

Definition LocalTime (t : Z) : Z := t + tza.
Definition UTC (t : Z) : Z := t - tza.

Definition getFullYear (d : Date) : option Z :=
  t ← d; Some (YearFromTime (LocalTime t)).
Definition getMonth (d : Date) : option Z :=
  t ← d; Some (MonthFromTime (LocalTime t)).
Definition getDate (d : Date) : option Z :=
  t ← d; Some (DateFromTime (LocalTime t)).

(** [setDate(dt)]: replaces the day-of-month field of the local time. *)
Definition setDate (d : Date) (dt : option Z) : Date :=
  match d, dt with
  | Some t, Some dt =>
      let lt := LocalTime t in
      TimeClip (UTC (MakeDate (MakeDay (YearFromTime lt) (MonthFromTime lt) dt)
                              (TimeWithinDay lt)))
  | _, _ => None
  end.

(** [setMonth(m)]: replaces the month field of the local time. *)
Definition setMonth (d : Date) (m : option Z) : Date :=
  match d, m with
  | Some t, Some m =>
      let lt := LocalTime t in
      TimeClip (UTC (MakeDate (MakeDay (YearFromTime lt) m (DateFromTime lt))
                              (TimeWithinDay lt)))
  | _, _ => None
  end.

(** [setFullYear(y)]: replaces the year field of the local time; an
    invalid date is first reset to the epoch. *)
Definition setFullYear (d : Date) (y : option Z) : Date :=
  match y with
  | Some y =>
      let lt := match d with Some t => LocalTime t | None => 0 end in
      TimeClip (UTC (MakeDate (MakeDay y (MonthFromTime lt) (DateFromTime lt))
                              (TimeWithinDay lt)))
  | None => None
  end.
End Zone.

(** *** Date strings

  [toISOString] prints [YYYY-MM-DDTHH:mm:ss.sssZ] in UTC, with the
  expanded [±YYYYYY] year outside 0..9999, and throws [RangeError] (here
  [None]) on an invalid date.  [Date_parse] reads that format back; every
  date string the services store is printed by [toISOString].  Other
  spellings a host may accept are read as an invalid date. *)

Definition digitChar (n : Z) : ascii := ascii_of_N (Z.to_N (48 + n mod 10)).

Definition digitValue (c : ascii) : option Z :=
let n := Z.of_N (N_of_ascii c) in
if (48 <=? n) && (n <=? 57) then Some (n - 48) else None.

(** The [width] lowest decimal digits of [n], most significant first. *)
Fixpoint pad (width : nat) (n : Z) (rest : list ascii) : list ascii :=
match width with
| O => rest
| S w => pad w (n / 10) (digitChar n :: rest)
end.

Definition string_of_chars (cs : list ascii) : string := string_of_list_ascii cs.
Definition chars_of_string (s : string) : list ascii := list_ascii_of_string s.

(** The ISO string of a time value. *)
Definition isoOfTime (t : Z) : string :=
let y := YearFromTime t in
let year :=
  if (0 <=? y) && (y <=? 9999) then pad 4 y []
  else (if y <? 0 then "-"%char else "+"%char) :: pad 6 (Z.abs y) [] in
string_of_chars
  (year ++ "-"%char :: pad 2 (MonthFromTime t + 1)
     ("-"%char :: pad 2 (DateFromTime t)
     ("T"%char :: pad 2 (HourFromTime t)
     (":"%char :: pad 2 (MinFromTime t)
     (":"%char :: pad 2 (SecFromTime t)
     ("."%char :: pad 3 (msFromTime t) ["Z"%char])))))).

Definition toISOString (d : Date) : option string := isoOfTime <$> d.

(** [a > b] and [a <= b] on dates compare the time values; a comparison
  with [NaN] is false. *)
Definition date_gt (a b : Date) : bool :=
match a, b with Some x, Some y => y <? x | _, _ => false end.
Definition date_le (a b : Date) : bool :=
match a, b with Some x, Some y => x <=? y | _, _ => false end.

(** [Math.ceil(a / b)] for integers [a] and [b > 0]. *)
Definition ceilDiv (a b : Z) : Z := - ((- a) / b).

(** Reads [n] decimal digits. *)
Fixpoint digits (n : nat) (acc : Z) (cs : list ascii) : option (Z * list ascii) :=
match n with
| O => Some (acc, cs)
| S k =>
    match cs with
    | c :: cs' => v ← digitValue c; digits k (10 * acc + v) cs'
    | [] => None
    end
end.

Definition expect (c : ascii) (cs : list ascii) : option (list ascii) :=
match cs with
| c' :: cs' => if Ascii.eqb c c' then Some cs' else None
| [] => None
end.

Definition parseYear (cs : list ascii) : option (Z * list ascii) :=
match cs with
| c :: cs' =>
    if Ascii.eqb c "+" then digits 6 0 cs'
    else if Ascii.eqb c "-" then
      '(y, r) ← digits 6 0 cs';
      if y =? 0 then None else Some (- y, r)
    else digits 4 0 cs
| [] => None
end.

Definition Date_parse (s : string) : Date :=
'(y, r) ← parseYear (chars_of_string s);
r ← expect "-" r; '(mo, r) ← digits 2 0 r;
r ← expect "-" r; '(dd, r) ← digits 2 0 r;
r ← expect "T" r; '(h, r) ← digits 2 0 r;
r ← expect ":" r; '(mi, r) ← digits 2 0 r;
r ← expect ":" r; '(sec, r) ← digits 2 0 r;
r ← expect "." r; '(ms, r) ← digits 3 0 r;
r ← expect "Z" r;
match r with
| [] =>
    if (1 <=? mo) && (mo <=? 12) && (1 <=? dd) && (dd <=? DaysInMonth y mo)
       && (h <=? 24) && (mi <=? 59) && (sec <=? 59)
       && ((h <? 24) || ((mi =? 0) && (sec =? 0) && (ms =? 0)))
    then TimeClip (MakeDate (days_from_civil y mo dd) (MakeTime h mi sec ms))
    else None
| _ => None
end.

End JsDate.

(** ** The data model ([src/types/index.ts])

    Each interface is a record in a module of its name, so that fields keep
    their source names ([User.businessId], [Service.businessId], ...).  An
    optional field [f?: T] is an [option T]. *)
Module Types.

Inductive Role := owner | assistant | admin.

#[global] Instance Role_eq_dec : EqDecision Role.
Proof. solve_decision. Defined.

Inductive AccessRole := access_admin | access_editor | access_viewer.

Module BusinessAccess.
Record t := mk {
  businessId : string;
  businessName : string;
  businessKey : string;
  role : AccessRole;
  addedAt : string
}.
End BusinessAccess.

Module User.
Record t := mk {
  uid : string;
  email : string;
  role : Role;
  businessId : option string;
  displayName : string;
  businessAccess : option (gmap string BusinessAccess.t);
  currentBusiness : option string;
  isBlocked : option bool;
  blockedReason : option string;
  updatedAt : option string
}.
End User.

Inductive LicenseType := L15days | L1month | L3months | L6months | L1year.

Module BusinessLicense.
(** [canceledAt] and [canceledBy] are not declared by the interface;
    [cancelLicense] stores them next to the declared fields. *)
Record t := mk {
  type : LicenseType;
  startDate : string;
  endDate : string;
  isActive : bool;
  assignedBy : string;
  assignedAt : string;
  renewalCount : Z;
  canceledAt : option string;
  canceledBy : option string
}.
End BusinessLicense.

Module Business.
Record t := mk {
  name : string;
  ownerId : string;
  businessKey : string;
  updatedAt : string;
  license : option BusinessLicense.t;
  isActive : option bool
}.
End Business.

Module Service.
Record t := mk {
  id : string;
  name : string;
  duration : Z;
  category : string;
  resources : Z;
  isActive : option bool;
  businessId : string
}.
End Service.

Inductive AppointmentStatus := pending | confirmed | completed | cancelled | no_show.

#[global] Instance AppointmentStatus_eq_dec : EqDecision AppointmentStatus.
Proof. solve_decision. Defined.

Module Appointment.
Record t := mk {
  id : string;
  clientId : string;
  serviceId : string;
  date : string;
  startTime : string;
  endTime : string;
  status : AppointmentStatus;
  notes : option string;
  createdBy : string;
  businessId : string
}.
End Appointment.

Module DigitalRecord.
Record t := mk {
  clientId : string;
  businessId : string;
  serviceId : string;
  treatment : string;
  date : string;
  notes : string;
  createdBy : string;
  createdAt : string;
  updatedAt : string
}.
End DigitalRecord.

(** JavaScript truthiness of the values the services test with [!x],
  [x && y] and [x || y]. *)
Definition truthy_string (s : string) : bool := negb (String.eqb s "").
Definition truthy_flag (b : option bool) : bool := default false b.
Definition truthy_opt_string (s : option string) : bool :=
match s with Some s => truthy_string s | None => false end.

(** [a === b] for an optional string field [a] and a string [b]. *)
Definition field_is (a : option string) (b : string) : bool :=
match a with Some a => String.eqb a b | None => false end.

End Types.

(** ** The database and the effects of a service call

    The services read and write a tree-shaped store.  Its typed part is
    kept as finite maps: [/businesses/<id>], [/users/<uid>] and
    [/businesses/<id>/digitalRecords/<recordId>].  A write that does not
    address a field of a record of the typed part (a path that names no
    user field, a field of a record that does not exist) is kept, with its
    absolute path, in [stray].  A read ([get]) is rejected while the store
    is not [online].  [new Date()] reads the [clock] and [Math.random()]
    the [random] source, one reading per call. *)
Module Store.
Import Types JsDate.

Inductive Value := VBool (b : bool) | VString (s : string) | VNull.

Definition Path := list string.

Record World := mkWorld {
businesses : gmap string Business.t;
users : gmap string User.t;
digitalRecords : gmap string (gmap string DigitalRecord.t);
stray : list (Path * Value);
online : bool;
ticks : nat;
draws : nat
}.

(** What a call throws.
  - [Unavailable]: a rejected store operation;
  - [RangeError]: [toISOString] on an invalid date;
  - [NotFound]: [Error('Negocio no encontrado')];
  - [NoLicense]: [Error('El negocio no tiene licencia activa')];
  - [KeyExhausted]: [Error('No se pudo generar una clave única después de
    varios intentos')];
  - [NotAuthenticated]: [Error('Usuario no autenticado')];
  - [NoAccess]: [Error('No tienes permiso para acceder a este recurso')];
  - [MissingRecordId]: [Error('ID de expediente no proporcionado')];
  - [RecordNotFound]: [Error('No se encontró el expediente para eliminar')];
  - [NoDeletePermission]: [Error('No tienes permiso para eliminar este
    expediente')]. *)
Inductive Err :=
| Unavailable | RangeError | NotFound | NoLicense | KeyExhausted
| NotAuthenticated | NoAccess | MissingRecordId | RecordNotFound
| NoDeletePermission.

(** A computation reads the world and ends in a value or a thrown error;
  what was written before the throw stays written. *)
Definition M (A : Type) : Type := World → (Err + A) * World.

#[global] Instance M_ret : MRet M := λ A a w, (inr a, w).
#[global] Instance M_bind : MBind M := λ A B f m w,
match m w with
| (inr a, w') => f a w'
| (inl e, w') => (inl e, w')
end.

Definition throw {A} (e : Err) : M A := λ w, (inl e, w).

(** [try { body } catch (error) { handler }] *)
Definition catch {A} (body : M A) (handler : Err → M A) : M A := λ w,
match body w with
| (inr a, w') => (inr a, w')
| (inl e, w') => handler e w'
end.

Definition liftOpt {A} (e : Err) (o : option A) : M A :=
match o with Some a => mret a | None => throw e end.

Section Effects.
Variable clock : nat → Z.
Variable random : nat → Z.

(** The time value of [new Date()]. *)
Definition nowMs : M Z := λ w,
  (inr (clock (ticks w)),
   mkWorld (businesses w) (users w) (digitalRecords w) (stray w) (online w)
     (S (ticks w)) (draws w)).

(** [new Date().toISOString()] *)
Definition nowISO : M string := t ← nowMs; mret (isoOfTime t).

(** [Math.random()]: a double in [0, 1), given by its 53-bit numerator
    [k], the value being [k / 2^53]. *)
Definition mathRandom : M Z := λ w,
  (inr (random (draws w) mod 2 ^ 53),
   mkWorld (businesses w) (users w) (digitalRecords w) (stray w) (online w)
     (ticks w) (S (draws w))).
End Effects.

(** [get(ref)] on a location of the typed part. *)
Definition get {A} (read : World → A) : M A := λ w,
if online w then (inr (read w), w) else (inl Unavailable, w).

(** [get(ref(database, `businesses/${businessId}`))]: the snapshot exists
  when the business is stored. *)
Definition getBusiness (businessId : string) : M (option Business.t) :=
get (λ w, businesses w !! businessId).

(** The record a write under [businesses/<businessId>] lands in, if it is
  stored (no read is made). *)
Definition storedBusiness (businessId : string) : M (option Business.t) :=
λ w, (inr (businesses w !! businessId), w).

(** [get(ref(database, 'businesses'))] *)
Definition getBusinesses : M (gmap string Business.t) := get businesses.

(** [get(ref(database, 'users'))] *)
Definition getUsers : M (gmap string User.t) := get users.

(** [get(ref(database, `businesses/${businessId}/digitalRecords/${recordId}`))] *)
Definition getRecord (businessId recordId : string) : M (option DigitalRecord.t) :=
get (λ w, digitalRecords w !! businessId ≫= (λ rs, rs !! recordId)).

Definition recordStray (p : Path) (v : Value) : M unit := λ w,
(inr tt, mkWorld (businesses w) (users w) (digitalRecords w)
           (stray w ++ [(p, v)]) (online w) (ticks w) (draws w)).

Definition putBusiness (businessId : string) (b : Business.t) : M unit := λ w,
(inr tt, mkWorld (<[businessId := b]> (businesses w)) (users w)
           (digitalRecords w) (stray w) (online w) (ticks w) (draws w)).

Definition putUser (uid : string) (u : User.t) : M unit := λ w,
(inr tt, mkWorld (businesses w) (<[uid := u]> (users w)) (digitalRecords w)
           (stray w) (online w) (ticks w) (draws w)).

(** [set(recordRef, null)] on a digital record. *)
Definition removeRecord (businessId recordId : string) : M unit := λ w,
(inr tt, mkWorld (businesses w) (users w)
           (alter (delete recordId) businessId (digitalRecords w))
           (stray w) (online w) (ticks w) (draws w)).

(** *** Paths *)

(** The segments of a '/'-separated path; empty segments are dropped. *)
Fixpoint splitPathAux (cs : list ascii) (cur : list ascii) : Path :=
let flush (rest : Path) :=
  match cur with [] => rest | _ => string_of_chars (rev cur) :: rest end in
match cs with
| [] => flush []
| c :: cs' =>
    if Ascii.eqb c "/" then flush (splitPathAux cs' [])
    else splitPathAux cs' (c :: cur)
end.

Definition splitPath (s : string) : Path := splitPathAux (chars_of_string s) [].

(** The location a key of a multi-path [update(ref, values)] addresses: the
  key is a path relative to [ref]. *)
Definition childPath (ref : Path) (key : string) : Path := ref ++ splitPath key.

(** *** Writes into user records *)

Definition setUserField (u : User.t) (field : string) (v : Value) : option User.t :=
let 'User.mk uid email role bid dn ba cb blk rsn upd := u in
if String.eqb field "isBlocked" then
  match v with
  | VBool b => Some (User.mk uid email role bid dn ba cb (Some b) rsn upd)
  | VNull => Some (User.mk uid email role bid dn ba cb None rsn upd)
  | VString _ => None
  end
else if String.eqb field "blockedReason" then
  match v with
  | VString s => Some (User.mk uid email role bid dn ba cb blk (Some s) upd)
  | VNull => Some (User.mk uid email role bid dn ba cb blk None upd)
  | VBool _ => None
  end
else if String.eqb field "updatedAt" then
  match v with
  | VString s => Some (User.mk uid email role bid dn ba cb blk rsn (Some s))
  | VNull => Some (User.mk uid email role bid dn ba cb blk rsn None)
  | VBool _ => None
  end
else None.

(** One write at an absolute path: [users/<uid>/<field>] of a stored user
  changes that record, anything else is kept in [stray]. *)
Definition writeAt (p : Path) (v : Value) : M unit := λ w,
match p with
| [root; uid; field] =>
    if String.eqb root "users" then
      match users w !! uid ≫= (λ u, setUserField u field v) with
      | Some u' => putUser uid u' w
      | None => recordStray p v w
      end
    else recordStray p v w
| _ => recordStray p v w
end.

(** [update(ref, values)] with path keys. *)
Fixpoint update (ref : Path) (values : list (string * Value)) : M unit :=
match values with
| [] => mret tt
| (key, v) :: rest => writeAt (childPath ref key) v ;; update ref rest
end.

End Store.

(** ** [LicenseService] ([services/licenseService.ts]) *)
Module LicenseService.
Import Types JsDate Store.

Section Service.
Variable tza : Z.
Variable clock : nat → Z.

(** [calculateEndDate(startDate, licenseType)]; [None] when
    [toISOString] throws. *)
Definition calculateEndDate (startDate : string) (licenseType : LicenseType)
  : option string :=
  let start := Date_parse startDate in
  let start :=
    match licenseType with
    | L15days => setDate tza start ((λ d, d + 15) <$> getDate tza start)
    | L1month => setMonth tza start ((λ m, m + 1) <$> getMonth tza start)
    | L3months => setMonth tza start ((λ m, m + 3) <$> getMonth tza start)
    | L6months => setMonth tza start ((λ m, m + 6) <$> getMonth tza start)
    | L1year => setFullYear tza start ((λ y, y + 1) <$> getFullYear tza start)
    end in
  toISOString start.

(** [isLicenseExpired(license)] *)
Definition isLicenseExpired (license : option BusinessLicense.t) : M bool :=
  match license with
  | None => mret true
  | Some l =>
      if negb (BusinessLicense.isActive l) then mret true
      else
        now ← nowMs clock;
        mret (date_gt (Some now) (Date_parse (BusinessLicense.endDate l)))
  end.

(** [isLicenseExpiringSoon(license)] *)
Definition isLicenseExpiringSoon (license : option BusinessLicense.t) : M bool :=
  match license with
  | None => mret false
  | Some l =>
      if negb (BusinessLicense.isActive l) then mret false
      else
        now ← nowMs clock;
        let threeDaysFromNow :=
          setDate tza (Some now) ((λ d, d + 3) <$> getDate tza (Some now)) in
        mret (date_le (Date_parse (BusinessLicense.endDate l)) threeDaysFromNow)
  end.

(** [getDaysRemaining(license)]; [None] is [NaN]. *)
Definition getDaysRemaining (license : option BusinessLicense.t) : M (option Z) :=
  match license with
  | None => mret (Some 0)
  | Some l =>
      if negb (BusinessLicense.isActive l) then mret (Some 0)
      else
        now ← nowMs clock;
        let endDate := Date_parse (BusinessLicense.endDate l) in
        let diffTime := (λ e, e - now) <$> endDate in
        mret ((λ d, ceilDiv d (1000 * 60 * 60 * 24)) <$> diffTime)
  end.

(** The body of [blockBusinessUsers]'s loop: [shouldBlock] starts false
    and each test that holds sets it. *)
Definition shouldBlock (businessId : string) (user : User.t) : bool :=
  let shouldBlock := false in
  let shouldBlock :=
    if field_is (User.businessId user) businessId then true else shouldBlock in
  let shouldBlock :=
    if match User.businessAccess user with
       | Some access => bool_decide (is_Some (access !! businessId))
       | None => false
       end
    then true else shouldBlock in
  let shouldBlock :=
    if bool_decide (User.role user = owner)
       && field_is (User.currentBusiness user) businessId
    then true else shouldBlock in
  shouldBlock.

(** The body of [unblockBusinessUsers]'s loop: the three tests are made
    only under [if (user.isBlocked)]. *)
Definition shouldUnblock (businessId : string) (user : User.t) : bool :=
  let shouldUnblock := false in
  if truthy_flag (User.isBlocked user) then
    let shouldUnblock :=
      if field_is (User.businessId user) businessId then true else shouldUnblock in
    let shouldUnblock :=
      if match User.businessAccess user with
         | Some access => bool_decide (is_Some (access !! businessId))
         | None => false
         end
      then true else shouldUnblock in
    let shouldUnblock :=
      if bool_decide (User.role user = owner)
         && field_is (User.currentBusiness user) businessId
      then true else shouldUnblock in
    shouldUnblock
  else shouldUnblock.

(** The key [`users/${userId}/${field}`]. *)
Definition userKey (userId field : string) : string :=
  ("users/" ++ userId ++ "/" ++ field)%string.

(** The [forEach] over [Object.keys(users)] that fills [updates]:
    a selected user contributes three entries, the last one stamped with
    a fresh [new Date().toISOString()]. *)
Fixpoint collectUpdates (select : User.t → bool) (flag reason : Value)
    (entries : list (string * User.t)) : M (list (string * Value)) :=
  match entries with
  | [] => mret []
  | (userId, user) :: rest =>
      if select user then
        stamp ← nowISO clock;
        more ← collectUpdates select flag reason rest;
        mret ((userKey userId "isBlocked", flag)
              :: (userKey userId "blockedReason", reason)
              :: (userKey userId "updatedAt", VString stamp) :: more)
      else collectUpdates select flag reason rest
  end.

(** The reference [ref(database, 'users')]. *)
Definition usersRef : Path := ["users"%string].

(** [blockBusinessUsers(businessId, reason)] *)
Definition blockBusinessUsers (businessId reason : string) : M unit :=
  users ← getUsers;
  if bool_decide (users = ∅) then mret tt
  else
    updates ← collectUpdates (shouldBlock businessId) (VBool true)
                (VString reason) (map_to_list users);
    if (0 <? Z.of_nat (List.length updates)) then update usersRef updates
    else mret tt.

(** [unblockBusinessUsers(businessId)] *)
Definition unblockBusinessUsers (businessId : string) : M unit :=
  users ← getUsers;
  if bool_decide (users = ∅) then mret tt
  else
    updates ← collectUpdates (shouldUnblock businessId) (VBool false)
                VNull (map_to_list users);
    if (0 <? Z.of_nat (List.length updates)) then update usersRef updates
    else mret tt.

(** [x || 0] on a number. *)
Definition orZero (x : option Z) : Z :=
  match x with
  | Some n => if n =? 0 then 0 else n
  | None => 0
  end.

(** [assignLicense(businessId, licenseType, adminUserId)] *)
Definition assignLicense (businessId : string) (licenseType : LicenseType)
    (adminUserId : string) : M unit :=
  startDate ← nowISO clock;
  endDate ← liftOpt RangeError (calculateEndDate startDate licenseType);
  snapshot ← getBusiness businessId;
  match snapshot with
  | None => throw NotFound
  | Some business =>
      let currentRenewalCount :=
        orZero (BusinessLicense.renewalCount <$> Business.license business) in
      assignedAt ← nowISO clock;
      let newLicense :=
        BusinessLicense.mk licenseType startDate endDate true adminUserId
          assignedAt (currentRenewalCount + 1) None None in
      updatedAt ← nowISO clock;
      putBusiness businessId
        (Business.mk (Business.name business) (Business.ownerId business)
           (Business.businessKey business) updatedAt (Some newLicense) (Some true)) ;;
      unblockBusinessUsers businessId
  end.

(** [blockBusinessForExpiredLicense(businessId)]: the multi-path update
    sets [isActive] and [license/isActive]; on a business that is not
    stored, or has no license, these writes create nodes outside the
    typed records. *)
Definition blockBusinessForExpiredLicense (businessId : string) : M unit :=
  updatedAt ← nowISO clock;
  stored ← storedBusiness businessId;
  match stored with
  | Some business =>
      match Business.license business with
      | Some l =>
          let l' :=
            BusinessLicense.mk (BusinessLicense.type l) (BusinessLicense.startDate l)
              (BusinessLicense.endDate l) false (BusinessLicense.assignedBy l)
              (BusinessLicense.assignedAt l) (BusinessLicense.renewalCount l)
              (BusinessLicense.canceledAt l) (BusinessLicense.canceledBy l) in
          putBusiness businessId
            (Business.mk (Business.name business) (Business.ownerId business)
               (Business.businessKey business) updatedAt (Some l') (Some false))
      | None =>
          putBusiness businessId
            (Business.mk (Business.name business) (Business.ownerId business)
               (Business.businessKey business) updatedAt None (Some false)) ;;
          recordStray ["businesses"; businessId; "license"; "isActive"]%string
            (VBool false)
      end
  | None =>
      recordStray ["businesses"; businessId; "isActive"]%string (VBool false) ;;
      recordStray ["businesses"; businessId; "license"; "isActive"]%string
        (VBool false) ;;
      recordStray ["businesses"; businessId; "updatedAt"]%string (VString updatedAt)
  end ;;
  blockBusinessUsers businessId "Licencia expirada".

(** [cancelLicense(businessId, adminUserId)] *)
Definition cancelLicense (businessId adminUserId : string) : M unit :=
  snapshot ← getBusiness businessId;
  match snapshot with
  | None => throw NotFound
  | Some business =>
      match Business.license business with
      | None => throw NoLicense
      | Some currentLicense =>
          canceledAt ← nowISO clock;
          endDate ← nowISO clock;
          let canceledLicense :=
            BusinessLicense.mk (BusinessLicense.type currentLicense)
              (BusinessLicense.startDate currentLicense) endDate false
              (BusinessLicense.assignedBy currentLicense)
              (BusinessLicense.assignedAt currentLicense)
              (BusinessLicense.renewalCount currentLicense)
              (Some canceledAt) (Some adminUserId) in
          updatedAt ← nowISO clock;
          putBusiness businessId
            (Business.mk (Business.name business) (Business.ownerId business)
               (Business.businessKey business) updatedAt (Some canceledLicense)
               (Some false)) ;;
          blockBusinessUsers businessId "Licencia cancelada por administrador"
      end
  end.
End Service.

End LicenseService.

(** ** [RealTimeLicenseService] ([utils/realTimeLicenseService.ts]) *)
Module RealTimeLicense.
Import Types JsDate Store.

Record LicenseStatus := mkStatus {
isValid : bool;
isExpired : bool;
isExpiringSoon : bool;
daysRemaining : option Z;
license : option BusinessLicense.t;
businessId : option string
}.

(** What [setupUserLicenseListener] returns: [() => {}] or
  [() => this.removeLicenseListener(listenerId)]. *)
Inductive Cleanup := NoOp | RemoveListener (listenerId : string).

Section Service.
Variable tza : Z.
Variable clock : nat → Z.
(** The callbacks a caller registers. *)
Variable Callback : Type.

(** The private maps of the service: [listeners] holds, per listener id,
    the subscription (the business it watches), [licenseCallbacks] the
    callback. *)
Record Service := mkService {
  listeners : gmap string string;
  licenseCallbacks : gmap string Callback
}.

Definition isLicenseExpired (license : option BusinessLicense.t) : M bool :=
  match license with
  | None => mret true
  | Some l =>
      if negb (BusinessLicense.isActive l) then mret true
      else
        now ← nowMs clock;
        mret (date_gt (Some now) (Date_parse (BusinessLicense.endDate l)))
  end.

Definition isLicenseExpiringSoon (license : option BusinessLicense.t) : M bool :=
  match license with
  | None => mret false
  | Some l =>
      if negb (BusinessLicense.isActive l) then mret false
      else
        now ← nowMs clock;
        let threeDaysFromNow :=
          setDate tza (Some now) ((λ d, d + 3) <$> getDate tza (Some now)) in
        mret (date_le (Date_parse (BusinessLicense.endDate l)) threeDaysFromNow)
  end.

Definition getDaysRemaining (license : option BusinessLicense.t) : M (option Z) :=
  match license with
  | None => mret (Some 0)
  | Some l =>
      if negb (BusinessLicense.isActive l) then mret (Some 0)
      else
        now ← nowMs clock;
        let endDate := Date_parse (BusinessLicense.endDate l) in
        let diffTime := (λ e, e - now) <$> endDate in
        mret ((λ d, ceilDiv d (1000 * 60 * 60 * 24)) <$> diffTime)
  end.

(** The status reported for a business that is not stored, for a failed
    read and for a user without a business. *)
Definition noLicenseStatus (businessId : option string) : LicenseStatus :=
  mkStatus false true false (Some 0) None businessId.

(** The status computed from a stored business, by [checkBusinessLicense]
    and by the listener alike. *)
Definition statusOfBusiness (businessId : string) (business : Business.t)
  : M LicenseStatus :=
  let license := Business.license business in
  let isActive :=
    match Business.isActive business with Some false => false | _ => true end in
  isExpired ← isLicenseExpired license;
  isExpiringSoon ← isLicenseExpiringSoon license;
  daysRemaining ← getDaysRemaining license;
  mret (mkStatus
          (negb isExpired && isActive
           && match license with
              | Some l => BusinessLicense.isActive l
              | None => false
              end)
          isExpired isExpiringSoon daysRemaining license (Some businessId)).

(** [checkBusinessLicense(businessId)] *)
Definition checkBusinessLicense (businessId : string) : M LicenseStatus :=
  catch
    (snapshot ← getBusiness businessId;
     match snapshot with
     | None => mret (noLicenseStatus (Some businessId))
     | Some business => statusOfBusiness businessId business
     end)
    (λ _, mret (noLicenseStatus (Some businessId))).

(** The status of an administrator. *)
Definition adminStatus : LicenseStatus :=
  mkStatus true false false (Some 999) None None.

(** The business whose license governs a user who is not an
    administrator. *)
Definition businessOf (user : User.t) : option string :=
  let businessId := None in
  if bool_decide (User.role user = owner) && truthy_opt_string (User.businessId user)
  then User.businessId user
  else if bool_decide (User.role user = assistant)
          && truthy_opt_string (User.currentBusiness user)
  then User.currentBusiness user
  else businessId.

(** [checkUserLicenseStatus(user)] *)
Definition checkUserLicenseStatus (user : User.t) : M LicenseStatus :=
  if bool_decide (User.role user = admin) then mret adminStatus
  else
    match businessOf user with
    | None => mret (noLicenseStatus None)
    | Some businessId =>
        if truthy_string businessId then checkBusinessLicense businessId
        else mret (noLicenseStatus None)
    end.

(** [removeLicenseListener(listenerId)] *)
Definition removeLicenseListener (listenerId : string) (svc : Service) : Service :=
  match listeners svc !! listenerId with
  | Some _ =>
      mkService (delete listenerId (listeners svc))
                (delete listenerId (licenseCallbacks svc))
  | None => svc
  end.

(** The body of the [onValue] listener: the status passed to the
    callback when the store delivers a snapshot of the business. *)
Definition onSnapshot (businessId : string) (snapshot : option Business.t)
  : M LicenseStatus :=
  match snapshot with
  | Some business => statusOfBusiness businessId business
  | None => mret (noLicenseStatus (Some businessId))
  end.

(** [setupBusinessLicenseListener(businessId, callback)]: the service
    after the call, and the cleanup function. *)
Definition setupBusinessLicenseListener (businessId : string)
    (callback : Callback) (svc : Service) : Service * Cleanup :=
  let listenerId := ("business_" ++ businessId)%string in
  let svc := removeLicenseListener listenerId svc in
  (mkService (<[listenerId := businessId]> (listeners svc))
             (<[listenerId := callback]> (licenseCallbacks svc)),
   RemoveListener listenerId).

(** [setupUserLicenseListener(user, callback)]: the service after the
    call, the calls of [callback] made before it returns, and the cleanup
    function. *)
Definition setupUserLicenseListener (user : User.t) (callback : Callback)
    (svc : Service) : Service * list (Callback * LicenseStatus) * Cleanup :=
  if bool_decide (User.role user = admin) then
    (svc, [(callback, adminStatus)], NoOp)
  else
    match businessOf user with
    | Some businessId =>
        if truthy_string businessId then
          let '(svc', cleanup) := setupBusinessLicenseListener businessId callback svc in
          (svc', [], cleanup)
        else (svc, [(callback, noLicenseStatus None)], NoOp)
    | None => (svc, [(callback, noLicenseStatus None)], NoOp)
    end.

(** A change of [businesses/<businessId>] reaches every listener
    subscribed to it: the calls of the callbacks it causes. *)
Fixpoint deliver (businessId : string) (snapshot : option Business.t)
    (subs : list (string * string)) (svc : Service)
  : M (list (Callback * LicenseStatus)) :=
  match subs with
  | [] => mret []
  | (listenerId, watched) :: rest =>
      if String.eqb watched businessId then
        match licenseCallbacks svc !! listenerId with
        | Some callback =>
            status ← onSnapshot businessId snapshot;
            more ← deliver businessId snapshot rest svc;
            mret ((callback, status) :: more)
        | None => deliver businessId snapshot rest svc
        end
      else deliver businessId snapshot rest svc
  end.

Definition onValue (businessId : string) (snapshot : option Business.t)
    (svc : Service) : M (list (Callback * LicenseStatus)) :=
  deliver businessId snapshot (map_to_list (listeners svc)) svc.

Definition runCleanup (c : Cleanup) (svc : Service) : Service :=
  match c with
  | NoOp => svc
  | RemoveListener listenerId => removeLicenseListener listenerId svc
  end.
End Service.

End RealTimeLicense.

(** ** [useLicenseGuard] ([hooks/useLicenseGuard.ts]) *)
Module LicenseGuard.
Import Types RealTimeLicense.

(** [readOnlySections.includes(section)] *)
Definition readOnlySections : list string := ["dashboard"; "notifications"]%string.

Definition includes (l : list string) (x : string) : bool :=
existsb (String.eqb x) l.

(** [canAccessSection(section)], with the [currentUser] and the
  [licenseStatus] of the session. *)
Definition canAccessSection (currentUser : option User.t)
  (licenseStatus : option LicenseStatus) (section : string) : bool :=
match currentUser with
| None => false
| Some currentUser =>
    if bool_decide (User.role currentUser = admin) then true
    else if truthy_flag (User.isBlocked currentUser) then
      String.eqb section "notifications"
    else
      match licenseStatus with
      | Some status =>
          if negb (isValid status) then includes readOnlySections section
          else true
      | None => true
      end
end.

End LicenseGuard.

(** ** [AppointmentModal] ([components/appointments/AppointmentModal.tsx]) *)
Module AppointmentModal.
Import Types.

(** The numbers of the host, as far as [timeToMinutes] and the overlap test
  use them: the conversion [Number(s)], [NaN] (the number [undefined]
  converts to), the literal [60], product, sum and [<], which no number
  satisfies with itself.  [a > b] is [b < a]. *)
Class HostNumber := {
num : Type;
Number : string → num;
NaN : num;
sixty : num;
mul : num → num → num;
add : num → num → num;
lt : num → num → bool;
lt_irrefl : ∀ x, lt x x = false
}.

(** [s.split(sep)] for a one-character separator: never empty. *)
Fixpoint splitAux (sep : ascii) (cs : list ascii) (cur : list ascii) : list string :=
match cs with
| [] => [JsDate.string_of_chars (rev cur)]
| c :: cs' =>
    if Ascii.eqb c sep then JsDate.string_of_chars (rev cur) :: splitAux sep cs' []
    else splitAux sep cs' (c :: cur)
end.

Definition split (sep : ascii) (s : string) : list string :=
splitAux sep (JsDate.chars_of_string s) [].

(** The state of the form. *)
Record FormData := mkForm {
clientId : string;
serviceId : string;
date : string;
startTime : string;
endTime : string;
status : AppointmentStatus;
notes : string
}.

(** The form as the modal loads it from the [appointment] being edited
  ([notes: appointment.notes || '']). *)
Definition loadForm (appointment : Appointment.t) : FormData :=
mkForm (Appointment.clientId appointment) (Appointment.serviceId appointment)
  (Appointment.date appointment) (Appointment.startTime appointment)
  (Appointment.endTime appointment) (Appointment.status appointment)
  (match Appointment.notes appointment with
   | Some n => if truthy_string n then n else ""%string
   | None => ""%string
   end).

Section Modal.
Context `{HostNumber}.

(** [timeToMinutes(timeString)]: the destructuring takes the first two
    elements of the mapped array, a missing one is [undefined]. *)
Definition timeToMinutes (timeString : string) : num :=
  let parts := map Number (split ":" timeString) in
  let hours := match parts with h :: _ => h | [] => NaN end in
  let minutes := match parts with _ :: m :: _ => m | _ => NaN end in
  add (mul hours sixty) minutes.

(** [checkTimeConflicts()], with the state it closes over: the form, the
    [services] and [appointments] of the business and the [appointment]
    being edited, if any. *)
Definition checkTimeConflicts (formData : FormData) (services : list Service.t)
    (appointments : list Appointment.t) (appointment : option Appointment.t)
  : list Appointment.t :=
  if negb (truthy_string (serviceId formData)) || negb (truthy_string (date formData))
     || negb (truthy_string (startTime formData))
     || negb (truthy_string (endTime formData))
  then []
  else
    match List.find (λ s, String.eqb (Service.id s) (serviceId formData)) services with
    | None => []
    | Some service =>
        if 1 <? Service.resources service then []
        else
          let startMinutes := timeToMinutes (startTime formData) in
          let endMinutes := timeToMinutes (endTime formData) in
          List.filter (λ apt,
            if match appointment with
               | Some edited => String.eqb (Appointment.id apt) (Appointment.id edited)
               | None => false
               end
            then false
            else if negb (String.eqb (Appointment.serviceId apt) (serviceId formData))
                    || negb (String.eqb (Appointment.date apt) (date formData))
            then false
            else if bool_decide (Appointment.status apt = cancelled) then false
            else
              let aptStartMinutes := timeToMinutes (Appointment.startTime apt) in
              let aptEndMinutes := timeToMinutes (Appointment.endTime apt) in
              lt startMinutes aptEndMinutes && lt aptStartMinutes endMinutes)
            appointments
    end.
End Modal.

(** *** Numbers of the form HH:MM

  An instance of the host numbers that is exact on what a time input
  produces: [Number] of a string of decimal digits is its value, of the
  empty string 0; every other string is read as [NaN] here, and [None]
  stands for [NaN]. *)
Fixpoint decimal (cs : list ascii) (acc : Z) : option Z :=
match cs with
| [] => Some acc
| c :: cs' =>
    match JsDate.digitValue c with
    | Some v => decimal cs' (10 * acc + v)
    | None => None
    end
end.

Definition lift2 (f : Z → Z → Z) (a b : option Z) : option Z :=
match a, b with Some x, Some y => Some (f x y) | _, _ => None end.

Definition lt_decimal (a b : option Z) : bool :=
match a, b with Some x, Some y => x <? y | _, _ => false end.

#[global, refine] Instance DecimalNumber : HostNumber := {|
num := option Z;
Number := λ s, decimal (JsDate.chars_of_string s) 0;
NaN := None;
sixty := Some 60;
mul := lift2 Z.mul;
add := lift2 Z.add;
lt := lt_decimal
|}.
Proof. intros [x|]; [apply Z.ltb_irrefl | reflexivity]. Defined.

End AppointmentModal.

(** ** [businessKey] ([utils/businessKey.ts]) *)
Module BusinessKey.
Import Types Store.

Section Keys.
Variable random : nat → Z.

Definition chars : string := "0123456789ABCDEF".

(** [s.charAt(i)]: the empty string outside the string. *)
Definition charAt (s : string) (i : Z) : string :=
  if i <? 0 then ""%string
  else match String.get (Z.to_nat i) s with
       | Some c => String c EmptyString
       | None => ""%string
       end.

(** The loop [for (let i = 0; i < 16; i++)] of [generateBusinessKey],
    with [n] iterations left; [Math.floor(Math.random() * chars.length)]
    of the draw [k / 2^53] is [k * chars.length / 2^53] rounded down. *)
Fixpoint keyLoop (n : nat) (result : string) : M string :=
  match n with
  | O => mret result
  | S n' =>
      k ← mathRandom random;
      keyLoop n'
        (result ++ charAt chars (k * Z.of_nat (String.length chars) / 2 ^ 53))%string
  end.

(** [generateBusinessKey()] *)
Definition generateBusinessKey : M string := keyLoop 16 ""%string.

(** The [for ... in] scan of [isBusinessKeyUnique]: [false] at the first
    business that has the key. *)
Fixpoint scanKeys (key : string) (entries : list (string * Business.t)) : bool :=
  match entries with
  | [] => true
  | (_, business) :: rest =>
      if String.eqb (Business.businessKey business) key then false
      else scanKeys key rest
  end.

(** [isBusinessKeyUnique(key)] *)
Definition isBusinessKeyUnique (key : string) : M bool :=
  catch
    (businesses ← getBusinesses;
     if bool_decide (businesses = ∅) then mret true
     else mret (scanKeys key (map_to_list businesses)))
    (λ _, mret false).

Definition maxAttempts : Z := 10.

(** The [do ... while (!isUnique && attempts < maxAttempts)] loop, run
    for at most [fuel] iterations: the last key, its [isUnique], or
    [None] when the fuel runs out before the loop ends. *)
Fixpoint attemptLoop (fuel : nat) (attempts : Z) : M (option (string * bool)) :=
  match fuel with
  | O => mret None
  | S fuel' =>
      key ← generateBusinessKey;
      isUnique ← isBusinessKeyUnique key;
      let attempts := attempts + 1 in
      if negb isUnique && (attempts <? maxAttempts) then attemptLoop fuel' attempts
      else mret (Some (key, isUnique))
  end.

(** [generateUniqueBusinessKey()], the loop given [fuel] iterations;
    [None] when the fuel does not suffice. *)
Definition generateUniqueBusinessKey (fuel : nat) : M (option string) :=
  r ← attemptLoop fuel 0;
  match r with
  | None => mret None
  | Some (key, isUnique) =>
      if negb isUnique then throw KeyExhausted else mret (Some key)
  end.
End Keys.

End BusinessKey.

(** ** [AuthContext] ([contexts/AuthContext.tsx]), digital records *)
Module AuthContext.
Import Types Store.

(** The state of the provider the record operations close over. *)
Record Session := mkSession {
currentUser : option User.t;
businessAccess : gmap string BusinessAccess.t
}.

(** [validateRecordAccess(businessId)] *)
Definition validateRecordAccess (s : Session) (businessId : string) : M bool :=
match currentUser s with
| None => throw NotAuthenticated
| Some user =>
    if field_is (User.businessId user) businessId
       || bool_decide (is_Some (businessAccess s !! businessId))
    then mret true
    else throw NoAccess
end.

(** [deleteClientRecord(businessId, recordId)]; the [catch] logs the error
  and throws it again. *)
Definition deleteClientRecord (s : Session) (businessId recordId : string) : M unit :=
catch
  (validateRecordAccess s businessId ;;
   if negb (truthy_string recordId) then throw MissingRecordId
   else
     recordSnapshot ← getRecord businessId recordId;
     match recordSnapshot with
     | None => throw RecordNotFound
     | Some recordData =>
         (if truthy_string (DigitalRecord.createdBy recordData)
             && negb (field_is (User.uid <$> currentUser s)
                        (DigitalRecord.createdBy recordData))
          then
            let isAdmin :=
              match currentUser s with
              | Some user =>
                  bool_decide (User.role user = owner)
                  || (field_is (User.businessId user) businessId
                      && bool_decide (User.role user = assistant))
              | None => false
              end in
            if negb isAdmin then throw NoDeletePermission else mret tt
          else mret tt) ;;
         removeRecord businessId recordId
     end)
  (λ error, throw error).

End AuthContext.

(** ** [RealTimeLicenseService], blocking ([utils/realTimeLicenseService.ts]) *)
Module RealTimeBlocking.
Import Types JsDate Store RealTimeLicense.

(** [cleanup()]: every listener is unsubscribed and both maps are
  cleared. *)
Definition cleanup {Callback} (svc : Service Callback) : Service Callback :=
mkService Callback ∅ ∅.

Section Service.
Variable tza : Z.
Variable clock : nat → Z.

(** [shouldBlockUser(user)] *)
Definition shouldBlockUser (user : User.t) : M bool :=
if bool_decide (User.role user = admin) then mret false
else if truthy_flag (User.isBlocked user) then mret true
else
  licenseStatus ← checkUserLicenseStatus tza clock user;
  mret (negb (isValid licenseStatus)).

(** [getBlockingReason(user)] *)
Definition getBlockingReason (user : User.t) : M string :=
if truthy_flag (User.isBlocked user) && truthy_opt_string (User.blockedReason user)
then mret (default ""%string (User.blockedReason user))
else
  licenseStatus ← checkUserLicenseStatus tza clock user;
  if negb (isValid licenseStatus) then
    if isExpired licenseStatus then
      mret "Su licencia ha expirado. Contacte al administrador para renovarla."%string
    else if negb (bool_decide (is_Some (license licenseStatus))) then
      mret "No tiene una licencia activa. Contacte al administrador."%string
    else
      mret "Su cuenta ha sido desactivada. Contacte al administrador."%string
  else mret "Acceso restringido. Contacte al administrador."%string.
End Service.

End RealTimeBlocking.

(** ** [useLicenseGuard], actions ([hooks/useLicenseGuard.ts]) *)
Module LicenseGuardActions.
Import Types Store RealTimeLicense RealTimeBlocking.

Section Guard.
Variable tza : Z.
Variable clock : nat → Z.
(** The [currentUser] and the [licenseStatus] of the session. *)
Variable currentUser : option User.t.
Variable licenseStatus : option LicenseStatus.

(** [canPerformAction()] *)
Definition canPerformAction : M bool :=
match currentUser with
| None => mret false
| Some currentUser =>
    if bool_decide (User.role currentUser = admin) then mret true
    else if truthy_flag (User.isBlocked currentUser) then mret false
    else
      match licenseStatus with
      | Some licenseStatus => mret (isValid licenseStatus)
      | None =>
          shouldBlock ← shouldBlockUser tza clock currentUser;
          mret (negb shouldBlock)
      end
end.

(** [x || fallback] on an optional string. *)
Definition orElse (x : option string) (fallback : string) : string :=
match x with
| Some s => if truthy_string s then s else fallback
| None => fallback
end.

(** [checkLicenseAndExecute(action)]: what it returns, and the message
  it shows with [alert], if any. *)
Definition checkLicenseAndExecute (action : M unit) : M (bool * option string) :=
canExecute ← canPerformAction;
if negb canExecute then
  let message := "No puede realizar esta acción."%string in
  let message :=
    if truthy_flag (currentUser ≫= User.isBlocked) then
      orElse (currentUser ≫= User.blockedReason)
        "Su cuenta está bloqueada. Contacte al administrador."
    else
      match licenseStatus with
      | Some licenseStatus =>
          if negb (isValid licenseStatus) then
            if isExpired licenseStatus then
              "Su licencia ha expirado. Contacte al administrador para renovarla."%string
            else "Su licencia no está activa. Contacte al administrador."%string
          else message
      | None => message
      end in
  mret (false, Some message)
else
  catch (action ;; mret (true, None)) (λ _, mret (false, None)).

(** The decimal digits of a natural number, most significant first;
  [fuel] bounds their number. *)
Fixpoint decimalDigits (fuel : nat) (n : Z) (rest : list ascii) : list ascii :=
match fuel with
| O => rest
| S fuel' =>
    let rest := JsDate.digitChar n :: rest in
    if n <? 10 then rest else decimalDigits fuel' (n / 10) rest
end.

(** A number in a template literal, for the values [daysRemaining]
  takes: an integer in decimal, or [NaN]. *)
Definition numberToString (n : option Z) : string :=
match n with
| None => "NaN"%string
| Some z =>
    let digits :=
      JsDate.string_of_chars
        (decimalDigits (S (Z.to_nat (Z.log2 (Z.abs z)))) (Z.abs z) []) in
    if z <? 0 then ("-" ++ digits)%string else digits
end.

(** [getLicenseStatusMessage()] *)
Definition getLicenseStatusMessage : option string :=
match currentUser with
| None => None
| Some user =>
    if bool_decide (User.role user = admin) then None
    else if truthy_flag (User.isBlocked user) then
      Some (orElse (User.blockedReason user) "Cuenta bloqueada")
    else
      match licenseStatus with
      | Some licenseStatus =>
          if negb (isValid licenseStatus) then
            if isExpired licenseStatus then Some "Licencia expirada"%string
            else Some "Licencia inactiva"%string
          else if isExpiringSoon licenseStatus then
            Some ("Licencia expira en "
                  ++ numberToString (daysRemaining licenseStatus) ++ " días")%string
          else None
      | None => None
      end
end.
End Guard.

End LicenseGuardActions.

(** ** [usePermissions] ([hooks/usePermissions.ts]) *)
Module Permissions.
Import Types.

(** The keys of [permissions]. *)
Inductive Action :=
| canCreateService | canEditService | canDeleteService | canViewService
| canCreateClient | canEditClient | canDeleteClient | canViewClient
| canCreateAppointment | canEditAppointment | canDeleteAppointment
| canViewAppointment
| canCreateRecord | canEditRecord | canDeleteRecord | canViewRecord
| canViewReports | canExportReports
| canEditBusiness | canViewBusinessKey
| canViewNotifications | canDeleteNotifications
| canAccessAdminPanel.

Section Hook.
Variable currentUser : option User.t.

(** [currentUser?.role === r] *)
Definition roleIs (r : Role) : bool :=
match currentUser with
| Some user => bool_decide (User.role user = r)
| None => false
end.

Definition permissions (action : Action) : bool :=
match action with
| canCreateService => roleIs owner
| canEditService => roleIs owner
| canDeleteService => roleIs owner
| canViewService => true
| canCreateClient => roleIs owner || roleIs assistant
| canEditClient => roleIs owner || roleIs assistant
| canDeleteClient => roleIs owner
| canViewClient => true
| canCreateAppointment => roleIs owner || roleIs assistant
| canEditAppointment => roleIs owner || roleIs assistant
| canDeleteAppointment => roleIs owner || roleIs assistant
| canViewAppointment => true
| canCreateRecord => roleIs owner
| canEditRecord => roleIs owner
| canDeleteRecord => roleIs owner
| canViewRecord => roleIs owner
| canViewReports => true
| canExportReports => roleIs owner
| canEditBusiness => roleIs owner
| canViewBusinessKey => roleIs owner
| canViewNotifications => true
| canDeleteNotifications => roleIs owner || roleIs assistant
| canAccessAdminPanel => roleIs admin
end.

(** [can(action)] *)
Definition can (action : Action) : bool := permissions action || false.

(** [getRestrictionMessage(action)] *)
Definition getRestrictionMessage (action : Action) : string :=
if roleIs assistant then
  match action with
  | canCreateService | canEditService | canDeleteService =>
      "Solo el propietario puede gestionar servicios. Tienes acceso de solo lectura."
  | canDeleteClient => "Solo el propietario puede eliminar clientes."
  | canCreateRecord | canEditRecord | canDeleteRecord | canViewRecord =>
      "Solo el propietario tiene acceso a los expedientes digitales."
  | canExportReports => "Solo el propietario puede exportar reportes."
  | canEditBusiness =>
      "Solo el propietario puede modificar la configuración del negocio."
  | _ => "No tienes permisos para realizar esta acción."
  end
else "No tienes permisos para realizar esta acción.".
End Hook.

End Permissions.

(** ** [businessKey], lookup ([utils/businessKey.ts]) *)
Module BusinessKeyLookup.
Import Types Store.

(** The [for ... in] scan of [findBusinessByKey]: the first business that
  has the key. *)
Fixpoint scanFor (businessKey : string) (entries : list (string * Business.t))
: option (string * string) :=
match entries with
| [] => None
| (businessId, business) :: rest =>
    if String.eqb (Business.businessKey business) businessKey
    then Some (businessId, Business.name business)
    else scanFor businessKey rest
end.

(** [findBusinessByKey(businessKey)]: the [businessId] and the
  [businessName], or [null]. *)
Definition findBusinessByKey (businessKey : string) : M (option (string * string)) :=
catch
  (businesses ← getBusinesses;
   if bool_decide (businesses = ∅) then mret None
   else mret (scanFor businessKey (map_to_list businesses)))
  (λ _, mret None).

End BusinessKeyLookup.

(** ** [LicenseService], the sweep ([services/licenseService.ts]) *)
Module LicenseSweep.
Import Types JsDate Store LicenseService.

Section Service.
Variable clock : nat → Z.

(** The first part of [blockBusinessForExpiredLicense], up to its first
  [await]: the stamp is read and the update of the business is issued. *)
Definition deactivate (businessId : string) : M unit :=
updatedAt ← nowISO clock;
stored ← storedBusiness businessId;
match stored with
| Some business =>
    match Business.license business with
    | Some l =>
        let l' :=
          BusinessLicense.mk (BusinessLicense.type l) (BusinessLicense.startDate l)
            (BusinessLicense.endDate l) false (BusinessLicense.assignedBy l)
            (BusinessLicense.assignedAt l) (BusinessLicense.renewalCount l)
            (BusinessLicense.canceledAt l) (BusinessLicense.canceledBy l) in
        putBusiness businessId
          (Business.mk (Business.name business) (Business.ownerId business)
             (Business.businessKey business) updatedAt (Some l') (Some false))
    | None =>
        putBusiness businessId
          (Business.mk (Business.name business) (Business.ownerId business)
             (Business.businessKey business) updatedAt None (Some false)) ;;
        recordStray ["businesses"; businessId; "license"; "isActive"]%string
          (VBool false)
    end
| None =>
    recordStray ["businesses"; businessId; "isActive"]%string (VBool false) ;;
    recordStray ["businesses"; businessId; "license"; "isActive"]%string
      (VBool false) ;;
    recordStray ["businesses"; businessId; "updatedAt"]%string (VString updatedAt)
end.

(** The [forEach] of [checkAllLicenses] over the businesses of the
  snapshot: the businesses for which [blockBusinessForExpiredLicense] is
  called, in the order of the calls.  Each call runs at once up to its
  first [await]. *)
Fixpoint sweepLoop (entries : list (string * Business.t)) : M (list string) :=
match entries with
| [] => mret []
| (businessId, business) :: rest =>
    match Business.license business with
    | Some license =>
        if negb (bool_decide (Business.isActive business = Some false)) then
          expired ← isLicenseExpired clock (Some license);
          if (expired : bool) then
            deactivate businessId ;;
            started ← sweepLoop rest;
            mret (businessId :: started)
          else sweepLoop rest
        else sweepLoop rest
    | None => sweepLoop rest
    end
end.

(** What is left of the calls when the loop has ended: the cascades, in
  the order the calls were started. *)
Fixpoint cascades (started : list string) : M unit :=
match started with
| [] => mret tt
| businessId :: rest =>
    blockBusinessUsers clock businessId "Licencia expirada" ;; cascades rest
end.

(** [checkAllLicenses()] *)
Definition checkAllLicenses : M unit :=
businesses ← getBusinesses;
if bool_decide (businesses = ∅) then mret tt
else
  started ← sweepLoop (map_to_list businesses);
  cascades started.
End Service.

(** [getBusinessLicense(businessId)] *)
Definition getBusinessLicense (businessId : string) : M (option BusinessLicense.t) :=
get (λ w, businesses w !! businessId ≫= Business.license).

(** [getAllBusinessesWithLicenses()]: each business with its id. *)
Definition getAllBusinessesWithLicenses : M (list (string * Business.t)) :=
businesses ← getBusinesses;
if bool_decide (businesses = ∅) then mret []
else mret (map_to_list businesses).

End LicenseSweep.

(** ** [AuthContext], the license state ([contexts/AuthContext.tsx]) *)
Module AuthLicense.
Import Types JsDate Store RealTimeLicense RealTimeBlocking.

(** The state the provider keeps, and the listeners of the license
  service it subscribes to.  The callback the provider registers is the
  closure over the user it was set up for, and is kept as that user. *)
Record Provider := mkProvider {
currentUser : option User.t;
businessAccess : gmap string BusinessAccess.t;
licenseStatus : option LicenseStatus;
licenseCleanup : option Cleanup;
service : Service User.t
}.

(** [s.includes(needle)] *)
Fixpoint includes (needle s : string) : bool :=
String.prefix needle s
|| match s with
   | String _ rest => includes needle rest
   | EmptyString => false
   end.

(** The callback [setupLicenseListener] registers for [user]. *)
Definition licenseCallback (user : User.t) (status : LicenseStatus) (p : Provider)
: Provider :=
let p :=
  mkProvider (currentUser p) (businessAccess p) (Some status) (licenseCleanup p)
    (service p) in
if negb (isValid status) && negb (bool_decide (User.role user = admin))
   && negb (truthy_flag (User.isBlocked user))
then
  mkProvider
    ((λ prev,
        User.mk (User.uid prev) (User.email prev) (User.role prev)
          (User.businessId prev) (User.displayName prev) (User.businessAccess prev)
          (User.currentBusiness prev) (Some true)
          (Some "Licencia expirada o cancelada"%string) (User.updatedAt prev))
     <$> currentUser p)
    (businessAccess p) (licenseStatus p) (licenseCleanup p) (service p)
else p.

(** [setupLicenseListener(user)] *)
Definition setupLicenseListener (user : User.t) (p : Provider) : Provider :=
let p :=
  match licenseCleanup p with
  | Some cleanup =>
      mkProvider (currentUser p) (businessAccess p) (licenseStatus p) None
        (runCleanup User.t cleanup (service p))
  | None => p
  end in
let '(svc, calls, cleanup) := setupUserLicenseListener User.t user user (service p) in
let p :=
  mkProvider (currentUser p) (businessAccess p) (licenseStatus p) (licenseCleanup p)
    svc in
let p := fold_left (λ p call, licenseCallback call.1 call.2 p) calls p in
mkProvider (currentUser p) (businessAccess p) (licenseStatus p) (Some cleanup)
  (service p).

(** The reference [ref(database, `users/${uid}`)]. *)
Definition userRef (uid : string) : Path := splitPath ("users/" ++ uid).

(** [blockedReason?.includes('licencia') || blockedReason?.includes('Licencia')] *)
Definition mentionsLicense (blockedReason : option string) : bool :=
match blockedReason with
| Some reason => includes "licencia" reason || includes "Licencia" reason
| None => false
end.

Section Provider.
Variable tza : Z.
Variable clock : nat → Z.

(** [refreshLicenseStatus()]; [signedIn] tells whether [auth.currentUser]
  is set.  An error is logged, and the state stays as it is. *)
Definition refreshLicenseStatus (signedIn : bool) (p : Provider) : M Provider :=
match currentUser p with
| None => mret p
| Some user =>
    if negb signedIn then mret p
    else
      catch
        (snapshot ← get (λ w, users w !! User.uid user);
         match snapshot with
         | None => mret p
         | Some userData =>
             let updatedUser :=
               User.mk (User.uid user) (User.email user) (User.role userData)
                 (User.businessId userData)
                 (if truthy_string (User.displayName userData)
                  then User.displayName userData else User.displayName user)
                 (Some (default ∅ (User.businessAccess userData)))
                 (User.currentBusiness userData)
                 (Some (truthy_flag (User.isBlocked userData)))
                 (User.blockedReason userData) None in
             shouldBlock ← shouldBlockUser tza clock updatedUser;
             licenseStatus ← checkUserLicenseStatus tza clock updatedUser;
             updatedUser ←
               (if isValid licenseStatus
                   && truthy_flag (User.isBlocked updatedUser)
                   && mentionsLicense (User.blockedReason updatedUser)
                then
                  updatedAt ← nowISO clock;
                  update (userRef (User.uid user))
                    [("isBlocked"%string, VBool false);
                     ("blockedReason"%string, VNull);
                     ("updatedAt"%string, VString updatedAt)] ;;
                  mret (User.mk (User.uid updatedUser) (User.email updatedUser)
                          (User.role updatedUser) (User.businessId updatedUser)
                          (User.displayName updatedUser)
                          (User.businessAccess updatedUser)
                          (User.currentBusiness updatedUser) (Some false) None
                          (User.updatedAt updatedUser))
                else if (shouldBlock : bool)
                        && negb (truthy_flag (User.isBlocked updatedUser))
                then
                  reason ← getBlockingReason tza clock updatedUser;
                  updatedAt ← nowISO clock;
                  update (userRef (User.uid user))
                    [("isBlocked"%string, VBool true);
                     ("blockedReason"%string, VString reason);
                     ("updatedAt"%string, VString updatedAt)] ;;
                  mret (User.mk (User.uid updatedUser) (User.email updatedUser)
                          (User.role updatedUser) (User.businessId updatedUser)
                          (User.displayName updatedUser)
                          (User.businessAccess updatedUser)
                          (User.currentBusiness updatedUser) (Some true)
                          (Some reason) (User.updatedAt updatedUser))
                else mret updatedUser);
             mret (setupLicenseListener updatedUser
                     (mkProvider (Some updatedUser)
                        (default ∅ (User.businessAccess updatedUser))
                        (Some licenseStatus) (licenseCleanup p) (service p)))
         end)
        (λ _, mret p)
end.
End Provider.

End AuthLicense.

(** * Proofs *)

(** ** Running a computation *)

(** Unfolds the monad of [Store] down to the pairs it computes. *)
Ltac run :=
  repeat progress
    (unfold mbind, mret, Store.M_bind, Store.M_ret, Store.throw, Store.catch,
       Store.liftOpt, Store.nowISO, Store.nowMs, Store.get in *;
     cbn beta iota in *).

(** ** Strings as lists of characters *)
Module StringFacts.
Import JsDate.

Lemma append_cons x (a b : string) : (String x a ++ b)%string = String x (a ++ b).
Proof. reflexivity. Qed.

Lemma append_assoc (a b c : string) : ((a ++ b) ++ c = a ++ (b ++ c))%string.
Proof. induction a as [|x a IH]; [done|]. rewrite !append_cons. by f_equal. Qed.

Lemma append_nil_r (a : string) : (a ++ "")%string = a.
Proof. induction a as [|x a IH]; [done|]. rewrite append_cons. by f_equal. Qed.

Lemma chars_of_string_app s t :
chars_of_string (s ++ t)%string = chars_of_string s ++ chars_of_string t.
Proof.
unfold chars_of_string. induction s as [|c s IH]; [done|].
rewrite append_cons. cbn [list_ascii_of_string]. rewrite IH. done.
Qed.

Lemma chars_of_string_inj s t : chars_of_string s = chars_of_string t → s = t.
Proof.
intros E. rewrite <- (string_of_list_ascii_of_string s),
  <- (string_of_list_ascii_of_string t).
unfold chars_of_string in E. by rewrite E.
Qed.

(** The last character of a string. *)
Definition lastChar (s : string) : option ascii := list.last (chars_of_string s).

Lemma lastChar_app s t :
lastChar (s ++ t)%string
= match lastChar t with Some c => Some c | None => lastChar s end.
Proof. unfold lastChar. by rewrite chars_of_string_app, last_app. Qed.

End StringFacts.

(** ** Truthiness and field tests *)
Module TypeFacts.
Import Types.

Lemma truthy_string_true s : truthy_string s = true ↔ s ≠ ""%string.
Proof.
unfold truthy_string. rewrite negb_true_iff. apply String.eqb_neq.
Qed.

Lemma truthy_string_false s : truthy_string s = false ↔ s = ""%string.
Proof.
unfold truthy_string. rewrite negb_false_iff. apply String.eqb_eq.
Qed.

Lemma field_is_true a b : field_is a b = true ↔ a = Some b.
Proof.
unfold field_is. destruct a as [a|]; [|done].
rewrite String.eqb_eq. split; [by intros ->|by intros [= ->]].
Qed.

End TypeFacts.

(** ** The calendar *)
Module Calendar.
Import JsDate.

(** [f] holds on the [n] integers from [z] on. *)
Fixpoint forall_range (n : nat) (z : Z) (f : Z → bool) : bool :=
match n with
| O => true
| S k => if f z then forall_range k (z + 1) f else false
end.

Lemma forall_range_spec n : ∀ z f,
forall_range n z f = true → ∀ i, z <= i < z + Z.of_nat n → f i = true.
Proof.
induction n as [|n IH]; intros z f Hall i Hi; [lia|].
simpl in Hall. destruct (f z) eqn:Hz; [|discriminate].
destruct (Z.eq_dec i z) as [->|Hne]; [done|].
apply (IH (z + 1) f Hall). lia.
Qed.

Definition check_day (doe : Z) : bool :=
let '(y, m, d) := civil_from_days (doe - 719468) in
(days_from_civil y m d =? doe - 719468)
&& (1 <=? m) && (m <=? 12) && (1 <=? d) && (d <=? DaysInMonth y m).

Lemma check_day_era : forall_range (Z.to_nat 146097) 0 check_day = true.
Proof. vm_cast_no_check (eq_refl true). Qed.

Definition eq3 (a b : Z * Z * Z) : bool :=
(a.1.1 =? b.1.1) && (a.1.2 =? b.1.2) && (a.2 =? b.2).

Definition check_date (y : Z) : bool :=
forall_range 12 1 (λ m, forall_range 31 1 (λ d,
  implb (d <=? DaysInMonth y m) (eq3 (civil_from_days (days_from_civil y m d)) (y, m, d)))).

Lemma check_date_era : forall_range 400 0 check_date = true.
Proof. vm_cast_no_check (eq_refl true). Qed.

Lemma days_from_civil_era y m d k :
days_from_civil (y + 400 * k) m d = days_from_civil y m d + 146097 * k.
Proof.
unfold days_from_civil. cbv zeta.
destruct (m <=? 2).
- replace (y + 400 * k - 1) with (y - 1 + k * 400) by lia.
  rewrite Z.div_add by lia.
  replace (y - 1 + k * 400 - ((y - 1) / 400 + k) * 400)
    with (y - 1 - (y - 1) / 400 * 400) by lia.
  lia.
- replace (y + 400 * k) with (y + k * 400) by lia.
  rewrite Z.div_add by lia.
  replace (y + k * 400 - (y / 400 + k) * 400) with (y - y / 400 * 400) by lia.
  lia.
Qed.

Lemma civil_from_days_era z k :
civil_from_days (z + 146097 * k) =
((civil_from_days z).1.1 + 400 * k, (civil_from_days z).1.2, (civil_from_days z).2).
Proof.
unfold civil_from_days. cbv zeta.
replace (z + 146097 * k + 719468) with (z + 719468 + k * 146097) by lia.
rewrite Z.div_add by lia.
replace (z + 719468 + k * 146097 - ((z + 719468) / 146097 + k) * 146097)
  with (z + 719468 - (z + 719468) / 146097 * 146097) by lia.
cbn zeta. simpl fst. simpl snd.
match goal with |- context [if ?b then _ else _] => destruct b end; f_equal; try f_equal; lia.
Qed.

Lemma isLeap_era y : isLeap (y mod 400) = isLeap y.
Proof.
unfold isLeap.
rewrite Z.mod_mod by lia.
replace ((y mod 400) mod 4) with (y mod 4).
2:{ symmetry. apply Z.mod_mod_divide. exists 100; lia. }
replace ((y mod 400) mod 100) with (y mod 100).
2:{ symmetry. apply Z.mod_mod_divide. exists 4; lia. }
reflexivity.
Qed.

Lemma DaysInMonth_era y m : DaysInMonth (y mod 400) m = DaysInMonth y m.
Proof. unfold DaysInMonth. by rewrite isLeap_era. Qed.

(** Every day number is the day number of its civil date, and that date is
  a date of the calendar. *)
Lemma days_from_civil_from_days z :
let '(y, m, d) := civil_from_days z in
days_from_civil y m d = z ∧ 1 <= m <= 12 ∧ 1 <= d <= DaysInMonth y m.
Proof.
set (k := (z + 719468) / 146097).
set (doe := (z + 719468) mod 146097).
assert (Hz : z = doe - 719468 + 146097 * k).
{ unfold doe, k. pose proof (Z.div_mod (z + 719468) 146097). lia. }
assert (Hdoe : 0 <= doe < 0 + Z.of_nat (Z.to_nat 146097)).
{ unfold doe. pose proof (Z.mod_pos_bound (z + 719468) 146097). lia. }
pose proof (forall_range_spec _ _ _ check_day_era doe Hdoe) as Hc.
unfold check_day in Hc.
rewrite Hz, civil_from_days_era.
destruct (civil_from_days (doe - 719468)) as [[y m] d]. cbn [fst snd].
rewrite !andb_true_iff in Hc. destruct Hc as [[[[H1 H2] H3] H4] H5].
rewrite days_from_civil_era.
replace (y + 400 * k) with (y + 400 * k) by lia.
assert (DaysInMonth (y + 400 * k) m = DaysInMonth y m) as ->.
{ rewrite <- (DaysInMonth_era (y + 400 * k)), <- (DaysInMonth_era y).
  f_equal. rewrite Z.mul_comm, Z.mod_add; lia. }
lia.
Qed.

Lemma check_date_spec y m d :
0 <= y < 400 → 1 <= m <= 12 → 1 <= d <= 31 → d <= DaysInMonth y m →
civil_from_days (days_from_civil y m d) = (y, m, d).
Proof.
intros Hy Hm Hd Hdim.
assert (Hy' : 0 <= y < 0 + Z.of_nat 400) by lia.
pose proof (forall_range_spec _ _ _ check_date_era y Hy') as Hc.
assert (Hm' : 1 <= m < 1 + Z.of_nat 12) by lia.
pose proof (forall_range_spec _ _ _ Hc m Hm') as Hc2. clear Hc.
assert (Hd' : 1 <= d < 1 + Z.of_nat 31) by lia.
pose proof (forall_range_spec _ _ _ Hc2 d Hd') as Hc3. clear Hc2.
cbv beta in Hc3.
assert ((d <=? DaysInMonth y m) = true) as Hle by lia.
rewrite Hle in Hc3. cbn [implb] in Hc3.
unfold eq3 in Hc3. rewrite !andb_true_iff in Hc3. destruct Hc3 as [[E1 E2] E3].
destruct (civil_from_days (days_from_civil y m d)) as [[y' m'] d'].
cbn [fst snd] in *. f_equal; [f_equal|]; lia.
Qed.

(** The civil date of the day number of a date of the calendar is that
  date. *)
Lemma civil_from_days_from_civil y m d :
1 <= m <= 12 → 1 <= d <= DaysInMonth y m →
civil_from_days (days_from_civil y m d) = (y, m, d).
Proof.
intros Hm Hd.
set (k := y / 400). set (yoe := y mod 400).
assert (Hy : y = yoe + 400 * k).
{ unfold yoe, k. pose proof (Z.div_mod y 400). lia. }
assert (Hyoe : 0 <= yoe < 400).
{ unfold yoe. pose proof (Z.mod_pos_bound y 400). lia. }
assert (Hd31 : DaysInMonth y m <= 31).
{ unfold DaysInMonth. repeat case_match; lia. }
assert (DaysInMonth yoe m = DaysInMonth y m) as Hdim by apply DaysInMonth_era.
rewrite Hy, days_from_civil_era, civil_from_days_era.
rewrite check_date_spec by lia.
cbn [fst snd]. reflexivity.
Qed.

(** How far a month shift moves the first day of a month: by [k] months,
  [k] up to 12, between 0 and 366 days. *)
Definition check_shift (y : Z) : bool :=
forall_range 12 0 (λ m, forall_range 12 1 (λ k,
  let d := days_from_civil (y + (m + k) / 12) ((m + k) mod 12 + 1) 1
           - days_from_civil y (m + 1) 1 in
  (28 * k <=? d) && (d <=? 31 * k))).

Lemma check_shift_era : forall_range 400 0 check_shift = true.
Proof. vm_cast_no_check (eq_refl true). Qed.

Lemma month_shift_bounds y m k :
0 <= m <= 11 → 1 <= k <= 12 →
28 * k <= MakeDay y (m + k) 1 - MakeDay y m 1 <= 31 * k.
Proof.
intros Hm Hk. unfold MakeDay. cbv zeta.
rewrite (Z.div_small m 12), (Z.mod_small m 12), Z.add_0_r by lia.
set (q := y / 400). set (yoe := y mod 400).
assert (Hy : y = yoe + 400 * q).
{ unfold yoe, q. pose proof (Z.div_mod y 400). lia. }
assert (Hyoe : 0 <= yoe < 0 + Z.of_nat 400).
{ unfold yoe. pose proof (Z.mod_pos_bound y 400). lia. }
pose proof (forall_range_spec _ _ _ check_shift_era yoe Hyoe) as Hc.
unfold check_shift in Hc.
assert (Hm' : 0 <= m < 0 + Z.of_nat 12) by lia.
pose proof (forall_range_spec _ _ _ Hc m Hm') as Hc2. clear Hc.
assert (Hk' : 1 <= k < 1 + Z.of_nat 12) by lia.
pose proof (forall_range_spec _ _ _ Hc2 k Hk') as Hc3. clear Hc2.
cbv beta zeta in Hc3. apply andb_true_iff in Hc3 as [H1 H2].
rewrite Hy.
replace (yoe + 400 * q + (m + k) / 12) with (yoe + (m + k) / 12 + 400 * q) by lia.
rewrite !days_from_civil_era. lia.
Qed.


Lemma msPerDay_pos : 0 < msPerDay.
Proof. done. Qed.

Lemma time_decompose t : t = MakeDate (Day t) (TimeWithinDay t).
Proof.
unfold MakeDate, Day, TimeWithinDay.
pose proof (Z.div_mod t msPerDay). pose proof msPerDay_pos. lia.
Qed.

Lemma TimeWithinDay_range t : 0 <= TimeWithinDay t < msPerDay.
Proof. apply Z.mod_pos_bound, msPerDay_pos. Qed.

Lemma Day_MakeDate day tod : 0 <= tod < msPerDay → Day (MakeDate day tod) = day.
Proof.
intros H. unfold Day, MakeDate.
rewrite Z.add_comm, Z.div_add by done. rewrite Z.div_small by done. lia.
Qed.

Lemma TimeWithinDay_MakeDate day tod :
0 <= tod < msPerDay → TimeWithinDay (MakeDate day tod) = tod.
Proof.
intros H. unfold TimeWithinDay, MakeDate.
rewrite Z.add_comm, Z.mod_add by done. by apply Z.mod_small.
Qed.

(** The fields of a time value are a date of the calendar, and [MakeDay]
  of them is its day. *)
Lemma fields_range t :
0 <= MonthFromTime t <= 11
∧ 1 <= DateFromTime t <= DaysInMonth (YearFromTime t) (MonthFromTime t + 1).
Proof.
unfold MonthFromTime, DateFromTime, YearFromTime.
pose proof (days_from_civil_from_days (Day t)) as H.
destruct (civil_from_days (Day t)) as [[y m] d]. cbn [fst snd].
replace (m - 1 + 1) with m by lia. lia.
Qed.

Lemma days_from_civil_date y m d d' :
days_from_civil y m d' = days_from_civil y m d + (d' - d).
Proof. unfold days_from_civil. cbv zeta. destruct (m <=? 2); lia. Qed.

Lemma MakeDay_date y m d d' : MakeDay y m d' = MakeDay y m d + (d' - d).
Proof. unfold MakeDay. lia. Qed.

Lemma MakeDay_civil y m d :
0 <= m <= 11 → MakeDay y m d = days_from_civil y (m + 1) d.
Proof.
intros Hm. unfold MakeDay. cbv zeta.
rewrite (Z.div_small m 12), (Z.mod_small m 12), Z.add_0_r by lia.
rewrite (days_from_civil_date _ _ 1 d). lia.
Qed.

Lemma MakeDay_fields t :
MakeDay (YearFromTime t) (MonthFromTime t) (DateFromTime t) = Day t.
Proof.
pose proof (fields_range t) as [Hm _].
rewrite MakeDay_civil by done.
unfold MonthFromTime, DateFromTime, YearFromTime in *.
pose proof (days_from_civil_from_days (Day t)) as H.
destruct (civil_from_days (Day t)) as [[y m] d]. cbn [fst snd] in *.
replace (m - 1 + 1) with m by lia. lia.
Qed.

Lemma MakeDay_year y m d : MakeDay (y + 1) m d = MakeDay y (m + 12) d.
Proof.
unfold MakeDay. cbv zeta.
replace (m + 12) with (m + 1 * 12) by lia.
rewrite Z.div_add, Z.mod_add by lia. f_equal. f_equal. f_equal. lia.
Qed.

Lemma DaysInMonth_min y m : 28 <= DaysInMonth y m.
Proof. unfold DaysInMonth. repeat case_match; lia. Qed.

(** [MakeDay] normalises the month: up to day 28 the date it names is in
  the month [m] counted on from January of [y]. *)
Lemma civil_from_MakeDay y m d :
1 <= d <= 28 →
civil_from_days (MakeDay y m d) = (y + m / 12, m mod 12 + 1, d).
Proof.
intros Hd. unfold MakeDay. cbv zeta.
pose proof (Z.mod_pos_bound m 12).
replace (days_from_civil (y + m / 12) (m mod 12 + 1) 1 + d - 1)
  with (days_from_civil (y + m / 12) (m mod 12 + 1) d)
  by (rewrite (days_from_civil_date _ _ 1 d); lia).
apply civil_from_days_from_civil; [lia|].
pose proof (DaysInMonth_min (y + m / 12) (m mod 12 + 1)). lia.
Qed.

End Calendar.

(** ** The license state evaluator *)
Module LicenseStateProofs.
Import Types JsDate Store.

(** The end date of a license lies strictly before [now]. *)
Definition endedBefore (now : Z) (l : BusinessLicense.t) : Prop :=
∃ e, Date_parse (BusinessLicense.endDate l) = Some e ∧ e < now.

Lemma date_gt_iff now s :
date_gt (Some now) (Date_parse s) = true ↔ ∃ e, Date_parse s = Some e ∧ e < now.
Proof.
unfold date_gt. destruct (Date_parse s) as [e|].
- rewrite Z.ltb_lt. split; [eauto|]. by intros (e' & [= <-] & ?).
- split; [done|]. by intros (? & ? & _).
Qed.

(** C2.  [isLicenseExpired], in both services, returns true exactly when
  the license is null, or its [isActive] is false, or the time the call
  reads from the clock lies strictly after its [endDate]; it returns
  false otherwise, and it never throws. *)
Theorem isLicenseExpired_iff clock (license : option BusinessLicense.t) (w : World) :
∃ expired w',
  LicenseService.isLicenseExpired clock license w = (inr expired, w')
  ∧ RealTimeLicense.isLicenseExpired clock license w = (inr expired, w')
  ∧ (expired = true ↔
       license = None
       ∨ ∃ l, license = Some l
              ∧ (BusinessLicense.isActive l = false
                 ∨ endedBefore (clock (ticks w)) l)).
Proof.
unfold LicenseService.isLicenseExpired, RealTimeLicense.isLicenseExpired.
destruct license as [l|]; [|eexists _, _; run; split_and!; [done..|]; naive_solver].
destruct (BusinessLicense.isActive l) eqn:Hact; cbn [negb]; run.
- eexists _, _. split_and!; [done..|].
  rewrite date_gt_iff. unfold endedBefore. split.
  + intros H. right. exists l. eauto.
  + intros [?|(l' & [= <-] & [?|?])]; [done|congruence|done].
- eexists _, _. split_and!; [done..|]. split; [|done].
  intros _. right. exists l. eauto.
Qed.

End LicenseStateProofs.

(** ** The access gate *)
Module AccessGateProofs.
Import Types Store RealTimeLicense LicenseGuard.

Lemma includes_readOnly section :
includes readOnlySections section = true
↔ section = "dashboard"%string ∨ section = "notifications"%string.
Proof.
unfold includes, readOnlySections. cbn [existsb].
rewrite !orb_true_iff, !String.eqb_eq. intuition congruence.
Qed.

(** C4.  [canAccessSection] for a signed-in user: an administrator reaches
  every section; a blocked user reaches [notifications] and nothing
  else; a user who is not blocked and whose license status is not valid
  reaches [dashboard] and [notifications] and nothing else; every other
  user reaches every section. *)
Theorem canAccessSection_cases (user : User.t) (status : option LicenseStatus)
  (section : string) :
(User.role user = admin → canAccessSection (Some user) status section = true)
∧ (User.role user ≠ admin → User.isBlocked user = Some true →
     (canAccessSection (Some user) status section = true
      ↔ section = "notifications"%string))
∧ (User.role user ≠ admin → truthy_flag (User.isBlocked user) = false →
     ∀ st, status = Some st → isValid st = false →
     (canAccessSection (Some user) status section = true
      ↔ section = "dashboard"%string ∨ section = "notifications"%string))
∧ (User.role user ≠ admin → truthy_flag (User.isBlocked user) = false →
     (status = None ∨ ∃ st, status = Some st ∧ isValid st = true) →
     canAccessSection (Some user) status section = true).
Proof.
unfold canAccessSection. split_and!.
- intros ->. done.
- intros Hrole Hblk. rewrite bool_decide_false by done.
  rewrite Hblk. cbn. apply String.eqb_eq.
- intros Hrole Hblk st -> Hval. rewrite bool_decide_false by done.
  rewrite Hblk, Hval. cbn [negb]. apply includes_readOnly.
- intros Hrole Hblk Hst. rewrite bool_decide_false by done. rewrite Hblk.
  destruct Hst as [->|(st & -> & ->)]; done.
Qed.

Definition blockedAssistant : User.t :=
User.mk "u2" "ana@example.com" assistant None "Ana" None (Some "b1"%string)
  (Some true) (Some "Licencia expirada"%string) None.

Lemma canAccessSection_cases_witness :
canAccessSection (Some blockedAssistant) None "notifications" = true
∧ canAccessSection (Some blockedAssistant) None "dashboard" ≠ true.
Proof.
split.
- apply (proj1 (proj2 (canAccessSection_cases blockedAssistant None "notifications")));
    [discriminate | reflexivity | reflexivity].
- intros H.
  apply (proj1 (proj2 (canAccessSection_cases blockedAssistant None "dashboard")))
    in H; [discriminate | discriminate | reflexivity].
Defined.

(** C10.  For an administrator [checkUserLicenseStatus] returns, and
  [setupUserLicenseListener] passes to the callback, once, the fixed
  status [{isValid: true, isExpired: false, isExpiringSoon: false,
  daysRemaining: 999, license: null, businessId: null}]: no business is
  read, the clock is not read, no listener is registered and the cleanup
  function does nothing. *)
Theorem admin_license_status tza clock (user : User.t) :
User.role user = admin →
(∀ w, checkUserLicenseStatus tza clock user w
      = (inr (mkStatus true false false (Some 999) None None), w))
∧ (∀ (Callback : Type) (callback : Callback) (svc : Service Callback),
     setupUserLicenseListener Callback user callback svc
     = (svc, [(callback, mkStatus true false false (Some 999) None None)], NoOp)).
Proof.
intros Hrole. split.
- intros w. unfold checkUserLicenseStatus. rewrite Hrole. done.
- intros Callback callback svc. unfold setupUserLicenseListener.
  rewrite Hrole. done.
Qed.

Definition platformAdmin : User.t :=
User.mk "a0" "admin@example.com" admin None "Admin" None None None None None.

Lemma admin_license_status_witness :
User.role platformAdmin = admin
∧ checkUserLicenseStatus 0 (λ _, 0) platformAdmin (mkWorld ∅ ∅ ∅ [] false 0 0)
  = (inr (mkStatus true false false (Some 999) None None),
     mkWorld ∅ ∅ ∅ [] false 0 0).
Proof.
split; [reflexivity|].
apply (proj1 (admin_license_status 0 (λ _, 0) platformAdmin eq_refl)).
Defined.

End AccessGateProofs.

(** ** The appointment conflict checker *)
Module ConflictProofs.
Import Types AppointmentModal TypeFacts.

(** The four fields of the form the check needs are filled in. *)
Definition complete (f : FormData) : Prop :=
serviceId f ≠ ""%string ∧ date f ≠ ""%string
∧ startTime f ≠ ""%string ∧ endTime f ≠ ""%string.

(** The service the form selects: the first of the list with its id. *)
Definition serviceOf (f : FormData) (services : list Service.t) : option Service.t :=
List.find (λ s, String.eqb (Service.id s) (serviceId f)) services.

(** [apt] is not the appointment being edited. *)
Definition other (edited : option Appointment.t) (apt : Appointment.t) : Prop :=
∀ e, edited = Some e → Appointment.id apt ≠ Appointment.id e.

Section Generic.
Context `{HostNumber}.

(** In minutes from midnight: existingStart < candidateEnd and
    existingEnd > candidateStart. *)
Definition overlaps (f : FormData) (apt : Appointment.t) : Prop :=
  lt (timeToMinutes (Appointment.startTime apt)) (timeToMinutes (endTime f)) = true
  ∧ lt (timeToMinutes (startTime f)) (timeToMinutes (Appointment.endTime apt)) = true.

Definition conflicting (f : FormData) (edited : option Appointment.t)
    (apt : Appointment.t) : Prop :=
  other edited apt
  ∧ Appointment.serviceId apt = serviceId f
  ∧ Appointment.date apt = date f
  ∧ Appointment.status apt ≠ cancelled
  ∧ overlaps f apt.


Lemma complete_dec f :
  negb (truthy_string (serviceId f)) || negb (truthy_string (date f))
  || negb (truthy_string (startTime f)) || negb (truthy_string (endTime f)) = false
  ↔ complete f.
Proof.
  unfold complete. rewrite !orb_false_iff, !negb_false_iff, !truthy_string_true.
  tauto.
Qed.

Lemma other_dec edited apt :
  match edited with
  | Some e => String.eqb (Appointment.id apt) (Appointment.id e)
  | None => false
  end = false ↔ other edited apt.
Proof.
  unfold other. destruct edited as [e|].
  - rewrite String.eqb_neq. split; [by intros ? ? [= <-]|eauto].
  - split; [by intros|done].
Qed.

(** The appointments the check returns. *)
Lemma checkTimeConflicts_In f services appointments edited apt :
  In apt (checkTimeConflicts f services appointments edited)
  ↔ complete f
    ∧ (∃ svc, serviceOf f services = Some svc ∧ Service.resources svc <= 1)
    ∧ In apt appointments ∧ conflicting f edited apt.
Proof.
  unfold checkTimeConflicts, serviceOf.
  destruct (_ || _ || _ || _) eqn:Hc.
  { split; [done|]. intros (Hf & _). apply complete_dec in Hf. congruence. }
  apply complete_dec in Hc.
  destruct (List.find _ services) as [svc|]; [|by split; [|intros (_ & (? & ? & _) & _)]].
  destruct (1 <? Service.resources svc) eqn:Hres.
  { apply Z.ltb_lt in Hres. split; [done|].
    intros (_ & (svc' & [= <-] & ?) & _). lia. }
  apply Z.ltb_ge in Hres.
  rewrite filter_In. unfold conflicting, overlaps.
  destruct (match edited with Some _ => _ | None => _ end) eqn:He.
  { split; [by intros [_ ?]|]. intros (_ & _ & _ & Ho & _).
    apply other_dec in Ho. congruence. }
  apply other_dec in He.
  destruct (String.eqb_spec (Appointment.serviceId apt) (serviceId f)) as [Hs|Hs];
    cbn [negb orb]; [|by split; [intros [_ ?]|intros (_ & _ & _ & _ & ? & _)]].
  destruct (String.eqb_spec (Appointment.date apt) (date f)) as [Hd|Hd];
    cbn [negb]; [|by split; [intros [_ ?]|intros (_ & _ & _ & _ & _ & ? & _)]].
  destruct (decide (Appointment.status apt = cancelled)) as [Hst|Hst].
  { rewrite bool_decide_true by done.
    split; [by intros [_ ?]|]. by intros (_ & _ & _ & _ & _ & _ & ? & _). }
  rewrite bool_decide_false by done.
  rewrite andb_true_iff. split.
  - intros (Hin & H1 & H2). split_and!; eauto.
  - intros (_ & _ & Hin & _ & _ & _ & _ & H1 & H2). done.
Qed.



(** C7.  While an appointment is edited, the check never returns an
    appointment with its id: the result is that of checking against the
    list without it, and the appointment, saved again with its own date
    and times, is not reported against itself. *)
Theorem editing_excludes_itself f services appointments (edited : Appointment.t) :
  (∀ apt, In apt (checkTimeConflicts f services appointments (Some edited)) →
          Appointment.id apt ≠ Appointment.id edited)
  ∧ checkTimeConflicts f services appointments (Some edited)
    = checkTimeConflicts f services
        (List.filter
           (λ apt, negb (String.eqb (Appointment.id apt) (Appointment.id edited)))
           appointments)
        None
  ∧ ¬ In edited
        (checkTimeConflicts (loadForm edited) services appointments (Some edited)).
Proof.
  assert (Hex : ∀ g apt, In apt (checkTimeConflicts g services appointments (Some edited)) →
                   Appointment.id apt ≠ Appointment.id edited).
  { intros g apt Hin. apply checkTimeConflicts_In in Hin.
    destruct Hin as (_ & _ & _ & Ho & _). by apply Ho. }
  split_and!.
  - apply Hex.
  - unfold checkTimeConflicts.
    destruct (_ || _ || _ || _); [done|].
    destruct (List.find _ services) as [svc|]; [|done].
    destruct (1 <? Service.resources svc); [done|].
    induction appointments as [|a l IH]; [done|].
    cbn [List.filter].
    destruct (String.eqb (Appointment.id a) (Appointment.id edited)) eqn:E;
      cbn [negb].
    + apply IH. intros g apt Hin. apply (Hex g apt).
      apply checkTimeConflicts_In in Hin. apply checkTimeConflicts_In.
      destruct Hin as (? & ? & ? & ?). split_and!; [done..| by right |done].
    + cbn [List.filter]. rewrite IH; [done|].
      intros g apt Hin. apply (Hex g apt).
      apply checkTimeConflicts_In in Hin. apply checkTimeConflicts_In.
      destruct Hin as (? & ? & ? & ?). split_and!; [done..| by right |done].
  - intros Hin. by apply Hex in Hin.
Qed.
End Generic.

(** *** On times of the form HH:MM *)

Definition cut : Service.t := Service.mk "s1" "Corte" 60 "hair" 1 (Some true) "b1".

Definition booked (date : string) : Appointment.t :=
Appointment.mk "a1" "c1" "s1" date "10:00" "11:00" confirmed None "u1" "b1".


Lemma editing_excludes_itself_witness :
¬ In (booked "2024-03-04")
    (checkTimeConflicts (loadForm (booked "2024-03-04")) [cut]
       [booked "2024-03-04"] (Some (booked "2024-03-04"))).
Proof.
apply (proj2 (proj2 (editing_excludes_itself (loadForm (booked "2024-03-04"))
                       [cut] [booked "2024-03-04"] (booked "2024-03-04")))).
Defined.



End ConflictProofs.

(** ** Writes *)
Module StoreProofs.
Import Types JsDate Store.

(** What a write never touches. *)
Definition sameButUsers (w w' : World) : Prop :=
businesses w' = businesses w ∧ digitalRecords w' = digitalRecords w
∧ online w' = online w ∧ ticks w' = ticks w ∧ draws w' = draws w.

Lemma writeAt_frame p v w :
∃ w', writeAt p v w = (inr tt, w') ∧ sameButUsers w w'.
Proof.
unfold writeAt, putUser, recordStray, sameButUsers.
repeat case_match; eexists; (split; [reflexivity|done]).
Qed.

Lemma update_frame ref values : ∀ w,
∃ w', update ref values w = (inr tt, w') ∧ sameButUsers w w'.
Proof.
induction values as [|[key v] rest IH]; intros w.
- exists w. by split.
- cbn [update]. run.
  destruct (writeAt_frame (childPath ref key) v w) as (w1 & -> & H1).
  destruct (IH w1) as (w2 & -> & H2).
  exists w2. split; [done|]. unfold sameButUsers in *.
  destruct H1 as (? & ? & ? & ? & ?), H2 as (? & ? & ? & ? & ?).
  split_and!; congruence.
Qed.

End StoreProofs.

(** ** The block and unblock cascades *)
Module CascadeProofs.
Import Types JsDate Store LicenseService StringFacts TypeFacts.

(** A user is associated with a business: its [businessId] is the
  business, or its [businessAccess] has an entry for it, or it is an
  owner whose [currentBusiness] is the business. *)
Definition associated (businessId : string) (user : User.t) : Prop :=
User.businessId user = Some businessId
∨ (∃ access entry, User.businessAccess user = Some access
                   ∧ access !! businessId = Some entry)
∨ (User.role user = owner ∧ User.currentBusiness user = Some businessId).

Lemma hasAccess_true (access : option (gmap string BusinessAccess.t)) b :
match access with
| Some access => bool_decide (is_Some (access !! b))
| None => false
end = true
↔ ∃ m entry, access = Some m ∧ m !! b = Some entry.
Proof.
destruct access as [m|].
- rewrite bool_decide_eq_true. split.
  + intros [e He]. eauto.
  + intros (m' & e & [= <-] & He). eauto.
- split; [done|]. by intros (? & ? & ? & _).
Qed.

Lemma shouldBlock_iff b user : shouldBlock b user = true ↔ associated b user.
Proof.
unfold shouldBlock, associated. cbv zeta.
pose proof (field_is_true (User.businessId user) b) as H1.
pose proof (hasAccess_true (User.businessAccess user) b) as H2.
pose proof (field_is_true (User.currentBusiness user) b) as H3.
pose proof (bool_decide_eq_true (User.role user = owner)) as H4.
destruct (field_is (User.businessId user) b),
  (match User.businessAccess user with Some _ => _ | None => _ end),
  (bool_decide (User.role user = owner)),
  (field_is (User.currentBusiness user) b); cbn [andb];
  intuition (try discriminate).
Qed.

Lemma shouldUnblock_iff b user :
shouldUnblock b user = true
↔ truthy_flag (User.isBlocked user) = true ∧ associated b user.
Proof.
rewrite <- shouldBlock_iff. unfold shouldUnblock, shouldBlock. cbv zeta.
destruct (truthy_flag (User.isBlocked user)); intuition congruence.
Qed.

(** *** The keys of the updates *)

Lemma userKey_inj u1 u2 field : userKey u1 field = userKey u2 field → u1 = u2.
Proof.
unfold userKey. intros E. apply (f_equal chars_of_string) in E.
rewrite !chars_of_string_app in E.
apply app_inv_head, app_inv_tail in E. by apply chars_of_string_inj.
Qed.

Lemma userKey_last u field c :
lastChar field = Some c → lastChar (userKey u field) = Some c.
Proof. intros E. unfold userKey. by rewrite !lastChar_app, E. Qed.

Lemma userKey_isBlocked_ne_reason u1 u2 :
userKey u1 "isBlocked" ≠ userKey u2 "blockedReason".
Proof.
intros E. apply (f_equal lastChar) in E.
by rewrite (userKey_last _ _ "d"), (userKey_last _ _ "n") in E.
Qed.

Lemma userKey_isBlocked_ne_updatedAt u1 u2 :
userKey u1 "isBlocked" ≠ userKey u2 "updatedAt".
Proof.
intros E. apply (f_equal lastChar) in E.
by rewrite (userKey_last _ _ "d"), (userKey_last _ _ "t") in E.
Qed.


(** *** The loop *)

(** The loop never throws; it reads the clock once per selected user and
  changes nothing else. *)
Lemma collectUpdates_runs clock select flag reason entries : ∀ w,
∃ updates,
  collectUpdates clock select flag reason entries w
  = (inr updates,
     mkWorld (businesses w) (users w) (digitalRecords w) (stray w) (online w)
       (ticks w + List.length (List.filter (λ e, select e.2) entries))%nat
       (draws w)).
Proof.
induction entries as [|[uid u] rest IH]; intros w.
- exists []. cbn. unfold mret, M_ret. destruct w. cbn. do 2 f_equal. lia.
- cbn [collectUpdates List.filter snd]. destruct (select u).
  + run. destruct (IH (mkWorld (businesses w) (users w) (digitalRecords w)
                         (stray w) (online w) (S (ticks w)) (draws w)))
      as [more Hmore].
    rewrite Hmore. eexists. cbn. do 2 f_equal. lia.
  + apply IH.
Qed.

(** The updates the loop returns from a world. *)
Definition updatesOf (r : (Err + list (string * Value)) * World)
: list (string * Value) :=
match r.1 with inr updates => updates | inl _ => [] end.

Lemma collectUpdates_isBlocked clock select flag reason entries : ∀ w uid v,
In (userKey uid "isBlocked", v)
   (updatesOf (collectUpdates clock select flag reason entries w))
↔ v = flag ∧ ∃ u, In (uid, u) entries ∧ select u = true.
Proof.
induction entries as [|[uid' u'] rest IH]; intros w uid v.
- cbn. split; [done|]. by intros (_ & ? & [] & _).
- cbn [collectUpdates]. destruct (select u') eqn:Hsel.
  + run.
    set (w1 := mkWorld _ _ _ _ _ _ _).
    destruct (collectUpdates_runs clock select flag reason rest w1) as [more Hmore].
    specialize (IH w1 uid v). rewrite Hmore in IH |- *.
    unfold updatesOf in IH |- *. cbn [fst] in IH |- *. cbn [In]. rewrite IH.
    split.
    * intros [E|[E|[E|(-> & u & Hin & Hu)]]].
      -- apply pair_equal_spec in E as [E <-]. apply userKey_inj in E as ->.
         split; [done|]. exists u'. split; [by left|done].
      -- apply pair_equal_spec in E as [E _]. symmetry in E.
         by apply userKey_isBlocked_ne_reason in E.
      -- apply pair_equal_spec in E as [E _]. symmetry in E.
         by apply userKey_isBlocked_ne_updatedAt in E.
      -- split; [done|]. exists u. split; [by right|done].
    * intros (-> & u & [[= -> ->]|Hin] & Hu); [by left|].
      do 3 right. eauto.
  + rewrite IH. split.
    * intros (-> & u & Hin & Hu). split; [done|]. exists u. split; [by right|done].
    * intros (-> & u & [[= -> ->]|Hin] & Hu); [congruence|]. eauto.
Qed.














End CascadeProofs.

(** ** The license lifecycle *)
Module LifecycleProofs.
Import Types JsDate Store LicenseService StoreProofs.

Lemma collectUpdates_frame clock select flag reason entries : ∀ w,
∃ updates w',
  collectUpdates clock select flag reason entries w = (inr updates, w')
  ∧ businesses w' = businesses w ∧ users w' = users w
  ∧ digitalRecords w' = digitalRecords w ∧ stray w' = stray w
  ∧ online w' = online w ∧ draws w' = draws w.
Proof.
induction entries as [|[uid u] rest IH]; intros w.
- exists [], w. done.
- cbn [collectUpdates]. destruct (select u); [|apply IH].
  run. set (w1 := mkWorld _ _ _ _ _ _ _).
  destruct (IH w1) as (more & w2 & -> & H). eexists _, w2. done.
Qed.

(** A cascade on a reachable store ends normally and leaves the businesses
  as they are. *)
Lemma cascade_frame clock select flag reason w :
online w = true →
∃ w',
  (users ← getUsers;
   if bool_decide (users = ∅) then mret tt
   else
     updates ← collectUpdates clock select flag reason (map_to_list users);
     if (0 <? Z.of_nat (List.length updates)) then update usersRef updates
     else mret tt) w = (inr tt, w')
  ∧ businesses w' = businesses w ∧ online w' = true
  ∧ digitalRecords w' = digitalRecords w ∧ draws w' = draws w.
Proof.
intros Hon. unfold getUsers. run. rewrite Hon.
destruct (bool_decide (users w = ∅)); [by exists w|].
destruct (collectUpdates_frame clock select flag reason (map_to_list (users w)) w)
  as (updates & w1 & -> & Hb & _ & Hd & _ & Ho & Hdr).
destruct (0 <? Z.of_nat (List.length updates)).
- destruct (update_frame usersRef updates w1) as (w2 & -> & H2).
  exists w2. destruct H2 as (? & ? & ? & _ & ?).
  split_and!; congruence.
- exists w1. split_and!; congruence.
Qed.

Lemma unblockBusinessUsers_frame clock b w :
online w = true →
∃ w', unblockBusinessUsers clock b w = (inr tt, w')
      ∧ businesses w' = businesses w ∧ online w' = true
      ∧ digitalRecords w' = digitalRecords w ∧ draws w' = draws w.
Proof. apply cascade_frame. Qed.

Lemma blockBusinessUsers_frame clock b reason w :
online w = true →
∃ w', blockBusinessUsers clock b reason w = (inr tt, w')
      ∧ businesses w' = businesses w ∧ online w' = true
      ∧ digitalRecords w' = digitalRecords w ∧ draws w' = draws w.
Proof. apply cascade_frame. Qed.

(** The license of a stored business, and its renewal count, an absent
  license counting as 0. *)
Definition licenseOf (w : World) (businessId : string) : option BusinessLicense.t :=
businesses w !! businessId ≫= Business.license.

Definition renewalCountOf (w : World) (businessId : string) : Z :=
match licenseOf w businessId with
| Some l => BusinessLicense.renewalCount l
| None => 0
end.

(** The clock shows times whose end dates can be printed. *)
Definition representable (tza : Z) (clock : nat → Z) : Prop :=
∀ i ty, is_Some (calculateEndDate tza (isoOfTime (clock i)) ty).

Lemma orZero_renewalCount (license : option BusinessLicense.t) :
orZero (BusinessLicense.renewalCount <$> license)
= match license with Some l => BusinessLicense.renewalCount l | None => 0 end.
Proof.
destruct license as [l|]; [|done]. cbn.
destruct (Z.eqb_spec (BusinessLicense.renewalCount l) 0); congruence.
Qed.

Lemma assignLicense_runs tza clock b ty adm w business :
online w = true → businesses w !! b = Some business →
representable tza clock →
∃ w' l,
  assignLicense tza clock b ty adm w = (inr tt, w')
  ∧ online w' = true
  ∧ (∃ business', businesses w' !! b = Some business'
                  ∧ Business.license business' = Some l
                  ∧ Business.isActive business' = Some true)
  ∧ (∀ b', b' ≠ b → businesses w' !! b' = businesses w !! b')
  ∧ BusinessLicense.isActive l = true
  ∧ BusinessLicense.type l = ty
  ∧ BusinessLicense.assignedBy l = adm
  ∧ BusinessLicense.startDate l = isoOfTime (clock (ticks w))
  ∧ Some (BusinessLicense.endDate l)
    = calculateEndDate tza (isoOfTime (clock (ticks w))) ty
  ∧ BusinessLicense.renewalCount l = renewalCountOf w b + 1.
Proof.
intros Hon Hb Hrep.
destruct (Hrep (ticks w) ty) as [endDate Hend].
unfold assignLicense, getBusiness, putBusiness. run.
rewrite Hend. cbn [online businesses ticks]. rewrite Hon, Hb.
set (w1 := mkWorld (<[b := _]> _) _ _ _ _ _ _).
assert (Hon1 : online w1 = true) by (subst w1; cbn; congruence).
destruct (unblockBusinessUsers_frame clock b w1 Hon1)
  as (w2 & -> & Hbus & Hon2 & _).
eexists w2, _. split; [reflexivity|]. split; [done|].
rewrite Hbus. subst w1. cbn [businesses].
split; [eexists; split; [apply lookup_insert_eq|done]|].
split; [intros b' Hne; by apply lookup_insert_ne|].
cbn. split_and!; try done.
rewrite orZero_renewalCount. unfold renewalCountOf, licenseOf. by rewrite Hb.
Qed.

Lemma cancelLicense_runs clock b adm w business l :
online w = true → businesses w !! b = Some business →
Business.license business = Some l →
∃ w' l',
  cancelLicense clock b adm w = (inr tt, w')
  ∧ online w' = true
  ∧ (∃ business', businesses w' !! b = Some business'
                  ∧ Business.license business' = Some l'
                  ∧ Business.isActive business' = Some false)
  ∧ (∀ b', b' ≠ b → businesses w' !! b' = businesses w !! b')
  ∧ BusinessLicense.isActive l' = false
  ∧ BusinessLicense.renewalCount l' = BusinessLicense.renewalCount l
  ∧ BusinessLicense.type l' = BusinessLicense.type l
  ∧ BusinessLicense.startDate l' = BusinessLicense.startDate l
  ∧ BusinessLicense.endDate l' = isoOfTime (clock (S (ticks w)))
  ∧ BusinessLicense.canceledBy l' = Some adm.
Proof.
intros Hon Hb Hl.
unfold cancelLicense, getBusiness, putBusiness. run.
rewrite Hon, Hb, Hl. cbn [online businesses ticks].
set (w1 := mkWorld (<[b := _]> _) _ _ _ _ _ _).
assert (Hon1 : online w1 = true) by (subst w1; cbn; congruence).
destruct (blockBusinessUsers_frame clock b
            "Licencia cancelada por administrador" w1 Hon1)
  as (w2 & -> & Hbus & Hon2 & _).
eexists w2, _. split; [reflexivity|]. split; [done|].
rewrite Hbus. subst w1. cbn [businesses].
split; [eexists; split; [apply lookup_insert_eq|done]|].
split; [intros b' Hne; by apply lookup_insert_ne|].
cbn. done.
Qed.

(** C5.  On a reachable store and a stored business, [assignLicense]
  ends normally and stores a license whose [renewalCount] is one more
  than the one of the license before, an absent license counting as 0;
  a second call adds one again; [cancelLicense], on a business that has
  a license, leaves [renewalCount] as it is. *)
Theorem renewalCount_steps tza clock b ty adm w business :
online w = true → businesses w !! b = Some business →
representable tza clock →
(∃ w1, assignLicense tza clock b ty adm w = (inr tt, w1)
       ∧ renewalCountOf w1 b = renewalCountOf w b + 1
       ∧ ∀ ty' adm', ∃ w2,
           assignLicense tza clock b ty' adm' w1 = (inr tt, w2)
           ∧ renewalCountOf w2 b = renewalCountOf w b + 2)
∧ (is_Some (Business.license business) →
   ∃ w1, cancelLicense clock b adm w = (inr tt, w1)
         ∧ is_Some (licenseOf w1 b)
         ∧ renewalCountOf w1 b = renewalCountOf w b).
Proof.
intros Hon Hb Hrep. split.
- destruct (assignLicense_runs tza clock b ty adm w business Hon Hb Hrep)
    as (w1 & l1 & Hrun1 & Hon1 & (b1 & Hb1 & Hl1 & _) & _ & _ & _ & _ & _ & _ & Hc1).
  assert (Hcount1 : renewalCountOf w1 b = renewalCountOf w b + 1).
  { unfold renewalCountOf at 1, licenseOf. rewrite Hb1. cbn. by rewrite Hl1. }
  exists w1. split_and!; [done..|].
  intros ty' adm'.
  destruct (assignLicense_runs tza clock b ty' adm' w1 b1 Hon1 Hb1 Hrep)
    as (w2 & l2 & Hrun2 & _ & (b2 & Hb2 & Hl2 & _) & _ & _ & _ & _ & _ & _ & Hc2).
  exists w2. split; [done|].
  unfold renewalCountOf at 1, licenseOf. rewrite Hb2. cbn. rewrite Hl2. lia.
- intros [l Hl].
  destruct (cancelLicense_runs clock b adm w business l Hon Hb Hl)
    as (w1 & l' & Hrun & _ & (b1 & Hb1 & Hl1 & _) & _ & _ & Hc & _).
  exists w1. split; [done|].
  unfold renewalCountOf, licenseOf. rewrite Hb1, Hb. cbn. rewrite Hl1, Hl.
  split; [by eexists|done].
Qed.

Definition salon : Business.t :=
Business.mk "Salon" "u1" "ABCDEF0123456789" "2024-01-01T00:00:00.000Z" None None.

Definition mondayNoon (_ : nat) : Z := 1705320000000.

Lemma mondayNoon_representable : representable 0 mondayNoon.
Proof. intros i ty. destruct ty; vm_compute; by eexists. Defined.

Lemma renewalCount_steps_witness :
∃ w1, assignLicense 0 mondayNoon "b1" L1month "a0"
        (mkWorld {[ "b1"%string := salon ]} ∅ ∅ [] true 0 0) = (inr tt, w1)
      ∧ renewalCountOf w1 "b1" = 1.
Proof.
assert (Hb : businesses (mkWorld {[ "b1"%string := salon ]} ∅ ∅ [] true 0 0)
             !! "b1"%string = Some salon) by (vm_compute; reflexivity).
destruct (renewalCount_steps 0 mondayNoon "b1" L1month "a0"
            (mkWorld {[ "b1"%string := salon ]} ∅ ∅ [] true 0 0) salon
            eq_refl Hb mondayNoon_representable)
  as [(w1 & Hrun & Hcount & _) _].
exists w1. split; [exact Hrun|exact Hcount].
Defined.

End LifecycleProofs.

(** ** End dates *)
Module EndDateProofs.
Import Types JsDate Store LicenseService Calendar.

(** *** The calendar arithmetic of the specification *)

(** The fields after the addition: 15 to the day, 1, 3 or 6 to the month,
  1 to the year. *)
Definition addFields (ty : LicenseType) (y m d : Z) : Z * Z * Z :=
match ty with
| L15days => (y, m, d + 15)
| L1month => (y, m + 1, d)
| L3months => (y, m + 3, d)
| L6months => (y, m + 6, d)
| L1year => (y + 1, m, d)
end.

(** The day [MakeDay] gives to the fields after the addition. *)
Definition endDay (ty : LicenseType) (lt : Z) : Z :=
let '(y, m, d) :=
  addFields ty (YearFromTime lt) (MonthFromTime lt) (DateFromTime lt) in
MakeDay y m d.

Section Zone.
Variable tza : Z.

Lemma calculateEndDate_formula s t ty :
  Date_parse s = Some t →
  calculateEndDate tza s ty
  = toISOString
      (TimeClip (UTC tza (MakeDate (endDay ty (LocalTime tza t))
                            (TimeWithinDay (LocalTime tza t))))).
Proof.
  intros Hs. unfold calculateEndDate. rewrite Hs.
  unfold endDay, setDate, setMonth, setFullYear, getDate, getMonth, getFullYear.
  destruct ty; cbn [mbind option_bind fmap option_fmap option_map addFields];
    reflexivity.
Qed.

(** The end day lies between 15 and 372 days after the start day. *)
Lemma endDay_months y m d k :
  0 <= m <= 11 → 1 <= k <= 12 →
  28 * k <= MakeDay y (m + k) d - MakeDay y m d <= 31 * k.
Proof.
  intros Hm Hk. pose proof (month_shift_bounds y m k Hm Hk) as Hs.
  rewrite (MakeDay_date y (m + k) 1 d), (MakeDay_date y m 1 d). lia.
Qed.

Lemma endDay_bounds ty lt : 15 <= endDay ty lt - Day lt <= 372.
Proof.
  unfold endDay. pose proof (fields_range lt) as [Hm _].
  pose proof (MakeDay_fields lt) as Hday.
  set (y := YearFromTime lt) in *. set (m := MonthFromTime lt) in *.
  set (d := DateFromTime lt) in *.
  destruct ty; cbn [addFields].
  - rewrite (MakeDay_date y m d (d + 15)). lia.
  - pose proof (endDay_months y m d 1 Hm). lia.
  - pose proof (endDay_months y m d 3 Hm). lia.
  - pose proof (endDay_months y m d 6 Hm). lia.
  - rewrite MakeDay_year. pose proof (endDay_months y m d 12 Hm). lia.
Qed.

Lemma shifted_time ty t :
  UTC tza (MakeDate (endDay ty (LocalTime tza t)) (TimeWithinDay (LocalTime tza t)))
  = t + (endDay ty (LocalTime tza t) - Day (LocalTime tza t)) * msPerDay.
Proof.
  pose proof (time_decompose (LocalTime tza t)) as Hd.
  unfold UTC, LocalTime, MakeDate in *. lia.
Qed.

(** The end date of a start date that parses, away from the end of the
    representable time. *)
Lemma calculateEndDate_runs s t ty :
  Date_parse s = Some t → Z.abs t <= maxTime - 372 * msPerDay →
  ∃ t', calculateEndDate tza s ty = Some (isoOfTime t')
        ∧ t' = t + (endDay ty (LocalTime tza t) - Day (LocalTime tza t)) * msPerDay
        ∧ Day (LocalTime tza t') = endDay ty (LocalTime tza t)
        ∧ TimeWithinDay (LocalTime tza t') = TimeWithinDay (LocalTime tza t).
Proof.
  intros Hs Ht. rewrite (calculateEndDate_formula s t ty Hs).
  pose proof (endDay_bounds ty (LocalTime tza t)) as Hb.
  pose proof (shifted_time ty t) as Hsh.
  pose proof (TimeWithinDay_range (LocalTime tza t)) as Hr.
  set (t' := UTC tza _) in *.
  assert (Hclip : TimeClip t' = Some t').
  { unfold TimeClip. rewrite (proj2 (Z.leb_le _ _)); [done|].
    unfold maxTime, msPerDay in *. lia. }
  rewrite Hclip. exists t'. split; [done|]. split; [done|].
  assert (Hlt : LocalTime tza t'
                = MakeDate (endDay ty (LocalTime tza t))
                    (TimeWithinDay (LocalTime tza t))).
  { subst t'. unfold UTC, LocalTime. lia. }
  rewrite Hlt. split.
  - by apply Day_MakeDate.
  - by apply TimeWithinDay_MakeDate.
Qed.
End Zone.


(** A license that starts on 2024-01-15 (UTC), in a zone within 14 hours of
  UTC, ends 31 days later to the millisecond: on 2024-02-15. *)
Lemma one_month_from_mid_january tza s t :
Date_parse s = Some t → Day t = 19737 → Z.abs tza <= 14 * 3600000 →
calculateEndDate tza s L1month = Some (isoOfTime (t + 31 * msPerDay)).
Proof.
intros Hs Hday Htz.
assert (Ht : 19737 * msPerDay <= t < 19738 * msPerDay).
{ pose proof (time_decompose t) as Hd. pose proof (TimeWithinDay_range t).
  rewrite Hday in Hd. unfold MakeDate in Hd. lia. }
destruct (calculateEndDate_runs tza s t L1month Hs) as (t' & -> & -> & _).
{ unfold maxTime, msPerDay in *. lia. }
do 3 f_equal.
assert (Hl : Day (LocalTime tza t) = 19736 ∨ Day (LocalTime tza t) = 19737
             ∨ Day (LocalTime tza t) = 19738).
{ pose proof (time_decompose (LocalTime tza t)) as Hd.
  pose proof (TimeWithinDay_range (LocalTime tza t)).
  unfold MakeDate, LocalTime, msPerDay in *. lia. }
unfold endDay, YearFromTime, MonthFromTime, DateFromTime.
destruct Hl as [->|[->| ->]]; reflexivity.
Qed.

(** C6.  [calculateEndDate] adds to the fields of the local date: for a
  start date that parses (not within 372 days of the last representable
  time) it returns the date whose local day is [MakeDay] of the fields
  after the addition - 15 to the day, 1, 3 or 6 to the month, 1 to the
  year - at the same time of the day; when the day after the addition is
  at most 28, these are the fields of the end date, with the months
  carried into the year.  A month is not a fixed duration: from
  2024-01-15 it ends on 2024-02-15, 31 days later, from 2024-02-15 on
  2024-03-15, 29 days later. *)
Theorem calculateEndDate_calendar :
(∀ tza s t ty,
   Date_parse s = Some t → Z.abs t <= maxTime - 372 * msPerDay →
   let lt := LocalTime tza t in
   let '(y, m, d) :=
     addFields ty (YearFromTime lt) (MonthFromTime lt) (DateFromTime lt) in
   ∃ t', calculateEndDate tza s ty = Some (isoOfTime t')
         ∧ Day (LocalTime tza t') = MakeDay y m d
         ∧ TimeWithinDay (LocalTime tza t') = TimeWithinDay lt
         ∧ (d <= 28 →
            YearFromTime (LocalTime tza t') = y + m / 12
            ∧ MonthFromTime (LocalTime tza t') = m mod 12
            ∧ DateFromTime (LocalTime tza t') = d))
∧ (∀ tza, Z.abs tza <= 14 * 3600000 →
     calculateEndDate tza "2024-01-15T00:00:00.000Z" L1month
     = Some "2024-02-15T00:00:00.000Z"%string)
∧ calculateEndDate 0 "2024-02-15T00:00:00.000Z" L1month
  = Some "2024-03-15T00:00:00.000Z"%string.
Proof.
split_and!.
- intros tza s t ty Hs Ht lt.
  destruct (calculateEndDate_runs tza s t ty Hs Ht) as (t' & Hrun & _ & Hday & Htod).
  pose proof (fields_range lt) as [_ Hd1].
  unfold endDay in Hday. fold lt in Hday, Htod.
  destruct (addFields ty (YearFromTime lt) (MonthFromTime lt) (DateFromTime lt))
    as [[y m] d] eqn:Hfields.
  exists t'. split_and!; [done..|].
  intros Hd.
  assert (1 <= d) as Hd0.
  { destruct ty; cbn [addFields] in Hfields; injection Hfields as <- <- <-; lia. }
  unfold YearFromTime, MonthFromTime, DateFromTime. rewrite Hday.
  rewrite civil_from_MakeDay by lia. cbn [fst snd]. split_and!; [done|lia|done].
- intros tza Htz.
  by apply (one_month_from_mid_january tza _ 1705276800000).
- reflexivity.
Qed.

Lemma calculateEndDate_calendar_witness :
∃ t', calculateEndDate (-21600000) "2024-11-20T15:30:00.000Z" L3months
      = Some (isoOfTime t')
      ∧ YearFromTime (LocalTime (-21600000) t') = 2025
      ∧ MonthFromTime (LocalTime (-21600000) t') = 1
      ∧ DateFromTime (LocalTime (-21600000) t') = 20.
Proof.
destruct (proj1 calculateEndDate_calendar (-21600000)
            "2024-11-20T15:30:00.000Z"%string 1732116600000 L3months)
  as (t' & Hrun & _ & _ & Hfields).
- reflexivity.
- unfold maxTime, msPerDay. cbn. lia.
- exists t'. split; [exact Hrun|]. apply Hfields. by vm_compute.
Defined.

End EndDateProofs.


(** ** Business keys *)
Module KeyProofs.
Import Types JsDate Store BusinessKey StringFacts.

(** The world after [n] more draws. *)
Definition advance (w : World) (n : nat) : World :=
mkWorld (businesses w) (users w) (digitalRecords w) (stray w) (online w)
  (ticks w) (draws w + n).

Lemma advance_0 w : advance w 0 = w.
Proof. destruct w. unfold advance. cbn. f_equal. lia. Qed.

Lemma advance_advance w n m : advance (advance w n) m = advance w (n + m).
Proof. unfold advance. cbn. f_equal. lia. Qed.

(** No stored business has the key, and the store answers. *)
Definition uniqueKey (w : World) (key : string) : Prop :=
online w = true
∧ ∀ id business, businesses w !! id = Some business →
                 Business.businessKey business ≠ key.

Lemma scanKeys_true key entries :
scanKeys key entries = true
↔ ∀ id business, In (id, business) entries → Business.businessKey business ≠ key.
Proof.
induction entries as [|[id b] rest IH]; [by split|].
cbn [scanKeys]. destruct (String.eqb_spec (Business.businessKey b) key) as [E|E].
- split; [done|]. intros H. exfalso. apply (H id b); [by left|done].
- rewrite IH. split.
  + intros H id' b' [[= <- <-]|Hin]; eauto.
  + intros H id' b' Hin. apply (H id' b'). by right.
Qed.


#[global] Instance uniqueKey_dec w key : Decision (uniqueKey w key).
Proof.
unfold uniqueKey.
destruct (online w); [|right; by intros [? _]].
destruct (scanKeys key (map_to_list (businesses w))) eqn:E.
- left. split; [done|]. intros id b Hb.
  apply (proj1 (scanKeys_true key _) E id b).
  by apply list_elem_of_In, elem_of_map_to_list.
- right. intros [_ H]. apply not_true_iff_false in E. apply E.
  apply scanKeys_true. intros id b Hin. apply (H id b).
  by apply elem_of_map_to_list, list_elem_of_In.
Defined.

Section Keys.
Variable random : nat → Z.

(** The character the draw number [d] selects. *)
Definition drawnChar (d : nat) : string :=
  charAt chars (random d mod 2 ^ 53 * Z.of_nat (String.length chars) / 2 ^ 53).

(** The [n] characters drawn from draw number [d] on. *)
Fixpoint drawn (d n : nat) : string :=
  match n with
  | O => ""%string
  | S n' => (drawnChar d ++ drawn (S d) n')%string
  end.

(** A key of 16 characters of the alphabet 0-9A-F. *)
Definition hexKey (key : string) : Prop :=
  String.length key = 16%nat
  ∧ ∀ c, In c (chars_of_string key) → In c (chars_of_string "0123456789ABCDEF").

Lemma drawnChar_hex d :
  ∃ c, drawnChar d = String c EmptyString
       ∧ In c (chars_of_string "0123456789ABCDEF").
Proof.
  unfold drawnChar.
  set (i := random d mod 2 ^ 53 * Z.of_nat (String.length chars) / 2 ^ 53).
  assert (Hi : 0 <= i < 16).
  { subst i. pose proof (Z.mod_pos_bound (random d) (2 ^ 53)) as Hm.
    change (Z.of_nat (String.length chars)) with 16.
    split.
    - apply Z.div_pos; lia.
    - apply Z.div_lt_upper_bound; lia. }
  assert (Hcases : i = 0 ∨ i = 1 ∨ i = 2 ∨ i = 3 ∨ i = 4 ∨ i = 5 ∨ i = 6 ∨ i = 7
                   ∨ i = 8 ∨ i = 9 ∨ i = 10 ∨ i = 11 ∨ i = 12 ∨ i = 13
                   ∨ i = 14 ∨ i = 15) by lia.
  clearbody i.
  repeat (destruct Hcases as [->|Hcases]; [eexists; split; [reflexivity|cbn; tauto]|]).
  subst i. eexists; split; [reflexivity|cbn; tauto].
Qed.

Lemma drawn_length d n : String.length (drawn d n) = n.
Proof.
  revert d. induction n as [|n IH]; intros d; [done|].
  cbn [drawn]. destruct (drawnChar_hex d) as (c & -> & _).
  rewrite append_cons. cbn [String.length]. f_equal. apply IH.
Qed.

Lemma drawn_hex d n c :
  In c (chars_of_string (drawn d n)) → In c (chars_of_string "0123456789ABCDEF").
Proof.
  revert d. induction n as [|n IH]; intros d; [done|].
  cbn [drawn]. destruct (drawnChar_hex d) as (c' & -> & Hc').
  rewrite append_cons. cbn [chars_of_string list_ascii_of_string].
  intros [<-|Hin]; [done|]. by apply (IH (S d)).
Qed.

Lemma drawn_hexKey d : hexKey (drawn d 16).
Proof. split; [apply drawn_length|apply drawn_hex]. Qed.

Lemma keyLoop_runs n : ∀ result w,
  keyLoop random n result w
  = (inr (result ++ drawn (draws w) n)%string, advance w n).
Proof.
  induction n as [|n IH]; intros result w.
  - cbn. unfold mret, M_ret. by rewrite append_nil_r, advance_0.
  - cbn [keyLoop drawn]. unfold mathRandom. run. rewrite IH.
    cbn [draws]. rewrite append_assoc. f_equal.
    unfold advance. cbn. f_equal. lia.
Qed.

Lemma generateBusinessKey_runs w :
  generateBusinessKey random w = (inr (drawn (draws w) 16), advance w 16).
Proof. unfold generateBusinessKey. by rewrite keyLoop_runs. Qed.

Lemma isBusinessKeyUnique_runs key w :
  ∃ isUnique, isBusinessKeyUnique key w = (inr isUnique, w)
              ∧ (isUnique = true ↔ uniqueKey w key).
Proof.
  unfold isBusinessKeyUnique, getBusinesses, uniqueKey. run.
  destruct (online w) eqn:Hon; [|exists false; split; [done|]; split; [done|by intros [? _]]].
  destruct (decide (businesses w = ∅)) as [He|Hne].
  - rewrite bool_decide_true by done. exists true. split; [done|].
    split; [|done]. intros _. split; [done|]. intros id b. by rewrite He.
  - rewrite bool_decide_false by done. eexists. split; [done|].
    rewrite scanKeys_true. split.
    + intros H. split; [done|]. intros id b Hb. apply (H id b).
      by apply list_elem_of_In, elem_of_map_to_list.
    + intros [_ H] id b Hin. apply (H id b).
      by apply elem_of_map_to_list, list_elem_of_In.
Qed.

Lemma uniqueKey_advance w n key : uniqueKey (advance w n) key ↔ uniqueKey w key.
Proof. done. Qed.

(** The key of the attempt number [i], counted from 0. *)
Definition keyAt (w : World) (i : nat) : string := drawn (draws w + 16 * i) 16.

Lemma keyAt_advance w i : keyAt (advance w 16) i = keyAt w (S i).
Proof. unfold keyAt, advance. cbn [draws]. f_equal. lia. Qed.

(** One turn of the loop. *)
Lemma attemptLoop_turn fuel attempts w :
  attemptLoop random (S fuel) attempts w
  = match decide (uniqueKey w (keyAt w 0)) with
    | left _ => (inr (Some (keyAt w 0, true)), advance w 16)
    | right _ =>
        if attempts + 1 <? maxAttempts
        then attemptLoop random fuel (attempts + 1) (advance w 16)
        else (inr (Some (keyAt w 0, false)), advance w 16)
    end.
Proof.
  cbn [attemptLoop]. run. rewrite generateBusinessKey_runs.
  assert (keyAt w 0 = drawn (draws w) 16) as <-.
  { unfold keyAt. f_equal. lia. }
  destruct (isBusinessKeyUnique_runs (keyAt w 0) (advance w 16))
    as (isUnique & -> & Hu).
  rewrite uniqueKey_advance in Hu.
  destruct (decide (uniqueKey w (keyAt w 0))) as [Hk|Hk].
  - apply Hu in Hk as ->. done.
  - destruct isUnique; [by destruct Hk; apply Hu|].
    cbn [negb andb]. by destruct (attempts + 1 <? maxAttempts).
Qed.

(** The loop stops at the first attempt whose key is unique. *)
Lemma attemptLoop_first i : ∀ fuel attempts w,
  (i < fuel)%nat → attempts + Z.of_nat i < maxAttempts →
  uniqueKey w (keyAt w i) →
  (∀ j, (j < i)%nat → ¬ uniqueKey w (keyAt w j)) →
  attemptLoop random fuel attempts w
  = (inr (Some (keyAt w i, true)), advance w (16 * S i)).
Proof.
  induction i as [|i IH]; intros fuel attempts w Hfuel Hatt Hu Hbefore;
    (destruct fuel as [|fuel]; [lia|]); rewrite attemptLoop_turn.
  - by rewrite decide_True.
  - rewrite decide_False by (apply Hbefore; lia).
    rewrite (proj2 (Z.ltb_lt _ _)) by lia.
    rewrite (IH fuel (attempts + 1) (advance w 16)).
    + rewrite keyAt_advance, advance_advance. do 2 f_equal. lia.
    + lia.
    + lia.
    + by rewrite keyAt_advance, uniqueKey_advance.
    + intros j Hj. rewrite keyAt_advance, uniqueKey_advance.
      apply Hbefore. lia.
Qed.

(** After [n] further attempts without a unique key the loop has made
    [maxAttempts] attempts and stops. *)
Lemma attemptLoop_exhausted n : ∀ fuel attempts w,
  (n < fuel)%nat → attempts + Z.of_nat n + 1 = maxAttempts →
  (∀ j, (j <= n)%nat → ¬ uniqueKey w (keyAt w j)) →
  attemptLoop random fuel attempts w
  = (inr (Some (keyAt w n, false)), advance w (16 * S n)).
Proof.
  induction n as [|n IH]; intros fuel attempts w Hfuel Hatt Hnone;
    (destruct fuel as [|fuel]; [lia|]); rewrite attemptLoop_turn;
    rewrite decide_False by (apply Hnone; lia).
  - by rewrite (proj2 (Z.ltb_ge _ _)) by lia.
  - rewrite (proj2 (Z.ltb_lt _ _)) by lia.
    rewrite (IH fuel (attempts + 1) (advance w 16)).
    + rewrite keyAt_advance, advance_advance. do 2 f_equal. lia.
    + lia.
    + lia.
    + intros j Hj. rewrite keyAt_advance, uniqueKey_advance.
      apply Hnone. lia.
Qed.

(** Among the first [n] attempts either none has a unique key or there
    is a first one that has. *)
Lemma first_unique w n :
  (∀ j, (j < n)%nat → ¬ uniqueKey w (keyAt w j))
  ∨ ∃ i, (i < n)%nat ∧ uniqueKey w (keyAt w i)
         ∧ ∀ j, (j < i)%nat → ¬ uniqueKey w (keyAt w j).
Proof.
  induction n as [|n [IH|IH]].
  - left. intros j Hj. lia.
  - destruct (decide (uniqueKey w (keyAt w n))) as [Hu|Hu].
    + right. exists n. split_and!; [lia|done|done].
    + left. intros j Hj. destruct (decide (j = n)) as [->|Hne]; [done|].
      apply IH. lia.
  - right. destruct IH as (i & Hi & Hu & Hb). exists i. split_and!; [lia|done..].
Qed.

(** C8.  [generateUniqueBusinessKey], its loop given fuel for 10
    iterations or more: every key it generates has 16 characters of the
    alphabet 0-9A-F; it returns the key of the first of at most 10
    attempts that no stored business has, after that attempt; it throws
    when the keys of 10 attempts in a row are all taken (or the store
    does not answer), after exactly 10 attempts; hence a key it returns
    is of that form and is the key of no stored business, and the loop
    never needs more iterations. *)
Theorem generateUniqueBusinessKey_spec (fuel : nat) (w : World) :
  (10 <= fuel)%nat →
  (∀ i, hexKey (keyAt w i))
  ∧ (∀ i, (i < 10)%nat → uniqueKey w (keyAt w i) →
          (∀ j, (j < i)%nat → ¬ uniqueKey w (keyAt w j)) →
          generateUniqueBusinessKey random fuel w
          = (inr (Some (keyAt w i)), advance w (16 * S i)))
  ∧ ((∀ j, (j < 10)%nat → ¬ uniqueKey w (keyAt w j)) →
       generateUniqueBusinessKey random fuel w
       = (inl KeyExhausted, advance w 160))
  ∧ (∀ key w', generateUniqueBusinessKey random fuel w = (inr (Some key), w') →
               hexKey key ∧ uniqueKey w key)
  ∧ (∀ w', generateUniqueBusinessKey random fuel w ≠ (inr None, w')).
Proof.
  intros Hfuel.
  assert (Hfirst : ∀ i, (i < 10)%nat → uniqueKey w (keyAt w i) →
            (∀ j, (j < i)%nat → ¬ uniqueKey w (keyAt w j)) →
            generateUniqueBusinessKey random fuel w
            = (inr (Some (keyAt w i)), advance w (16 * S i))).
  { intros i Hi Hu Hb. unfold generateUniqueBusinessKey. run.
    rewrite (attemptLoop_first i fuel 0 w); [done|lia| |done|done].
    unfold maxAttempts. lia. }
  assert (Hnone : (∀ j, (j < 10)%nat → ¬ uniqueKey w (keyAt w j)) →
            generateUniqueBusinessKey random fuel w
            = (inl KeyExhausted, advance w 160)).
  { intros Hn. unfold generateUniqueBusinessKey. run.
    rewrite (attemptLoop_exhausted 9 fuel 0 w); [done|lia|done|].
    intros j Hj. apply Hn. lia. }
  split_and!; [intros i; apply drawn_hexKey|done|done| |].
  - intros key w' Hrun.
    destruct (first_unique w 10) as [Hn|(i & Hi & Hu & Hb)].
    + rewrite (Hnone Hn) in Hrun. discriminate.
    + rewrite (Hfirst i Hi Hu Hb) in Hrun. injection Hrun as <- _.
      split; [apply drawn_hexKey|done].
  - intros w' Hrun.
    destruct (first_unique w 10) as [Hn|(i & Hi & Hu & Hb)].
    + rewrite (Hnone Hn) in Hrun. discriminate.
    + rewrite (Hfirst i Hi Hu Hb) in Hrun. discriminate.
Qed.
End Keys.

(** A source whose draws run through the alphabet. *)
Definition cycling (n : nat) : Z := Z.of_nat n * 2 ^ 49.

Lemma generateUniqueBusinessKey_spec_witness :
generateUniqueBusinessKey cycling 10 (mkWorld ∅ ∅ ∅ [] true 0 0)
= (inr (Some "0123456789ABCDEF"%string), mkWorld ∅ ∅ ∅ [] true 0 16).
Proof.
apply (proj1 (proj2 (generateUniqueBusinessKey_spec cycling 10
                       (mkWorld ∅ ∅ ∅ [] true 0 0) (le_n 10))) 0%nat).
- lia.
- split; [reflexivity|]. intros id business Hb.
  cbn [businesses] in Hb. by rewrite lookup_empty in Hb.
- intros j Hj. lia.
Defined.

End KeyProofs.

(** ** Digital records *)
Module RecordProofs.
Import Types Store AuthContext TypeFacts.

(** The stored record [businesses/<businessId>/digitalRecords/<recordId>]. *)
Definition recordAt (w : World) (businessId recordId : string)
: option DigitalRecord.t :=
digitalRecords w !! businessId ≫= (λ rs, rs !! recordId).

(** The caller passes [validateRecordAccess]: its [businessId] is the
  business or the session holds a [businessAccess] entry for it. *)
Definition hasAccess (s : Session) (user : User.t) (businessId : string) : Prop :=
User.businessId user = Some businessId ∨ is_Some (businessAccess s !! businessId).

(** The caller is an owner, or an assistant whose [businessId] is the
  business. *)
Definition mayDeleteOthers (user : User.t) (businessId : string) : Prop :=
User.role user = owner
∨ (User.businessId user = Some businessId ∧ User.role user = assistant).

Lemma hasAccess_dec s user b :
field_is (User.businessId user) b || bool_decide (is_Some (businessAccess s !! b))
= true ↔ hasAccess s user b.
Proof.
unfold hasAccess. by rewrite orb_true_iff, field_is_true, bool_decide_eq_true.
Qed.

Lemma mayDeleteOthers_dec user b :
bool_decide (User.role user = owner)
|| (field_is (User.businessId user) b && bool_decide (User.role user = assistant))
= true ↔ mayDeleteOthers user b.
Proof.
unfold mayDeleteOthers.
by rewrite orb_true_iff, andb_true_iff, field_is_true, !bool_decide_eq_true.
Qed.

Lemma validateRecordAccess_runs s user b w :
currentUser s = Some user →
validateRecordAccess s b w
= if decide (hasAccess s user b) then (inr true, w) else (inl NoAccess, w).
Proof.
intros Hu. unfold validateRecordAccess. rewrite Hu.
destruct (decide (hasAccess s user b)) as [H|H].
- apply hasAccess_dec in H. by rewrite H.
- rewrite <- hasAccess_dec in H. apply not_true_is_false in H. by rewrite H.
Qed.

(** The world after the record is removed. *)
Definition without (w : World) (businessId recordId : string) : World :=
mkWorld (businesses w) (users w)
  (alter (delete recordId) businessId (digitalRecords w))
  (stray w) (online w) (ticks w) (draws w).

(** What [deleteClientRecord] does with a stored record, for a signed-in
  caller on a reachable store. *)
Lemma deleteClientRecord_runs s user b rid w r :
currentUser s = Some user → online w = true →
recordAt w b rid = Some r → rid ≠ ""%string →
deleteClientRecord s b rid w
= if decide (hasAccess s user b) then
    if decide (DigitalRecord.createdBy r ≠ ""%string
               ∧ DigitalRecord.createdBy r ≠ User.uid user
               ∧ ¬ mayDeleteOthers user b)
    then (inl NoDeletePermission, w)
    else (inr tt, without w b rid)
  else (inl NoAccess, w).
Proof.
intros Hu Hon Hr Hrid. unfold deleteClientRecord, getRecord, removeRecord.
unfold recordAt in Hr.
run. rewrite (validateRecordAccess_runs s user b w Hu).
destruct (decide (hasAccess s user b)) as [Ha|Ha]; [|done].
rewrite (proj2 (truthy_string_true rid)) by done. cbn [negb].
rewrite Hon, Hr, Hu. cbn [fmap option_fmap option_map].
destruct (decide (_ ∧ _ ∧ _)) as [(Hc1 & Hc2 & Hc3)|Hn].
- rewrite (proj2 (truthy_string_true _)) by done.
  assert (field_is (Some (User.uid user)) (DigitalRecord.createdBy r) = false) as ->.
  { apply not_true_is_false. rewrite field_is_true. intros [= E]. congruence. }
  cbn [negb andb].
  rewrite <- mayDeleteOthers_dec in Hc3. apply not_true_is_false in Hc3.
  by rewrite Hc3.
- destruct (truthy_string (DigitalRecord.createdBy r)) eqn:Ht; [|done].
  destruct (field_is (Some (User.uid user)) (DigitalRecord.createdBy r)) eqn:Hf;
    [done|].
  cbn [negb andb].
  destruct (bool_decide _ || _) eqn:Hm; [done|].
  destruct Hn. split_and!.
  + by apply truthy_string_true.
  + intros E. apply not_true_iff_false in Hf. apply Hf.
    apply field_is_true. by rewrite E.
  + rewrite <- mayDeleteOthers_dec. by rewrite Hm.
Qed.









End RecordProofs.

Open Scope Z_scope.

(** ** Date strings read back *)
Module DateStringProofs.
Import Types JsDate Store Calendar.

Lemma digit_cases n :
0 <= n < 10 →
n = 0 ∨ n = 1 ∨ n = 2 ∨ n = 3 ∨ n = 4 ∨ n = 5 ∨ n = 6 ∨ n = 7 ∨ n = 8 ∨ n = 9.
Proof. lia. Qed.

Lemma digitValue_digitChar n : digitValue (digitChar n) = Some (n mod 10).
Proof.
unfold digitChar. pose proof (Z.mod_pos_bound n 10 eq_refl) as H.
destruct (digit_cases _ H) as [E|[E|[E|[E|[E|[E|[E|[E|[E|E]]]]]]]]];
  rewrite E; reflexivity.
Qed.

Lemma digitChar_plain n :
Ascii.eqb (digitChar n) "+" = false ∧ Ascii.eqb (digitChar n) "-" = false.
Proof.
unfold digitChar. pose proof (Z.mod_pos_bound n 10 eq_refl) as H.
destruct (digit_cases _ H) as [E|[E|[E|[E|[E|[E|[E|[E|[E|E]]]]]]]]];
  rewrite E; split; reflexivity.
Qed.

Lemma chars_of_string_of_chars cs : chars_of_string (string_of_chars cs) = cs.
Proof. apply list_ascii_of_string_of_list_ascii. Qed.

Lemma pad_app w : ∀ n rest, pad w n rest = pad w n [] ++ rest.
Proof.
induction w as [|w IH]; intros n rest; [done|].
cbn [pad]. rewrite (IH _ (_ :: rest)), (IH _ [_]), <- app_assoc. done.
Qed.

Lemma digits_more k : ∀ acc cs v c r,
digits k acc cs = Some (v, c :: r) →
digits (S k) acc cs = d ← digitValue c; Some (10 * v + d, r).
Proof.
induction k as [|k IH]; intros acc cs v c r H.
- cbn in H. injection H as -> ->. cbn [digits].
  by destruct (digitValue c).
- cbn [digits] in H. destruct cs as [|c' cs]; [done|].
  change (digits (S (S k)) acc (c' :: cs))
    with (v ← digitValue c'; digits (S k) (10 * acc + v) cs).
  destruct (digitValue c') as [v'|]; [|done]. cbn [mbind option_bind] in *.
  by apply IH.
Qed.

(** The digits printed by [pad] are read back by [digits]. *)
Lemma digits_pad k : ∀ n acc rest,
digits k acc (pad k n [] ++ rest) = Some (acc * 10 ^ Z.of_nat k + n mod 10 ^ Z.of_nat k, rest).
Proof.
induction k as [|k IH]; intros n acc rest.
- cbn [pad digits app]. rewrite Z.mod_1_r. do 2 f_equal. cbn. lia.
- cbn [pad]. rewrite (pad_app k), <- app_assoc. cbn [app].
  rewrite (digits_more k acc _ _ _ _ (IH (n / 10) acc (digitChar n :: rest))).
  rewrite digitValue_digitChar. cbn [mbind option_bind].
  rewrite Nat2Z.inj_succ, Z.pow_succ_r by lia.
  rewrite (Z.rem_mul_r n 10 (10 ^ Z.of_nat k)) by lia.
  f_equal. f_equal. lia.
Qed.

Lemma digits_pad_small k n rest :
0 <= n < 10 ^ Z.of_nat k → digits k 0 (pad k n rest) = Some (n, rest).
Proof.
intros Hn. rewrite pad_app, digits_pad, Z.mod_small by done. done.
Qed.

Lemma digits_pad2 n rest :
0 <= n < 100 → digits 2 0 (pad 2 n rest) = Some (n, rest).
Proof. apply (digits_pad_small 2). Qed.

Lemma digits_pad3 n rest :
0 <= n < 1000 → digits 3 0 (pad 3 n rest) = Some (n, rest).
Proof. apply (digits_pad_small 3). Qed.

Lemma digits_pad4 n rest :
0 <= n < 10000 → digits 4 0 (pad 4 n rest) = Some (n, rest).
Proof. apply (digits_pad_small 4). Qed.

Lemma digits_pad6 n rest :
0 <= n < 1000000 → digits 6 0 (pad 6 n rest) = Some (n, rest).
Proof. apply (digits_pad_small 6). Qed.

(** The year as [toISOString] prints it. *)
Definition yearChars (y : Z) : list ascii :=
if (0 <=? y) && (y <=? 9999) then pad 4 y []
else (if y <? 0 then "-"%char else "+"%char) :: pad 6 (Z.abs y) [].

Lemma parseYear_yearChars y rest :
Z.abs y < 1000000 → parseYear (yearChars y ++ rest) = Some (y, rest).
Proof.
intros Hy. unfold yearChars.
destruct ((0 <=? y) && (y <=? 9999)) eqn:E.
- apply andb_true_iff in E as [E1 E2]. apply Z.leb_le in E1, E2.
  rewrite <- pad_app. cbn [pad parseYear].
  destruct (digitChar_plain (y / 10 / 10 / 10)) as [-> ->].
  change (digits 4 0 (pad 4 y rest) = Some (y, rest)).
  apply digits_pad4. lia.
- destruct (Z.ltb_spec y 0) as [Hneg|Hpos].
  + cbn [app parseYear]. change (Ascii.eqb "-" "+") with false.
    change (Ascii.eqb "-" "-") with true. cbn iota.
    rewrite <- pad_app, digits_pad6 by lia. cbn [mbind option_bind].
    destruct (Z.eqb_spec (Z.abs y) 0); [lia|]. do 2 f_equal. lia.
  + cbn [app parseYear]. change (Ascii.eqb "+" "+") with true. cbn iota.
    rewrite <- pad_app, digits_pad6 by lia. do 2 f_equal. lia.
Qed.

Lemma expect_head c rest : expect c (c :: rest) = Some rest.
Proof. unfold expect. by rewrite Ascii.eqb_refl. Qed.

(** The years of the representable times have at most six digits. *)
Lemma year_bound t : Z.abs t <= maxTime → Z.abs (YearFromTime t) < 1000000.
Proof.
intros Ht. unfold YearFromTime, civil_from_days. cbv zeta. cbn [fst snd].
assert (Hd : -100000000 <= Day t <= 100000000).
{ unfold Day, maxTime, msPerDay in *. apply Z.abs_le in Ht. split.
  - apply Z.div_le_lower_bound; lia.
  - apply Z.div_le_upper_bound; lia. }
set (z := Day t + 719468) in *.
set (era := z / 146097).
set (doe := z - era * 146097).
assert (Hdoe : 0 <= doe <= 146096)
  by (subst doe era; Z.div_mod_to_equations; lia).
assert (Hera : -690 <= era <= 690)
  by (subst era z; Z.div_mod_to_equations; lia).
set (yoe := (doe - doe / 1460 + doe / 36524 - doe / 146096) / 365).
assert (Hyoe : 0 <= yoe <= 400)
  by (subst yoe; Z.div_mod_to_equations; lia).
destruct (_ <=? 2); lia.
Qed.

Lemma time_fields t :
0 <= HourFromTime t < 24 ∧ 0 <= MinFromTime t < 60 ∧ 0 <= SecFromTime t < 60
∧ 0 <= msFromTime t < 1000
∧ MakeTime (HourFromTime t) (MinFromTime t) (SecFromTime t) (msFromTime t)
  = TimeWithinDay t.
Proof.
pose proof (TimeWithinDay_range t) as H.
unfold HourFromTime, MinFromTime, SecFromTime, msFromTime, MakeTime.
unfold msPerDay in H. set (r := TimeWithinDay t) in *.
Z.div_mod_to_equations. lia.
Qed.

(** [Date.parse] reads a string printed by [toISOString] back as the time
  that was printed. *)
Lemma Date_parse_isoOfTime t :
Z.abs t <= maxTime → Date_parse (isoOfTime t) = Some t.
Proof.
intros Ht. pose proof (year_bound t Ht) as Hy.
pose proof (fields_range t) as (Hm & Hd).
pose proof (time_fields t) as (Hh & Hmi & Hs & Hms & Htime).
pose proof (MakeDay_fields t) as Hday. rewrite MakeDay_civil in Hday by done.
assert (Hdim : DaysInMonth (YearFromTime t) (MonthFromTime t + 1) <= 31).
{ unfold DaysInMonth. repeat case_match; lia. }
unfold Date_parse, isoOfTime. fold (yearChars (YearFromTime t)).
rewrite chars_of_string_of_chars, parseYear_yearChars by done.
cbn [mbind option_bind]. rewrite expect_head. cbn [mbind option_bind].
rewrite digits_pad2 by lia. cbn [mbind option_bind].
rewrite expect_head. cbn [mbind option_bind].
rewrite digits_pad2 by lia. cbn [mbind option_bind].
rewrite expect_head. cbn [mbind option_bind].
rewrite digits_pad2 by lia. cbn [mbind option_bind].
rewrite expect_head. cbn [mbind option_bind].
rewrite digits_pad2 by lia. cbn [mbind option_bind].
rewrite expect_head. cbn [mbind option_bind].
rewrite digits_pad2 by lia. cbn [mbind option_bind].
rewrite expect_head. cbn [mbind option_bind].
rewrite digits_pad3 by lia. cbn [mbind option_bind].
rewrite expect_head. cbn [mbind option_bind].
rewrite Htime, Hday.
rewrite <- (time_decompose t).
replace (_ && _) with true.
- unfold TimeClip. by rewrite (proj2 (Z.leb_le _ _)).
- symmetry. rewrite !andb_true_iff, orb_true_iff, !Z.leb_le, Z.ltb_lt. lia.
Qed.

End DateStringProofs.

(** ** The license window *)
Module LicenseWindowProofs.
Import Types JsDate Store Calendar LicenseStateProofs.

(** [d.setDate(d.getDate() + k)] moves a date by [k] days of 24 hours,
  in every zone of fixed offset. *)
Lemma setDate_days tza t k :
Z.abs (t + k * msPerDay) <= maxTime →
setDate tza (Some t) ((λ d, d + k) <$> getDate tza (Some t))
= Some (t + k * msPerDay).
Proof.
intros Hr. unfold setDate, getDate.
cbn [mbind option_bind fmap option_fmap option_map].
set (lt := LocalTime tza t).
rewrite (MakeDay_date _ _ (DateFromTime lt) (DateFromTime lt + k)), MakeDay_fields.
pose proof (time_decompose lt) as Hd.
replace (UTC tza _) with (t + k * msPerDay)
  by (subst lt; unfold UTC, MakeDate, LocalTime in *; lia).
unfold TimeClip. by rewrite (proj2 (Z.leb_le _ _)).
Qed.

(** The end date of the license is read, and lies at most three days of
  24 hours after [now]. *)
Definition endsWithinThreeDays (now : Z) (l : BusinessLicense.t) : Prop :=
∃ e, Date_parse (BusinessLicense.endDate l) = Some e ∧ e <= now + 3 * msPerDay.

(** X8.  [isLicenseExpiringSoon], in both services and in every zone, never
  throws and returns true exactly for an active license whose end date
  lies at most 72 hours after the time the call reads from the clock: a
  license whose end date is already past is reported as expiring soon as
  well. *)
Theorem isLicenseExpiringSoon_iff tza clock (license : option BusinessLicense.t)
  (w : World) :
Z.abs (clock (ticks w)) <= maxTime - 3 * msPerDay →
∃ soon w',
  LicenseService.isLicenseExpiringSoon tza clock license w = (inr soon, w')
  ∧ RealTimeLicense.isLicenseExpiringSoon tza clock license w = (inr soon, w')
  ∧ (soon = true ↔
       ∃ l, license = Some l ∧ BusinessLicense.isActive l = true
            ∧ endsWithinThreeDays (clock (ticks w)) l)
  ∧ (∀ l, license = Some l → BusinessLicense.isActive l = true →
          endedBefore (clock (ticks w)) l → soon = true).
Proof.
intros Hr.
unfold LicenseService.isLicenseExpiringSoon, RealTimeLicense.isLicenseExpiringSoon.
destruct license as [l|]; cycle 1.
{ eexists _, _. run. split_and!; [done..| |done].
  split; [done|]. by intros (? & ? & _). }
destruct (BusinessLicense.isActive l) eqn:Hact; cbn [negb]; run.
- rewrite setDate_days by (unfold maxTime, msPerDay in *; lia).
  eexists _, _. split_and!; [done..| |].
  + unfold date_le, endsWithinThreeDays.
    destruct (Date_parse (BusinessLicense.endDate l)) as [e|] eqn:He.
    * rewrite Z.leb_le. split.
      -- intros H. exists l. split_and!; [done..|]. exists e. by split.
      -- intros (l' & [= <-] & _ & e' & He' & H). congruence.
    * split; [done|]. intros (l' & [= <-] & _ & e' & He' & _). congruence.
  + intros l' [= <-] _ (e & He & Hlt). unfold date_le. rewrite He.
    apply Z.leb_le. unfold msPerDay. lia.
- eexists _, _. split_and!; [done..| |].
  + split; [done|]. intros (l' & [= <-] & ? & _). congruence.
  + intros l' [= <-] ?. congruence.
Qed.

Definition expiringLicense : BusinessLicense.t :=
BusinessLicense.mk L1month "2024-01-01T12:00:00.000Z" "2024-01-17T12:00:00.000Z"
  true "a0" "2024-01-01T12:00:00.000Z" 1 None None.

Definition noonClock (_ : nat) : Z := 1705320000000.

Lemma isLicenseExpiringSoon_iff_witness :
∃ soon w',
  LicenseService.isLicenseExpiringSoon 0 noonClock (Some expiringLicense)
    (mkWorld ∅ ∅ ∅ [] true 0 0) = (inr soon, w')
  ∧ soon = true.
Proof.
destruct (isLicenseExpiringSoon_iff 0 noonClock (Some expiringLicense)
            (mkWorld ∅ ∅ ∅ [] true 0 0))
  as (soon & w' & Hrun & _ & Hiff & _).
- vm_compute. discriminate.
- exists soon, w'. split; [exact Hrun|].
  apply Hiff. exists expiringLicense. split; [reflexivity|].
  split; [reflexivity|]. exists 1705492800000. split; [by vm_compute|].
  vm_compute. discriminate.
Defined.

(** X9.  [getDaysRemaining], in both services, never throws.  It returns 0 for
  no license and for an inactive one; for an active license whose end
  date is read it returns the least number of whole days that reaches
  from the time read from the clock to the end date, which is negative or
  0 once the end date is reached; and [NaN] when the end date cannot be
  read. *)
Theorem getDaysRemaining_spec clock (license : option BusinessLicense.t) (w : World) :
∃ days w',
  LicenseService.getDaysRemaining clock license w = (inr days, w')
  ∧ RealTimeLicense.getDaysRemaining clock license w = (inr days, w')
  ∧ (license = None → days = Some 0)
  ∧ (∀ l, license = Some l →
       if BusinessLicense.isActive l then
         match Date_parse (BusinessLicense.endDate l) with
         | Some e =>
             ∃ d, days = Some d
                  ∧ (d - 1) * msPerDay < e - clock (ticks w) <= d * msPerDay
                  ∧ (d <= 0 ↔ e <= clock (ticks w))
         | None => days = None
         end
       else days = Some 0).
Proof.
unfold LicenseService.getDaysRemaining, RealTimeLicense.getDaysRemaining.
destruct license as [l|]; [|eexists _, _; run; by split_and!].
destruct (BusinessLicense.isActive l) eqn:Hact; cbn [negb]; run.
- eexists _, _. split_and!; [done..|].
  intros l' [= <-]. rewrite Hact.
  destruct (Date_parse (BusinessLicense.endDate l)) as [e|]; [|done].
  cbn [fmap option_fmap option_map]. eexists. split; [done|].
  unfold ceilDiv. change (1000 * 60 * 60 * 24) with msPerDay.
  unfold msPerDay. split; Z.div_mod_to_equations; lia.
- eexists _, _. split_and!; [done..|]. intros l' [= <-]. by rewrite Hact.
Qed.

End LicenseWindowProofs.

(** ** The license status *)
Module StatusProofs.
Import Types JsDate Store RealTimeLicense LicenseStateProofs.

(** The data of the store is the same in both worlds; the clock and the
  random source may have been read. *)
Definition sameData (w w' : World) : Prop :=
businesses w' = businesses w ∧ users w' = users w
∧ digitalRecords w' = digitalRecords w ∧ stray w' = stray w
∧ online w' = online w.

Lemma sameData_refl w : sameData w w.
Proof. done. Qed.

Lemma sameData_trans w1 w2 w3 : sameData w1 w2 → sameData w2 w3 → sameData w1 w3.
Proof. unfold sameData. intros (?&?&?&?&?) (?&?&?&?&?). split_and!; congruence. Qed.

(** The license [l] of the business is in force at [now]: the business is
  not deactivated, the license is active and its end date, if it can be
  read, is not before [now]. *)
Definition inForce (now : Z) (business : Business.t) : Prop :=
Business.isActive business ≠ Some false
∧ ∃ l, Business.license business = Some l
       ∧ BusinessLicense.isActive l = true ∧ ¬ endedBefore now l.

Lemma statusOfBusiness_runs tza clock b business w :
∃ st w',
  statusOfBusiness tza clock b business w = (inr st, w')
  ∧ sameData w w'
  ∧ businessId st = Some b
  ∧ license st = Business.license business
  ∧ (isValid st = true ↔ inForce (clock (ticks w)) business)
  ∧ (isValid st = true → isExpired st = false)
  ∧ (license st = None →
     isExpired st = true ∧ isExpiringSoon st = false ∧ daysRemaining st = Some 0).
Proof.
unfold statusOfBusiness, isLicenseExpired, isLicenseExpiringSoon,
  getDaysRemaining, inForce.
destruct (Business.license business) as [l|] eqn:Hl.
- destruct (BusinessLicense.isActive l) eqn:Hact; cbn [negb]; run.
  + eexists _, _. split; [reflexivity|]. cbn [isValid isExpired license businessId].
    split_and!; [done..| | |done].
    * rewrite andb_true_r, !andb_true_iff, negb_true_iff.
      rewrite <- not_true_iff_false, date_gt_iff. fold (endedBefore (clock (ticks w)) l).
      split.
      -- intros [Hne Hb]. split; [by destruct (Business.isActive business) as [[]|]|].
         exists l. done.
      -- intros [Hb (l' & [= <-] & _ & Hne)]. split; [done|].
         by destruct (Business.isActive business) as [[]|].
    * rewrite !andb_true_iff, negb_true_iff. tauto.
  + eexists _, _. split; [reflexivity|]. cbn [isValid isExpired license businessId].
    split_and!; [done..| | |done].
    * split; [done|]. intros [_ (l' & [= <-] & ? & _)]. congruence.
    * done.
- run. eexists _, _. split; [reflexivity|].
  cbn [isValid isExpired isExpiringSoon daysRemaining license businessId].
  split_and!; [done..| | |done].
  + rewrite andb_false_r. split; [done|]. by intros [_ (l' & ? & _)].
  + by rewrite andb_false_r.
Qed.

Lemma checkBusinessLicense_runs tza clock b (w : World) :
∃ st w',
  checkBusinessLicense tza clock b w = (inr st, w')
  ∧ sameData w w'
  ∧ businessId st = Some b
  ∧ (isValid st = true ↔
       online w = true
       ∧ ∃ business, businesses w !! b = Some business
                     ∧ inForce (clock (ticks w)) business)
  ∧ (isValid st = true → isExpired st = false)
  ∧ (license st = None →
     isExpired st = true ∧ isExpiringSoon st = false ∧ daysRemaining st = Some 0)
  ∧ (online w = false → license st = None).
Proof.
unfold checkBusinessLicense, getBusiness. run.
destruct (online w) eqn:Hon.
- destruct (businesses w !! b) as [business|] eqn:Hb.
  + destruct (statusOfBusiness_runs tza clock b business w)
      as (st & w' & -> & Hsame & Hid & _ & Hvalid & Hexp & Hnone).
    exists st, w'. split_and!; [done..| |done|done|done].
    rewrite Hvalid. split; [eauto|]. by intros (_ & business' & [= <-] & ?).
  + eexists _, _. split; [reflexivity|]. split_and!; [done..| |done|done|done].
    cbn. split; [done|]. by intros (_ & ? & ? & _).
- eexists _, _. split; [reflexivity|]. split_and!; [done..| |done|done|done].
  cbn. split; [done|]. by intros (? & _).
Qed.

(** X11.  [checkBusinessLicense] never throws and writes nothing.  The status it
  returns is valid exactly when the store answers, the business is
  stored and not deactivated, and its license is active and not past its
  end date at the time read from the clock; a license whose end date
  cannot be read therefore never runs out.  A valid status is never
  expired, and a status without a license is expired, with 0 days
  remaining. *)
Theorem checkBusinessLicense_status tza clock b (w : World) :
∃ st w',
  checkBusinessLicense tza clock b w = (inr st, w')
  ∧ sameData w w'
  ∧ businessId st = Some b
  ∧ (isValid st = true ↔
       online w = true
       ∧ ∃ business, businesses w !! b = Some business
                     ∧ inForce (clock (ticks w)) business)
  ∧ (isValid st = true → isExpired st = false)
  ∧ (license st = None →
     isExpired st = true ∧ isExpiringSoon st = false ∧ daysRemaining st = Some 0).
Proof.
destruct (checkBusinessLicense_runs tza clock b w)
  as (st & w' & H1 & H2 & H3 & H4 & H5 & H6 & _).
by exists st, w'.
Qed.

(** What every status of a user satisfies. *)
Lemma checkUserLicenseStatus_runs tza clock user w :
∃ st w',
  checkUserLicenseStatus tza clock user w = (inr st, w')
  ∧ sameData w w'
  ∧ (isValid st = true → isExpired st = false)
  ∧ (isValid st = false → license st = None → isExpired st = true)
  ∧ (User.role user ≠ admin → online w = false → isValid st = false ∧ isExpired st = true)
  ∧ (User.role user = admin → isValid st = true).
Proof.
unfold checkUserLicenseStatus.
destruct (decide (User.role user = admin)) as [Ha|Ha].
{ rewrite bool_decide_true by done. eexists _, _. split; [reflexivity|].
  split_and!; done. }
rewrite bool_decide_false by done.
assert (Hno : ∀ o, ∃ st w',
  (mret (noLicenseStatus o) : M LicenseStatus) w = (inr st, w')
  ∧ sameData w w'
  ∧ (isValid st = true → isExpired st = false)
  ∧ (isValid st = false → license st = None → isExpired st = true)
  ∧ (User.role user ≠ admin → online w = false → isValid st = false ∧ isExpired st = true)
  ∧ (User.role user = admin → isValid st = true)).
{ intros o. eexists _, _. split; [reflexivity|]. split_and!; done. }
destruct (businessOf user) as [b|]; [|apply Hno].
destruct (truthy_string b); [|apply Hno].
destruct (checkBusinessLicense_runs tza clock b w)
  as (st & w' & -> & Hsame & _ & Hvalid & Hexp & Hnone & Hoff).
exists st, w'. split_and!; [done..| | |done].
- intros _ Hl. by apply Hnone.
- intros _ Hoffline.
  assert (Hv : isValid st = false).
  { apply not_true_iff_false. rewrite Hvalid. intros [? _]. congruence. }
  split; [done|]. by apply Hnone, Hoff.
Qed.

End StatusProofs.

(** ** Blocking and the guard of actions *)
Module BlockingProofs.
Import Types JsDate Store RealTimeLicense RealTimeBlocking LicenseGuard
  LicenseGuardActions TypeFacts StatusProofs.

Definition expiredMessage : string :=
"Su licencia ha expirado. Contacte al administrador para renovarla.".
Definition noLicenseMessage : string :=
"No tiene una licencia activa. Contacte al administrador.".
Definition deactivatedMessage : string :=
"Su cuenta ha sido desactivada. Contacte al administrador.".
Definition restrictedMessage : string :=
"Acceso restringido. Contacte al administrador.".

(** The user is flagged blocked and a reason is stored with the flag. *)
Definition blockedWithReason (user : User.t) (reason : string) : Prop :=
User.isBlocked user = Some true ∧ User.blockedReason user = Some reason
∧ reason ≠ ""%string.

Lemma blockedWithReason_dec user :
truthy_flag (User.isBlocked user) && truthy_opt_string (User.blockedReason user)
= true
↔ ∃ reason, blockedWithReason user reason.
Proof.
unfold blockedWithReason, truthy_flag, truthy_opt_string.
rewrite andb_true_iff. split.
- intros [Hb Hr]. destruct (User.isBlocked user) as [[]|]; try done.
  destruct (User.blockedReason user) as [r|]; [|done].
  exists r. split_and!; [done..|]. by apply truthy_string_true.
- intros (r & -> & -> & Hr). split; [done|]. by apply truthy_string_true.
Qed.

(** X12.  [getBlockingReason] never throws and writes nothing.  For a user
  flagged blocked with a stored reason it returns that reason, without
  reading the store.  For every other user it returns one of three
  messages: license expired, account deactivated, access restricted.
  The message for a missing license is never produced: a status without
  a license is always reported as expired. *)
Theorem getBlockingReason_messages tza clock (user : User.t) (w : World) :
∃ reason w',
  getBlockingReason tza clock user w = (inr reason, w')
  ∧ sameData w w'
  ∧ (∀ stored, blockedWithReason user stored → reason = stored ∧ w' = w)
  ∧ ((∀ stored, ¬ blockedWithReason user stored) →
     reason = expiredMessage ∨ reason = deactivatedMessage
     ∨ reason = restrictedMessage)
  ∧ (reason = noLicenseMessage → blockedWithReason user noLicenseMessage).
Proof.
unfold getBlockingReason.
destruct (truthy_flag (User.isBlocked user)
          && truthy_opt_string (User.blockedReason user)) eqn:Hb.
- apply blockedWithReason_dec in Hb as (r & Hblk & Hr & Hne).
  rewrite Hr. eexists _, _. split; [reflexivity|]. cbn [default]. unfold id.
  split_and!; [done| | |].
  + intros stored (_ & Hs & _). split; [congruence|done].
  + intros Hno. by destruct (Hno r).
  + by intros <-.
- assert (Hno : ∀ stored, ¬ blockedWithReason user stored).
  { intros stored H. apply not_true_iff_false in Hb. apply Hb.
    apply blockedWithReason_dec. eauto. }
  run.
  destruct (checkUserLicenseStatus_runs tza clock user w)
    as (st & w' & -> & Hsame & Hv & Hnone & _).
  destruct (isValid st) eqn:Hvalid; cbn [negb].
  + eexists _, _. split; [reflexivity|]. split_and!; [done| |auto|done].
    intros stored H. by destruct (Hno stored).
  + destruct (isExpired st) eqn:Hexp.
    * eexists _, _. split; [reflexivity|]. split_and!; [done| |auto|done].
      intros stored H. by destruct (Hno stored).
    * destruct (license st) as [l|] eqn:Hl.
      -- rewrite bool_decide_true by eauto. cbn [negb].
         eexists _, _. split; [reflexivity|]. split_and!; [done| |auto|done].
         intros stored H. by destruct (Hno stored).
      -- specialize (Hnone eq_refl eq_refl). congruence.
Qed.

(** X13.  While the store cannot be read, every user who is not an
  administrator is to be blocked, and the reason given, unless one is
  stored with the user, is that the license has expired. *)
Theorem unreachable_store_blocks tza clock (user : User.t) (w : World) :
User.role user ≠ admin → online w = false →
shouldBlockUser tza clock user w = (inr true, w)
∧ ((∀ stored, ¬ blockedWithReason user stored) →
   getBlockingReason tza clock user w = (inr expiredMessage, w)).
Proof.
intros Ha Hoff. split.
- unfold shouldBlockUser. rewrite bool_decide_false by done.
  destruct (truthy_flag (User.isBlocked user)); [done|].
  unfold checkUserLicenseStatus. rewrite bool_decide_false by done.
  destruct (businessOf user) as [b|]; [|done].
  destruct (truthy_string b); [|done].
  unfold checkBusinessLicense, getBusiness. run. by rewrite Hoff.
- intros Hno. unfold getBlockingReason.
  destruct (truthy_flag (User.isBlocked user)
            && truthy_opt_string (User.blockedReason user)) eqn:Hb.
  { apply blockedWithReason_dec in Hb as (r & Hr). by destruct (Hno r). }
  unfold checkUserLicenseStatus. rewrite bool_decide_false by done.
  destruct (businessOf user) as [b|]; [|done].
  destruct (truthy_string b); [|done].
  unfold checkBusinessLicense, getBusiness. run. by rewrite Hoff.
Qed.

Definition someOwner : User.t :=
User.mk "u1" "ana@example.com" owner (Some "b1"%string) "Ana" None None None None None.

Lemma unreachable_store_blocks_witness :
shouldBlockUser 0 (λ _, 0) someOwner (mkWorld ∅ ∅ ∅ [] false 0 0)
= (inr true, mkWorld ∅ ∅ ∅ [] false 0 0).
Proof.
apply (unreachable_store_blocks 0 (λ _, 0) someOwner (mkWorld ∅ ∅ ∅ [] false 0 0)).
- discriminate.
- reflexivity.
Defined.

Lemma canPerformAction_runs tza clock user status w :
∃ ok w',
  canPerformAction tza clock user status w = (inr ok, w')
  ∧ sameData w w'.
Proof.
unfold canPerformAction. destruct user as [user|]; [|by eexists _, _].
destruct (bool_decide (User.role user = admin)); [by eexists _, _|].
destruct (truthy_flag (User.isBlocked user)); [by eexists _, _|].
destruct status as [st|]; [by eexists _, _|].
unfold shouldBlockUser.
destruct (bool_decide (User.role user = admin)); [by eexists _, _|].
destruct (truthy_flag (User.isBlocked user)); [by eexists _, _|].
run. destruct (checkUserLicenseStatus_runs tza clock user w)
  as (st & w' & -> & Hsame & _).
by eexists _, _.
Qed.

(** X15.  [canPerformAction] never throws and writes nothing.  Whenever it
  allows actions, [canAccessSection] opens every section to the same
  user; it always allows an administrator and never a user flagged
  blocked who is not one; and when no user is signed in it allows
  nothing. *)
Theorem canPerformAction_sound tza clock (user : User.t)
  (status : option LicenseStatus) (w : World) :
∃ ok w',
  canPerformAction tza clock (Some user) status w = (inr ok, w')
  ∧ sameData w w'
  ∧ (ok = true → ∀ section, canAccessSection (Some user) status section = true)
  ∧ (User.role user = admin → ok = true)
  ∧ (User.role user ≠ admin → User.isBlocked user = Some true → ok = false)
  ∧ canPerformAction tza clock None status w = (inr false, w).
Proof.
destruct (canPerformAction_runs tza clock (Some user) status w)
  as (ok & w' & Hrun & Hsame).
exists ok, w'. split_and!; [done..| | | |done].
- intros -> section. revert Hrun.
  unfold canPerformAction, canAccessSection.
  destruct (bool_decide (User.role user = admin)); [done|].
  destruct (truthy_flag (User.isBlocked user)); [done|].
  destruct status as [st|]; [|done].
  intros [= -> _]. done.
- intros Ha. revert Hrun. unfold canPerformAction.
  rewrite bool_decide_true by done. by intros [= <- _].
- intros Ha Hb. revert Hrun. unfold canPerformAction.
  rewrite bool_decide_false, Hb by done. by intros [= <- _].
Qed.

(** X16.  [checkLicenseAndExecute] never throws.  When [canPerformAction]
  refuses, the action is not run: the call returns false with a
  message, in the world [canPerformAction] left.  When it allows, the
  action is run once, no message is shown, and the call returns true
  exactly when the action ends without throwing. *)
Theorem checkLicenseAndExecute_guard tza clock (user : option User.t)
  (status : option LicenseStatus) (action : M unit) (w : World) :
∃ ok message w',
  checkLicenseAndExecute tza clock user status action w = (inr (ok, message), w')
  ∧ ∀ w1,
      (canPerformAction tza clock user status w = (inr false, w1) →
       ok = false ∧ is_Some message ∧ w' = w1)
      ∧ (canPerformAction tza clock user status w = (inr true, w1) →
         message = None ∧ w' = (action w1).2
         ∧ (ok = true ↔ (action w1).1 = inr tt)).
Proof.
destruct (canPerformAction_runs tza clock user status w)
  as (allowed & w1 & Hrun & _).
unfold checkLicenseAndExecute. run. rewrite Hrun.
destruct allowed; cbn [negb].
- destruct (action w1) as [[e|[]] w2] eqn:Hact.
  + exists false, None, w2. split; [done|]. intros w1'. split; [done|].
    intros [= <-]. rewrite Hact. cbn. split_and!; [done..|]. done.
  + exists true, None, w2. split; [done|]. intros w1'. split; [done|].
    intros [= <-]. rewrite Hact. cbn. done.
- eexists false, _, w1. split; [reflexivity|]. intros w1'.
  split; [|done]. intros [= <-]. split_and!; [done| |done]. by eexists.
Qed.

(** X17.  A signed-in user to whom [canAccessSection] closes a section is
  always given a status message by [getLicenseStatusMessage], and the
  message is not empty. *)
Theorem closed_section_has_message (user : User.t) (status : option LicenseStatus)
  (section : string) :
canAccessSection (Some user) status section = false →
∃ message,
  getLicenseStatusMessage (Some user) status = Some message
  ∧ message ≠ ""%string.
Proof.
unfold canAccessSection, getLicenseStatusMessage.
destruct (bool_decide (User.role user = admin)); [done|].
destruct (truthy_flag (User.isBlocked user)).
- intros _. eexists. split; [reflexivity|]. unfold orElse.
  destruct (User.blockedReason user) as [r|]; [|done].
  destruct (truthy_string r) eqn:Hr; [|done]. by apply truthy_string_true.
- destruct status as [st|]; [|done].
  destruct (isValid st); cbn [negb]; [done|]. intros _.
  destruct (isExpired st); by eexists.
Qed.

Definition expiredStatus : LicenseStatus := noLicenseStatus (Some "b1"%string).

Lemma closed_section_has_message_witness :
∃ message,
  getLicenseStatusMessage (Some someOwner) (Some expiredStatus) = Some message
  ∧ message ≠ ""%string.
Proof.
apply (closed_section_has_message someOwner (Some expiredStatus) "clients").
reflexivity.
Defined.

End BlockingProofs.

(** ** The permissions of the roles *)
Module PermissionProofs.
Import Types Permissions.

Definition withRole (r : Role) (user : User.t) : Prop := User.role user = r.

Lemma roleIs_role user r r' :
User.role user = r → roleIs (Some user) r' = bool_decide (r = r').
Proof. intros <-. done. Qed.

(** The message [getRestrictionMessage] falls back to. *)
Definition noPermissionMessage : string :=
"No tienes permisos para realizar esta acción.".

(** X18.  How the permissions of the roles compare.  Whatever an assistant may
  do, an owner may do; an owner may do everything but open the
  administration panel; what is allowed without a signed-in user is
  allowed to every user; and an administrator may do just that and open
  the administration panel, so an administrator may not create or change
  clients and appointments, which an assistant may. *)
Theorem role_permissions (action : Action) :
(∀ a o, withRole assistant a → withRole owner o →
        can (Some a) action = true → can (Some o) action = true)
∧ (∀ o, withRole owner o →
        (can (Some o) action = true ↔ action ≠ canAccessAdminPanel))
∧ (∀ u, can None action = true → can (Some u) action = true)
∧ (∀ u, withRole admin u →
        (can (Some u) action = true
         ↔ can None action = true ∨ action = canAccessAdminPanel))
∧ (∀ a u, withRole assistant a → withRole admin u →
          can (Some a) canCreateClient = true
          ∧ can (Some u) canCreateClient = false
          ∧ can (Some a) canEditAppointment = true
          ∧ can (Some u) canEditAppointment = false).
Proof.
unfold withRole, can, permissions. split_and!.
- intros a o Ha Ho.
  rewrite !(roleIs_role a assistant), !(roleIs_role o owner) by done.
  by destruct action.
- intros o Ho. rewrite !(roleIs_role o owner) by done.
  destruct action; cbn; split; done.
- intros u. destruct action; cbn; done.
- intros u Hu. rewrite !(roleIs_role u admin) by done.
  destruct action; cbn; split; (done || (intros [?|?]; done) || (intros _; by (left + right))).
- intros a u Ha Hu.
  rewrite !(roleIs_role a assistant), !(roleIs_role u admin) by done. done.
Qed.

(** X19.  [getRestrictionMessage] names the owner as the one who may act only
  for an action that is refused to the assistant it answers: for an
  action an assistant may do, and for every user who is not an
  assistant, it returns the general message. *)
Theorem restriction_message_for_refused (user : User.t) (action : Action) :
getRestrictionMessage (Some user) action ≠ noPermissionMessage →
User.role user = assistant ∧ can (Some user) action = false.
Proof.
unfold getRestrictionMessage, can, permissions.
destruct (User.role user) eqn:Hr;
  rewrite !(roleIs_role user _ _ Hr); cbn [bool_decide decide_rel]; try done.
intros H. split; [done|]. by destruct action.
Qed.

Definition helper : User.t :=
User.mk "u2" "eva@example.com" assistant None "Eva" None (Some "b1"%string)
  None None None.

Lemma restriction_message_for_refused_witness :
User.role helper = assistant ∧ can (Some helper) canDeleteClient = false.
Proof.
apply (restriction_message_for_refused helper canDeleteClient). by vm_compute.
Defined.

End PermissionProofs.

(** ** Looking up a business by its key *)
Module LookupProofs.
Import Types Store BusinessKey BusinessKeyLookup.

Lemma scanFor_Some key entries id name :
scanFor key entries = Some (id, name) →
∃ business, In (id, business) entries
            ∧ Business.businessKey business = key
            ∧ Business.name business = name.
Proof.
induction entries as [|[id' b] rest IH]; [done|]. cbn [scanFor].
destruct (String.eqb_spec (Business.businessKey b) key) as [E|E].
- intros [= <- <-]. exists b. split; [by left|done].
- intros H. destruct (IH H) as (b' & Hin & ?). exists b'. split; [by right|done].
Qed.

Lemma scanFor_None key entries :
scanFor key entries = None ↔ scanKeys key entries = true.
Proof.
induction entries as [|[id' b] rest IH]; [done|]. cbn [scanFor scanKeys].
by destruct (String.eqb (Business.businessKey b) key).
Qed.

(** No stored business has the key. *)
Definition unused (w : World) (key : string) : Prop :=
∀ id business, businesses w !! id = Some business →
               Business.businessKey business ≠ key.

Lemma scanKeys_unused w key :
scanKeys key (map_to_list (businesses w)) = true ↔ unused w key.
Proof.
rewrite KeyProofs.scanKeys_true. unfold unused. split.
- intros H id b Hb. apply (H id b). by apply list_elem_of_In, elem_of_map_to_list.
- intros H id b Hin. apply (H id b). by apply elem_of_map_to_list, list_elem_of_In.
Qed.

(** X20.  [findBusinessByKey] never throws and changes nothing.  A business it
  returns is stored, has the key, and is returned with its name.  While
  the store answers, it returns [null] exactly when no stored business
  has the key, which is exactly when [isBusinessKeyUnique] holds the key
  to be unique.  While the store does not answer the two disagree: the
  key is not found and is not unique either. *)
Theorem findBusinessByKey_spec (key : string) (w : World) :
∃ found unique,
  findBusinessByKey key w = (inr found, w)
  ∧ isBusinessKeyUnique key w = (inr unique, w)
  ∧ (∀ id name, found = Some (id, name) →
       ∃ business, businesses w !! id = Some business
                   ∧ Business.businessKey business = key
                   ∧ Business.name business = name)
  ∧ (online w = true → (found = None ↔ unused w key))
  ∧ (online w = true → (unique = true ↔ found = None))
  ∧ (online w = false → found = None ∧ unique = false).
Proof.
unfold findBusinessByKey, isBusinessKeyUnique, getBusinesses. run.
destruct (online w) eqn:Hon.
- destruct (decide (businesses w = ∅)) as [He|Hne].
  + rewrite !bool_decide_true by done. exists None, true.
    split_and!; [done..| | |done].
    * intros _. split; [|done]. intros _ id b. by rewrite He.
    * done.
  + rewrite !bool_decide_false by done. eexists _, _.
    split_and!; [done..| | | |done].
    * intros id name H. apply scanFor_Some in H as (b & Hin & ?).
      exists b. split; [|done]. by apply elem_of_map_to_list, list_elem_of_In.
    * intros _. by rewrite scanFor_None, scanKeys_unused.
    * intros _. by rewrite scanFor_None.
- exists None, false. split_and!; done.
Qed.

End LookupProofs.

(** ** Where the cascades write *)
Module CascadeWriteProofs.
Import Types JsDate Store LicenseService StringFacts TypeFacts StoreProofs
  CascadeProofs LifecycleProofs StatusProofs.

(** A key of the store: not empty, without '/'. *)
Definition validKey (s : string) : Prop :=
s ≠ ""%string ∧ ∀ c, In c (chars_of_string s) → c ≠ "/"%char.

(** The keys of the users are keys of the store. *)
Definition validUsers (w : World) : Prop :=
∀ uid, is_Some (users w !! uid) → validKey uid.

Definition flushed (cur : list ascii) (rest : Path) : Path :=
match cur with [] => rest | _ => string_of_chars (rev cur) :: rest end.

Lemma splitPathAux_segment cs : ∀ cur rest,
(∀ c, In c cs → c ≠ "/"%char) →
splitPathAux (cs ++ "/"%char :: rest) cur
= flushed (rev cs ++ cur) (splitPathAux rest []).
Proof.
induction cs as [|c cs IH]; intros cur rest Hcs.
- cbn [app rev splitPathAux]. change (Ascii.eqb "/" "/") with true. cbn iota.
  by destruct cur.
- cbn [app splitPathAux].
  destruct (Ascii.eqb_spec c "/") as [E|E]; [by destruct (Hcs c (or_introl eq_refl))|].
  rewrite IH by (intros c' Hc'; apply Hcs; by right).
  cbn [rev]. by rewrite <- app_assoc.
Qed.

Lemma splitPathAux_last cs : ∀ cur,
(∀ c, In c cs → c ≠ "/"%char) →
splitPathAux cs cur = flushed (rev cs ++ cur) [].
Proof.
induction cs as [|c cs IH]; intros cur Hcs.
- cbn. by destruct cur.
- cbn [splitPathAux].
  destruct (Ascii.eqb_spec c "/") as [E|E]; [by destruct (Hcs c (or_introl eq_refl))|].
  rewrite IH by (intros c' Hc'; apply Hcs; by right).
  cbn [rev]. by rewrite <- app_assoc.
Qed.

Lemma flushed_key s rest :
validKey s → flushed (rev (chars_of_string s) ++ []) rest = s :: rest.
Proof.
intros [Hne _]. rewrite app_nil_r. unfold flushed.
destruct (rev (chars_of_string s)) as [|c cs] eqn:E.
- apply (f_equal (@rev ascii)) in E. rewrite rev_involutive in E. cbn in E.
  destruct s; [done|discriminate].
- rewrite <- E, rev_involutive. f_equal. apply string_of_list_ascii_of_string.
Qed.

(** The segments of the key of an update. *)
Lemma splitPath_userKey uid field :
validKey uid → validKey field →
splitPath (userKey uid field) = ["users"%string; uid; field].
Proof.
intros Hu Hf. unfold splitPath, userKey.
rewrite !chars_of_string_app.
change (chars_of_string "users/") with (chars_of_string "users" ++ ["/"%char]).
rewrite <- !app_assoc. cbn [app].
change (chars_of_string "/") with ["/"%char]. cbn [app].
rewrite splitPathAux_segment
  by (intros c Hc; cbn in Hc; intuition (subst; discriminate)).
rewrite splitPathAux_segment by apply Hu.
rewrite splitPathAux_last by apply Hf.
rewrite (flushed_key uid), (flushed_key field) by done. done.
Qed.

(** The fields a cascade writes. *)
Definition cascadeField (field : string) : Prop :=
field = "isBlocked"%string ∨ field = "blockedReason"%string
∨ field = "updatedAt"%string.

Lemma cascadeField_valid field : cascadeField field → validKey field.
Proof.
intros [-> | [-> | ->]]; (split; [done|]); intros c Hc; cbn in Hc;
  intuition (subst; discriminate).
Qed.

(** Every update of the loop has a key [users/<uid>/<field>] of a selected
  user of the snapshot. *)
Lemma collectUpdates_keys clock select flag reason entries : ∀ w k v,
In (k, v) (updatesOf (collectUpdates clock select flag reason entries w)) →
∃ uid u field,
  k = userKey uid field ∧ In (uid, u) entries ∧ select u = true
  ∧ cascadeField field.
Proof.
induction entries as [|[uid u] rest IH]; intros w k v; [done|].
cbn [collectUpdates]. destruct (select u) eqn:Hsel.
- run. set (w1 := mkWorld _ _ _ _ _ _ _).
  destruct (collectUpdates_runs clock select flag reason rest w1) as [more Hmore].
  specialize (IH w1 k v). rewrite Hmore in IH |- *.
  unfold updatesOf in *. cbn [fst] in *. cbn [In].
  intros [[= <- <-]|[[= <- <-]|[[= <- <-]|Hin]]].
  + exists uid, u, "isBlocked"%string. split_and!; [done|by left|done|by left].
  + exists uid, u, "blockedReason"%string.
    split_and!; [done|by left|done|right; by left].
  + exists uid, u, "updatedAt"%string.
    split_and!; [done|by left|done|right; by right].
  + destruct (IH Hin) as (uid' & u' & f & ? & ? & ? & ?).
    exists uid', u', f. split_and!; [done|by right|done|done].
- intros Hin. destruct (IH w k v Hin) as (uid' & u' & f & ? & ? & ? & ?).
  exists uid', u', f. split_and!; [done|by right|done|done].
Qed.

(** The location [update(usersRef, updates)] gives to the key
  [users/<uid>/<field>]: the key is taken relative to [users]. *)
Definition addressed (uid field : string) : Path :=
["users"; "users"; uid; field]%string.

Lemma childPath_userKey uid field :
validKey uid → validKey field →
childPath usersRef (userKey uid field) = addressed uid field.
Proof. intros Hu Hf. unfold childPath. by rewrite splitPath_userKey. Qed.

(** An update whose keys all start with [users/] changes no user: every
  write is addressed below [users/users]. *)
Lemma update_misaddressed updates : ∀ w,
(∀ k v, In (k, v) updates →
        ∃ uid field, k = userKey uid field ∧ validKey uid ∧ validKey field) →
∃ w',
  update usersRef updates w = (inr tt, w')
  ∧ users w' = users w
  ∧ ∀ p v, In (p, v) (stray w') ↔
           In (p, v) (stray w)
           ∨ ∃ k, In (k, v) updates ∧ p = childPath usersRef k.
Proof.
induction updates as [|[k v] rest IH]; intros w Hkeys.
- exists w. split_and!; [done..|]. intros p v. split; [by left|].
  by intros [?|(? & [] & _)].
- destruct (Hkeys k v (or_introl eq_refl)) as (uid & field & -> & Hu & Hf).
  cbn [update]. run.
  rewrite childPath_userKey by done. unfold addressed. cbn [writeAt].
  unfold recordStray at 1.
  set (w1 := mkWorld _ _ _ _ _ _ _).
  destruct (IH w1) as (w' & -> & Husers & Hstray).
  { intros k' v' Hin. apply (Hkeys k' v'). by right. }
  exists w'. split_and!; [done|done|].
  intros p v'. rewrite Hstray. subst w1. cbn [stray]. rewrite in_app_iff. cbn [In].
  change ["users"; "users"; uid; field]%string with (addressed uid field).
  rewrite <- (childPath_userKey uid field) by done.
  split.
  + intros [[?|[[= <- <-]|[]]]|(k' & Hin & ?)].
    * by left.
    * right. exists (userKey uid field). split; [by left|done].
    * right. exists k'. split; [by right|done].
  + intros [?|(k' & [[= <- <-]|Hin] & ->)].
    * left. by left.
    * left. right. by left.
    * right. eauto.
Qed.

(** The body of both cascades. *)
Definition cascade clock (select : User.t → bool) (flag reason : Value) : M unit :=
users ← getUsers;
if bool_decide (users = ∅) then mret tt
else
  updates ← collectUpdates clock select flag reason (map_to_list users);
  if (0 <? Z.of_nat (List.length updates)) then update usersRef updates
  else mret tt.

(** A cascade on a reachable store ends normally and changes no user and
  no business.  For each user it selects, it writes the flag at
  [users/users/<uid>/isBlocked]; all it writes is addressed below
  [users/users]. *)
Lemma cascade_misaddressed clock select flag reason w :
online w = true → validUsers w →
∃ w',
  cascade clock select flag reason w = (inr tt, w')
  ∧ users w' = users w ∧ businesses w' = businesses w
  ∧ digitalRecords w' = digitalRecords w ∧ online w' = true
  ∧ (∀ uid u, users w !! uid = Some u → select u = true →
              In (addressed uid "isBlocked", flag) (stray w'))
  ∧ (∀ p v, In (p, v) (stray w') →
            In (p, v) (stray w)
            ∨ ∃ uid u field, users w !! uid = Some u ∧ select u = true
                             ∧ p = addressed uid field).
Proof.
intros Hon Hvalid. unfold cascade, getUsers. run. rewrite Hon.
destruct (decide (users w = ∅)) as [He|Hne].
{ rewrite bool_decide_true by done. exists w. split_and!; [done..| |].
  - intros uid u Hu. by rewrite He in Hu.
  - intros p v Hin. by left. }
rewrite bool_decide_false by done.
pose proof (collectUpdates_isBlocked clock select flag reason
              (map_to_list (users w)) w) as Hblk.
pose proof (collectUpdates_keys clock select flag reason
              (map_to_list (users w)) w) as Hk.
destruct (collectUpdates_frame clock select flag reason (map_to_list (users w)) w)
  as (updates & w1 & Hcol & Hb1 & Hu1 & Hd1 & Hs1 & Ho1 & _).
rewrite Hcol in Hblk, Hk |- *. unfold updatesOf in Hblk, Hk. cbn [fst] in Hblk, Hk.
assert (Hkeys : ∀ k v, In (k, v) updates →
          ∃ uid field, k = userKey uid field ∧ validKey uid ∧ validKey field).
{ intros k v Hin. destruct (Hk k v Hin) as (uid & u & f & -> & Hin' & _ & Hf).
  exists uid, f. split_and!; [done| |by apply cascadeField_valid].
  apply Hvalid. exists u. by apply elem_of_map_to_list, list_elem_of_In. }
assert (Hsel : ∀ uid u, users w !! uid = Some u → select u = true →
          In (userKey uid "isBlocked", flag) updates).
{ intros uid u Hu Hs. apply Hblk. split; [done|]. exists u. split; [|done].
  by apply list_elem_of_In, elem_of_map_to_list. }
assert (Hfrom : ∀ k v, In (k, v) updates →
          ∃ uid u field, users w !! uid = Some u ∧ select u = true
                         ∧ childPath usersRef k = addressed uid field).
{ intros k v Hin. destruct (Hk k v Hin) as (uid & u & f & -> & Hin' & Hs & Hf).
  apply list_elem_of_In, elem_of_map_to_list in Hin'.
  exists uid, u, f. split_and!; [done..|].
  apply childPath_userKey; [|by apply cascadeField_valid].
  apply Hvalid. by exists u. }
destruct (0 <? Z.of_nat (List.length updates)) eqn:Hlen.
- destruct (update_misaddressed updates w1 Hkeys) as (w' & Hup' & Hu' & Hs').
  destruct (update_frame usersRef updates w1) as (w'' & Hup & Hf).
  assert (w'' = w') as -> by congruence.
  exists w'. split; [done|].
  destruct Hf as (? & ? & ? & _).
  split_and!; [congruence..| |].
  + intros uid u Hu Hs. apply Hs'. right. exists (userKey uid "isBlocked").
    split; [by apply (Hsel uid u)|]. symmetry. apply childPath_userKey.
    * apply Hvalid. by exists u.
    * apply cascadeField_valid. by left.
  + intros p v Hin. apply Hs' in Hin as [Hin|(k & Hin & ->)].
    * left. congruence.
    * right. destruct (Hfrom k v Hin) as (uid & u & f & ? & ? & ?). eauto.
- exists w1. split; [done|]. split_and!; [congruence..| |].
  + intros uid u Hu Hs. specialize (Hsel uid u Hu Hs).
    destruct updates; [done|]. apply Z.ltb_ge in Hlen. cbn [List.length] in Hlen. lia.
  + intros p v Hin. left. congruence.
Qed.

(** X1.  The block cascade and the unblock cascade, on a reachable store, end
  normally and leave every stored user as it was: the cascades address
  their writes relative to [users], so the flag of a user they select is
  written at [users/users/<uid>/isBlocked], and [users/<uid>/isBlocked]
  keeps its value. *)
Theorem cascades_miss_user_records clock (businessId reason : string) (w : World) :
online w = true → validUsers w →
(∃ w', blockBusinessUsers clock businessId reason w = (inr tt, w')
       ∧ users w' = users w
       ∧ ∀ uid user, users w !! uid = Some user → associated businessId user →
                     In (addressed uid "isBlocked", VBool true) (stray w'))
∧ (∃ w', unblockBusinessUsers clock businessId w = (inr tt, w')
         ∧ users w' = users w
         ∧ ∀ uid user, users w !! uid = Some user →
                       User.isBlocked user = Some true →
                       associated businessId user →
                       users w' !! uid = Some user
                       ∧ In (addressed uid "isBlocked", VBool false) (stray w')).
Proof.
intros Hon Hvalid. split.
- destruct (cascade_misaddressed clock (shouldBlock businessId) (VBool true)
              (VString reason) w Hon Hvalid)
    as (w' & Hrun & Hu & _ & _ & _ & Hsel & _).
  exists w'. split_and!; [done..|].
  intros uid user Hus Ha. apply (Hsel uid user Hus). by apply shouldBlock_iff.
- destruct (cascade_misaddressed clock (shouldUnblock businessId) (VBool false)
              VNull w Hon Hvalid)
    as (w' & Hrun & Hu & _ & _ & _ & Hsel & _).
  exists w'. split_and!; [done..|].
  intros uid user Hus Hb Ha. split; [by rewrite Hu|].
  apply (Hsel uid user Hus). apply shouldUnblock_iff. by rewrite Hb.
Qed.

Definition blockedOwner : User.t :=
User.mk "u1" "ana@example.com" owner (Some "b1"%string) "Ana" None None
  (Some true) (Some "Licencia expirada"%string) None.

Definition oneUser : World :=
mkWorld ∅ {[ "u1"%string := blockedOwner ]} ∅ [] true 0 0.

Lemma oneUser_valid : validUsers oneUser.
Proof.
intros uid [u Hu]. unfold oneUser in Hu. cbn [users] in Hu.
apply lookup_singleton_Some in Hu as [<- _].
split; [done|]. intros c Hc. cbn in Hc. intuition (subst; discriminate).
Defined.

Lemma cascades_miss_user_records_witness :
∃ w', unblockBusinessUsers (λ _, 0) "b1" oneUser = (inr tt, w')
      ∧ users w' !! "u1"%string = Some blockedOwner.
Proof.
destruct (cascades_miss_user_records (λ _, 0) "b1" "Licencia expirada" oneUser
            eq_refl oneUser_valid) as [_ (w' & Hrun & Hu & _)].
exists w'. split; [exact Hrun|]. rewrite Hu. by vm_compute.
Defined.

End CascadeWriteProofs.

(** ** Assigning and cancelling a license: failures and what follows *)
Module LifecycleEdgeProofs.
Import Types JsDate Store LicenseService RealTimeLicense StoreProofs
  LicenseStateProofs LifecycleProofs EndDateProofs DateStringProofs StatusProofs
  CascadeWriteProofs.

Lemma cascade_runs clock select flag reason w :
online w = true →
∃ w',
  cascade clock select flag reason w = (inr tt, w')
  ∧ businesses w' = businesses w ∧ online w' = true
  ∧ digitalRecords w' = digitalRecords w
  ∧ (validUsers w → users w' = users w).
Proof.
intros Hon.
destruct (cascade_frame clock select flag reason w Hon)
  as (w' & Hrun & Hb & Ho & Hd & _).
exists w'. split_and!; [done..|]. intros Hv.
destruct (cascade_misaddressed clock select flag reason w Hon Hv)
  as (w'' & Hrun' & Hu & _).
unfold cascade in Hrun'. congruence.
Qed.

(** The business [assignLicense] stores. *)
Definition licensed (business : Business.t) (ty : LicenseType)
  (startDate endDate adm assignedAt updatedAt : string) : Business.t :=
Business.mk (Business.name business) (Business.ownerId business)
  (Business.businessKey business) updatedAt
  (Some (BusinessLicense.mk ty startDate endDate true adm assignedAt
           (orZero (BusinessLicense.renewalCount <$> Business.license business) + 1)
           None None))
  (Some true).

Lemma assignLicense_stores tza clock b ty adm w business endDate :
online w = true → businesses w !! b = Some business →
calculateEndDate tza (isoOfTime (clock (ticks w))) ty = Some endDate →
∃ w',
  assignLicense tza clock b ty adm w = (inr tt, w')
  ∧ online w' = true
  ∧ businesses w'
    = <[b := licensed business ty (isoOfTime (clock (ticks w))) endDate adm
               (isoOfTime (clock (S (ticks w))))
               (isoOfTime (clock (S (S (ticks w)))))]> (businesses w)
  ∧ digitalRecords w' = digitalRecords w
  ∧ (validUsers w → users w' = users w).
Proof.
intros Hon Hb Hend. unfold assignLicense, getBusiness, putBusiness. run.
rewrite Hend. cbn [online businesses ticks]. rewrite Hon, Hb.
set (w1 := mkWorld (<[b := _]> _) _ _ _ _ _ _).
assert (Hon1 : online w1 = true) by (subst w1; cbn; congruence).
destruct (cascade_runs clock (shouldUnblock b) (VBool false) VNull w1 Hon1)
  as (w2 & Hrun & Hbus & Hon2 & Hrec & Husers).
exists w2. split; [exact Hrun|]. split_and!; [done| | |].
- rewrite Hbus. done.
- rewrite Hrec. done.
- intros Hv. rewrite Husers; [done|]. exact Hv.
Qed.




Definition plainSalon : Business.t :=
Business.mk "Salon" "u1" "ABCDEF0123456789" "2024-01-01T00:00:00.000Z" None None.


Lemma cancelLicense_users clock b adm w business l :
online w = true → businesses w !! b = Some business →
Business.license business = Some l → validUsers w →
∃ w', cancelLicense clock b adm w = (inr tt, w') ∧ users w' = users w.
Proof.
intros Hon Hb Hl Hv. unfold cancelLicense, getBusiness, putBusiness. run.
rewrite Hon, Hb, Hl. cbn [online businesses ticks].
set (w1 := mkWorld (<[b := _]> _) _ _ _ _ _ _).
assert (Hon1 : online w1 = true) by (subst w1; cbn; congruence).
destruct (cascade_runs clock (shouldBlock b) (VBool true)
            (VString "Licencia cancelada por administrador") w1 Hon1)
  as (w2 & Hrun & _ & _ & _ & Husers).
exists w2. split; [exact Hrun|]. by rewrite Husers.
Qed.

Lemma blockBusinessForExpiredLicense_users clock b w :
online w = true → validUsers w →
∃ w', blockBusinessForExpiredLicense clock b w = (inr tt, w')
      ∧ users w' = users w.
Proof.
intros Hon Hv.
unfold blockBusinessForExpiredLicense, storedBusiness, putBusiness, recordStray.
run. cbn [businesses].
assert (Hgo : ∀ w1, online w1 = true → users w1 = users w →
          ∃ w', blockBusinessUsers clock b "Licencia expirada" w1 = (inr tt, w')
                ∧ users w' = users w).
{ intros w1 Hon1 Hu1.
  destruct (cascade_runs clock (shouldBlock b) (VBool true)
              (VString "Licencia expirada") w1 Hon1)
    as (w2 & Hrun & _ & _ & _ & Husers).
  exists w2. split; [exact Hrun|]. rewrite Husers; [done|].
  unfold validUsers. by rewrite Hu1. }
destruct (businesses w !! b) as [business|].
- destruct (Business.license business) as [l|]; apply Hgo; done.
- apply Hgo; done.
Qed.

(** X2.  Renewing, cancelling and expiring a license leave every stored user
  as it was: a user whose record says [isBlocked: true] still has it
  after the license of the business is assigned anew, and a user who is
  not flagged is not flagged by a cancellation or an expiry. *)
Theorem license_changes_miss_users tza clock b ty adm (w : World) business endDate :
online w = true → businesses w !! b = Some business → validUsers w →
calculateEndDate tza (isoOfTime (clock (ticks w))) ty = Some endDate →
(∃ w', assignLicense tza clock b ty adm w = (inr tt, w') ∧ users w' = users w)
∧ (is_Some (Business.license business) →
   ∃ w', cancelLicense clock b adm w = (inr tt, w') ∧ users w' = users w)
∧ (∃ w', blockBusinessForExpiredLicense clock b w = (inr tt, w')
         ∧ users w' = users w).
Proof.
intros Hon Hb Hv Hend. split_and!.
- destruct (assignLicense_stores tza clock b ty adm w business endDate Hon Hb Hend)
    as (w' & Hrun & _ & _ & _ & Hu).
  exists w'. split; [exact Hrun|]. by apply Hu.
- intros [l Hl]. by apply (cancelLicense_users clock b adm w business l).
- by apply blockBusinessForExpiredLicense_users.
Qed.

Lemma license_changes_miss_users_witness :
∃ w', assignLicense 0 LicenseWindowProofs.noonClock "b1" L1month "a0"
        (mkWorld {[ "b1"%string := plainSalon ]} {[ "u1"%string := blockedOwner ]}
           ∅ [] true 0 0) = (inr tt, w')
      ∧ users w' !! "u1"%string = Some blockedOwner.
Proof.
assert (Hb : businesses
               (mkWorld {[ "b1"%string := plainSalon ]}
                  {[ "u1"%string := blockedOwner ]} ∅ [] true 0 0)
             !! "b1"%string = Some plainSalon) by (vm_compute; reflexivity).
assert (He : calculateEndDate 0 (isoOfTime (LicenseWindowProofs.noonClock 0)) L1month
             = Some "2024-02-15T12:00:00.000Z"%string) by (vm_compute; reflexivity).
destruct (license_changes_miss_users 0 LicenseWindowProofs.noonClock "b1" L1month
            "a0"
            (mkWorld {[ "b1"%string := plainSalon ]}
               {[ "u1"%string := blockedOwner ]} ∅ [] true 0 0)
            plainSalon _ eq_refl Hb oneUser_valid He)
  as [(w' & Hrun & Hu) _].
exists w'. split; [exact Hrun|]. rewrite Hu. by vm_compute.
Defined.

(** The end of a license whose start is [t]: between 15 and 372 days of
  24 hours later. *)
Lemma calculateEndDate_of_time tza t ty :
Z.abs t <= maxTime - 372 * msPerDay →
∃ t', calculateEndDate tza (isoOfTime t) ty = Some (isoOfTime t')
      ∧ Date_parse (isoOfTime t') = Some t'
      ∧ t + 15 * msPerDay <= t' <= t + 372 * msPerDay.
Proof.
intros Ht.
assert (Hparse : Date_parse (isoOfTime t) = Some t).
{ apply Date_parse_isoOfTime. unfold maxTime, msPerDay in *. lia. }
destruct (calculateEndDate_runs tza (isoOfTime t) t ty Hparse Ht)
  as (t' & Hend & Ht' & _).
pose proof (endDay_bounds ty (LocalTime tza t)) as Hb.
assert (Hr : t + 15 * msPerDay <= t' <= t + 372 * msPerDay).
{ rewrite Ht'. unfold msPerDay. lia. }
exists t'. split; [done|]. split; [|done].
apply Date_parse_isoOfTime. unfold maxTime, msPerDay in *. lia.
Qed.

(** X5.  Once [assignLicense] has ended, [checkBusinessLicense] holds the
  license of the business to be valid whenever the time it reads is at
  most 15 days after the start of the license, whatever the type of the
  license and the state of the business before; and it holds the
  license to be expired whenever that time is more than 372 days after
  the start. *)
Theorem assigned_license_is_valid tza clock b ty adm (w : World) business :
online w = true → businesses w !! b = Some business →
Z.abs (clock (ticks w)) <= maxTime - 372 * msPerDay →
∃ w1,
  assignLicense tza clock b ty adm w = (inr tt, w1)
  ∧ ∀ w2, businesses w2 = businesses w1 → online w2 = true →
      ∃ st w3,
        checkBusinessLicense tza clock b w2 = (inr st, w3)
        ∧ (clock (ticks w2) <= clock (ticks w) + 15 * msPerDay →
           isValid st = true ∧ isExpired st = false)
        ∧ (clock (ticks w) + 372 * msPerDay < clock (ticks w2) →
           isValid st = false ∧ isExpired st = true).
Proof.
intros Hon Hb Ht.
destruct (calculateEndDate_of_time tza (clock (ticks w)) ty Ht)
  as (t' & Hend & Hparse & Hrange).
destruct (assignLicense_stores tza clock b ty adm w business _ Hon Hb Hend)
  as (w1 & Hrun & _ & Hbus & _).
exists w1. split; [exact Hrun|]. intros w2 Hb2 Hon2.
unfold checkBusinessLicense, getBusiness. run. rewrite Hon2, Hb2, Hbus.
rewrite lookup_insert_eq.
unfold statusOfBusiness, licensed, isLicenseExpired, isLicenseExpiringSoon,
  getDaysRemaining.
cbn [Business.license Business.isActive BusinessLicense.isActive
     BusinessLicense.endDate negb].
run. rewrite Hparse. cbn [date_gt isValid isExpired ticks].
eexists _, _. split; [reflexivity|]. cbn [isValid isExpired]. split.
- intros Hnow. rewrite (proj2 (Z.ltb_ge _ _)) by lia. done.
- intros Hnow. rewrite (proj2 (Z.ltb_lt _ _)) by lia. done.
Qed.

Lemma assigned_license_is_valid_witness :
∃ w1,
  assignLicense 0 LicenseWindowProofs.noonClock "b1" L1month "a0"
    (mkWorld {[ "b1"%string := plainSalon ]} ∅ ∅ [] true 0 0) = (inr tt, w1)
  ∧ ∃ st w3, checkBusinessLicense 0 LicenseWindowProofs.noonClock "b1" w1 = (inr st, w3)
             ∧ isValid st = true.
Proof.
assert (Hb : businesses (mkWorld {[ "b1"%string := plainSalon ]} ∅ ∅ [] true 0 0)
             !! "b1"%string = Some plainSalon) by (vm_compute; reflexivity).
destruct (assigned_license_is_valid 0 LicenseWindowProofs.noonClock "b1" L1month "a0"
            (mkWorld {[ "b1"%string := plainSalon ]} ∅ ∅ [] true 0 0) plainSalon
            eq_refl Hb) as (w1 & Hrun & Hcheck).
- vm_compute. discriminate.
- exists w1. split; [exact Hrun|].
  assert (Hon1 : online w1 = true).
  { destruct (assignLicense_stores 0 LicenseWindowProofs.noonClock "b1" L1month "a0"
                (mkWorld {[ "b1"%string := plainSalon ]} ∅ ∅ [] true 0 0) plainSalon
                "2024-02-15T12:00:00.000Z" eq_refl Hb)
      as (w1' & Hrun' & Hon' & _); [by vm_compute|congruence]. }
  destruct (Hcheck w1 eq_refl Hon1) as (st & w3 & Hst & Hvalid & _).
  exists st, w3. split; [exact Hst|]. apply Hvalid.
  unfold LicenseWindowProofs.noonClock, msPerDay. lia.
Defined.

(** X6.  Once [cancelLicense] has ended, [checkBusinessLicense] reports the
  license of the business as expired and not valid, with 0 days
  remaining and not expiring soon, at every later time and without
  reading the clock. *)
Theorem cancelled_license_is_expired tza clock b adm (w : World) business :
online w = true → businesses w !! b = Some business →
is_Some (Business.license business) →
∃ w1,
  cancelLicense clock b adm w = (inr tt, w1)
  ∧ ∀ w2, businesses w2 = businesses w1 → online w2 = true →
      ∃ st, checkBusinessLicense tza clock b w2 = (inr st, w2)
            ∧ isValid st = false ∧ isExpired st = true
            ∧ isExpiringSoon st = false ∧ daysRemaining st = Some 0.
Proof.
intros Hon Hb [l Hl].
destruct (cancelLicense_runs clock b adm w business l Hon Hb Hl)
  as (w1 & l' & Hrun & _ & (business' & Hb' & Hl' & Hact') & _ & Hinactive & _).
exists w1. split; [exact Hrun|]. intros w2 Hb2 Hon2.
unfold checkBusinessLicense, getBusiness. run. rewrite Hon2, Hb2, Hb'.
unfold statusOfBusiness, isLicenseExpired, isLicenseExpiringSoon, getDaysRemaining.
rewrite Hl', Hinactive. cbn [negb]. run.
eexists. split; [reflexivity|]. done.
Qed.

Definition licensedSalon : Business.t :=
Business.mk "Salon" "u1" "ABCDEF0123456789" "2024-01-01T00:00:00.000Z"
  (Some LicenseWindowProofs.expiringLicense) (Some true).

Lemma cancelled_license_is_expired_witness :
∃ w1,
  cancelLicense LicenseWindowProofs.noonClock "b1" "a0"
    (mkWorld {[ "b1"%string := licensedSalon ]} ∅ ∅ [] true 0 0) = (inr tt, w1)
  ∧ ∃ st, checkBusinessLicense 0 LicenseWindowProofs.noonClock "b1" w1 = (inr st, w1)
          ∧ isValid st = false.
Proof.
assert (Hb : businesses (mkWorld {[ "b1"%string := licensedSalon ]} ∅ ∅ [] true 0 0)
             !! "b1"%string = Some licensedSalon) by (vm_compute; reflexivity).
destruct (cancelled_license_is_expired 0 LicenseWindowProofs.noonClock "b1" "a0"
            (mkWorld {[ "b1"%string := licensedSalon ]} ∅ ∅ [] true 0 0)
            licensedSalon eq_refl Hb) as (w1 & Hrun & Hcheck).
- by eexists.
- exists w1. split; [exact Hrun|].
  assert (Hon1 : online w1 = true).
  { destruct (cancelLicense_runs LicenseWindowProofs.noonClock "b1" "a0"
                (mkWorld {[ "b1"%string := licensedSalon ]} ∅ ∅ [] true 0 0)
                licensedSalon LicenseWindowProofs.expiringLicense eq_refl Hb eq_refl)
      as (w1' & l' & Hrun' & Hon' & _). congruence. }
  destruct (Hcheck w1 eq_refl Hon1) as (st & Hst & Hvalid & _).
  exists st. split; [exact Hst|exact Hvalid].
Defined.

End LifecycleEdgeProofs.

(** ** Deleting a record: what fails and what is removed *)
Module RecordEdgeProofs.
Import Types Store AuthContext TypeFacts RecordProofs.

Lemma recordAt_without w b rid b' rid' :
recordAt (without w b rid) b' rid'
= if decide (b' = b ∧ rid' = rid) then None else recordAt w b' rid'.
Proof.
unfold recordAt, without. cbn [digitalRecords].
destruct (decide (b' = b)) as [->|Hb].
- rewrite lookup_alter_eq.
  destruct (digitalRecords w !! b) as [rs|]; cbn.
  + destruct (decide (rid' = rid)) as [->|Hr].
    * rewrite decide_True by done. apply lookup_delete_eq.
    * rewrite decide_False by (by intros [_ ?]). by apply lookup_delete_ne.
  + by destruct (decide _).
- rewrite lookup_alter_ne by done. rewrite decide_False by (by intros [? _]). done.
Qed.

(** What [deleteClientRecord] returns, case by case. *)
Lemma deleteClientRecord_cases s b rid w :
deleteClientRecord s b rid w
= match currentUser s with
  | None => (inl NotAuthenticated, w)
  | Some user =>
      if decide (hasAccess s user b) then
        if decide (rid = ""%string) then (inl MissingRecordId, w)
        else if online w then
          match recordAt w b rid with
          | None => (inl RecordNotFound, w)
          | Some r =>
              if decide (DigitalRecord.createdBy r ≠ ""%string
                         ∧ DigitalRecord.createdBy r ≠ User.uid user
                         ∧ ¬ mayDeleteOthers user b)
              then (inl NoDeletePermission, w)
              else (inr tt, without w b rid)
          end
        else (inl Unavailable, w)
      else (inl NoAccess, w)
  end.
Proof.
destruct (currentUser s) as [user|] eqn:Hu.
- destruct (decide (rid = ""%string)) as [->|Hrid].
  { unfold deleteClientRecord. run.
    rewrite (validateRecordAccess_runs s user b w Hu).
    by destruct (decide (hasAccess s user b)). }
  destruct (online w) eqn:Hon.
  + destruct (recordAt w b rid) as [r|] eqn:Hr.
    * by apply deleteClientRecord_runs.
    * unfold deleteClientRecord, getRecord. unfold recordAt in Hr. run.
      rewrite (validateRecordAccess_runs s user b w Hu).
      destruct (decide (hasAccess s user b)); [|done].
      rewrite (proj2 (truthy_string_true rid)) by done. cbn [negb].
      by rewrite Hon, Hr.
  + unfold deleteClientRecord, getRecord. run.
    rewrite (validateRecordAccess_runs s user b w Hu).
    destruct (decide (hasAccess s user b)); [|done].
    rewrite (proj2 (truthy_string_true rid)) by done. cbn [negb].
    by rewrite Hon.
- unfold deleteClientRecord, validateRecordAccess. run. by rewrite Hu.
Qed.




(** X22.  A call of [deleteClientRecord] that succeeds was made by a signed-in
  caller with access to the business, on a stored record that the caller
  created, or that names no creator, or that the caller may delete as an
  owner or as an assistant of the business.  It removes that record and
  nothing else: every other record, every business and every user is as
  before. *)
Theorem deleteClientRecord_success s b rid (w : World) w' :
deleteClientRecord s b rid w = (inr tt, w') →
(∃ user r,
   currentUser s = Some user ∧ hasAccess s user b
   ∧ recordAt w b rid = Some r
   ∧ (DigitalRecord.createdBy r = ""%string
      ∨ DigitalRecord.createdBy r = User.uid user
      ∨ mayDeleteOthers user b))
∧ recordAt w' b rid = None
∧ (∀ b' rid', ¬ (b' = b ∧ rid' = rid) → recordAt w' b' rid' = recordAt w b' rid')
∧ businesses w' = businesses w ∧ users w' = users w.
Proof.
rewrite deleteClientRecord_cases.
destruct (currentUser s) as [user|]; [|done].
destruct (decide (hasAccess s user b)) as [Ha|Ha]; [|done].
destruct (decide (rid = ""%string)) as [Hr|Hr]; [done|].
destruct (online w); [|done].
destruct (recordAt w b rid) as [r|] eqn:Hrec; [|done].
destruct (decide _) as [Hd|Hd]; [done|]. intros [= <-].
split_and!; [| | |done|done].
- exists user, r. split_and!; [done..|].
  destruct (decide (DigitalRecord.createdBy r = ""%string)); [by left|].
  destruct (decide (DigitalRecord.createdBy r = User.uid user)); [right; by left|].
  right. right. destruct (decide (mayDeleteOthers user b)) as [|Hn]; [done|].
  by destruct Hd.
- rewrite recordAt_without. by rewrite decide_True.
- intros b' rid' Hne. rewrite recordAt_without. by rewrite decide_False.
Qed.

Definition ownNote : DigitalRecord.t :=
DigitalRecord.mk "c1" "b1" "s1" "Limpieza" "2024-01-15" "" "u2"
  "2024-01-15T12:00:00.000Z" "2024-01-15T12:00:00.000Z".

Definition viewer : User.t :=
User.mk "u2" "eva@example.com" assistant None "Eva" None (Some "b1"%string)
  None None None.

Definition viewerSession : Session :=
mkSession (Some viewer)
  {[ "b1"%string := BusinessAccess.mk "b1" "Salon" "ABCDEF0123456789"
                      access_viewer "2024-01-01T00:00:00.000Z" ]}.

Definition notes : World :=
mkWorld ∅ ∅ {[ "b1"%string := {[ "r1"%string := ownNote ]} ]} [] true 0 0.

Lemma deleteClientRecord_success_witness :
∃ w',
  deleteClientRecord viewerSession "b1" "r1" notes = (inr tt, w')
  ∧ recordAt w' "b1" "r1" = None.
Proof.
exists (without notes "b1" "r1"). split; [by vm_compute|].
apply (deleteClientRecord_success viewerSession "b1" "r1" notes
         (without notes "b1" "r1")).
by vm_compute.
Defined.

End RecordEdgeProofs.

(** ** Conflicts between two appointments *)
Module ConflictEdgeProofs.
Import Types JsDate AppointmentModal TypeFacts ConflictProofs DateStringProofs.

Section Generic.
Context `{HostNumber}.


End Generic.




(** *** Times of the form HH:MM *)

(** The string a time input gives for [h] hours and [m] minutes. *)
Definition clockString (h m : Z) : string :=
string_of_chars (pad 2 h (":"%char :: pad 2 m [])).

Lemma digitChar_not_colon n : Ascii.eqb (digitChar n) ":" = false.
Proof.
unfold digitChar. pose proof (Z.mod_pos_bound n 10 eq_refl) as Hn.
destruct (digit_cases _ Hn) as [E|[E|[E|[E|[E|[E|[E|[E|[E|E]]]]]]]]];
  rewrite E; reflexivity.
Qed.

Lemma decimal_two n :
0 <= n < 100 →
decimal (chars_of_string (string_of_chars [digitChar (n / 10); digitChar n])) 0
= Some n.
Proof.
intros Hn. rewrite chars_of_string_of_chars. cbn [decimal].
rewrite !digitValue_digitChar. f_equal.
rewrite (Z.mod_small (n / 10) 10) by (Z.div_mod_to_equations; lia).
Z.div_mod_to_equations. lia.
Qed.

Lemma splitAux_plain cs : ∀ cur,
(∀ c, In c cs → c ≠ ":"%char) →
splitAux ":" cs cur = [string_of_chars (rev cur ++ cs)].
Proof.
induction cs as [|c cs IH]; intros cur Hcs.
- cbn. by rewrite app_nil_r.
- cbn [splitAux].
  destruct (Ascii.eqb_spec c ":") as [E|E]; [by destruct (Hcs c (or_introl eq_refl))|].
  rewrite IH by (intros c' Hc'; apply Hcs; by right).
  cbn [rev]. by rewrite <- app_assoc.
Qed.

(** X24.  [timeToMinutes], on the decimal numbers, reads a time [HH:MM] as
  [60 * HH + MM] minutes, so that the order of the results is the order
  of the times of day; a string without a colon is read as [NaN], which
  is below and above nothing, so a form with such a time never reports a
  conflict. *)
Theorem timeToMinutes_clock (h m : Z) :
0 <= h < 100 → 0 <= m < 100 →
timeToMinutes (clockString h m) = Some (60 * h + m)
∧ (∀ h' m', 0 <= h' < 100 → 0 <= m' < 60 → m < 60 →
     (lt (timeToMinutes (clockString h m)) (timeToMinutes (clockString h' m')) = true
      ↔ h < h' ∨ (h = h' ∧ m < m')))
∧ (∀ s other, (∀ c, In c (chars_of_string s) → c ≠ ":"%char) →
     timeToMinutes s = None
     ∧ lt (timeToMinutes s) other = false ∧ lt other (timeToMinutes s) = false).
Proof.
assert (Hclock : ∀ h m, 0 <= h < 100 → 0 <= m < 100 →
          timeToMinutes (clockString h m) = Some (60 * h + m)).
{ clear. intros h m Hh Hm. unfold timeToMinutes, clockString, split.
  rewrite chars_of_string_of_chars. cbn [pad splitAux].
  rewrite !digitChar_not_colon. change (Ascii.eqb ":" ":") with true. cbn iota.
  cbn [rev app map].
  change (Number (string_of_chars [digitChar (h / 10); digitChar h]))
    with (decimal (chars_of_string (string_of_chars [digitChar (h / 10); digitChar h])) 0).
  change (Number (string_of_chars [digitChar (m / 10); digitChar m]))
    with (decimal (chars_of_string (string_of_chars [digitChar (m / 10); digitChar m])) 0).
  rewrite !decimal_two by done. cbn [add mul sixty DecimalNumber lift2].
  f_equal. lia. }
intros Hh Hm. split_and!.
- by apply Hclock.
- intros h' m' Hh' Hm' Hm60. rewrite !Hclock by lia.
  cbn [lt DecimalNumber lt_decimal]. rewrite Z.ltb_lt. lia.
- intros s other Hs. unfold timeToMinutes, split.
  rewrite splitAux_plain by done. cbn [rev app map].
  assert (E : add (mul (Number (string_of_chars (chars_of_string s))) sixty) NaN
              = None).
  { cbn [add mul NaN DecimalNumber]. unfold lift2 at 1.
    by destruct (lift2 Z.mul _ _). }
  rewrite E. split; [done|]. cbn [lt DecimalNumber lt_decimal].
  split; [done|]. by destruct other.
Qed.

Lemma timeToMinutes_clock_witness :
timeToMinutes (clockString 9 30) = Some 570.
Proof.
apply (timeToMinutes_clock 9 30); lia.
Defined.

End ConflictEdgeProofs.

(** ** The sweep over all licenses *)
Module SweepProofs.
Import Types JsDate Store LicenseService LicenseSweep LicenseStateProofs
  StoreProofs LifecycleProofs StatusProofs CascadeWriteProofs LifecycleEdgeProofs.

(** [blockBusinessForExpiredLicense] is [deactivate] followed by the
  cascade. *)
Lemma blockBusinessForExpiredLicense_parts clock b w :
blockBusinessForExpiredLicense clock b w
= (deactivate clock b ;; blockBusinessUsers clock b "Licencia expirada") w.
Proof.
unfold blockBusinessForExpiredLicense, deactivate, storedBusiness. run.
cbn [businesses]. destruct (businesses w !! b) as [business|]; [|done].
by destruct (Business.license business).
Qed.

(** The license with [isActive] set to false. *)
Definition lapsed (l : BusinessLicense.t) : BusinessLicense.t :=
BusinessLicense.mk (BusinessLicense.type l) (BusinessLicense.startDate l)
  (BusinessLicense.endDate l) false (BusinessLicense.assignedBy l)
  (BusinessLicense.assignedAt l) (BusinessLicense.renewalCount l)
  (BusinessLicense.canceledAt l) (BusinessLicense.canceledBy l).

(** The business after the sweep has deactivated it: [isActive] and the
  [isActive] of its license are false, [updatedAt] is new, all else is
  kept. *)
Definition swept (bz : Business.t) (l : BusinessLicense.t) (bz' : Business.t) : Prop :=
∃ stamp, bz' = Business.mk (Business.name bz) (Business.ownerId bz)
                 (Business.businessKey bz) stamp (Some (lapsed l)) (Some false).

(** What the sweep does with a business, given the time [now] it reads
  when it examines it. *)
Definition outcome (now : Z) (bz : Business.t) (after : option Business.t) : Prop :=
match Business.license bz with
| None => after = Some bz
| Some l =>
    if decide (Business.isActive bz = Some false) then after = Some bz
    else if BusinessLicense.isActive l then
      (endedBefore now l ∧ ∃ bz', after = Some bz' ∧ swept bz l bz')
      ∨ (¬ endedBefore now l ∧ after = Some bz)
    else ∃ bz', after = Some bz' ∧ swept bz l bz'
end.

Lemma deactivate_runs clock b w bz l :
businesses w !! b = Some bz → Business.license bz = Some l →
∃ w' bz',
  deactivate clock b w = (inr tt, w')
  ∧ swept bz l bz' ∧ businesses w' = <[b := bz']> (businesses w)
  ∧ users w' = users w ∧ digitalRecords w' = digitalRecords w
  ∧ online w' = online w.
Proof.
intros Hb Hl. unfold deactivate, storedBusiness, putBusiness. run.
cbn [businesses]. rewrite Hb, Hl.
eexists _, _. split; [reflexivity|]. split; [by eexists|]. done.
Qed.

Lemma sweepLoop_runs clock entries : ∀ w,
NoDup entries.*1 →
(∀ id bz, In (id, bz) entries → businesses w !! id = Some bz) →
∃ started w',
  sweepLoop clock entries w = (inr started, w')
  ∧ users w' = users w ∧ digitalRecords w' = digitalRecords w
  ∧ online w' = online w
  ∧ (∀ id, id ∉ entries.*1 → businesses w' !! id = businesses w !! id)
  ∧ (∀ id bz, In (id, bz) entries →
              ∃ i, outcome (clock i) bz (businesses w' !! id)).
Proof.
induction entries as [|[id bz] rest IH]; intros w Hnd Hin.
{ exists [], w. split_and!; done. }
apply NoDup_cons in Hnd as [Hid Hnd]. cbn [fmap list_fmap fst] in Hid.
assert (Hb : businesses w !! id = Some bz) by (apply Hin; by left).
assert (Hkeep : ∀ w1,
  users w1 = users w → digitalRecords w1 = digitalRecords w →
  online w1 = online w → businesses w1 = businesses w →
  (∃ i, outcome (clock i) bz (Some bz)) →
  ∃ started w',
    sweepLoop clock rest w1 = (inr started, w')
    ∧ users w' = users w ∧ digitalRecords w' = digitalRecords w
    ∧ online w' = online w
    ∧ (∀ id', id' ∉ ((id, bz) :: rest).*1 →
              businesses w' !! id' = businesses w !! id')
    ∧ (∀ id' bz', In (id', bz') ((id, bz) :: rest) →
                  ∃ i, outcome (clock i) bz' (businesses w' !! id'))).
{ intros w1 Hu1 Hd1 Ho1 Hb1 Hout.
  destruct (IH w1 Hnd) as (started & w' & Hrun & Hu & Hd & Ho & Hframe & Hres).
  { intros id' bz' Hin'. rewrite Hb1. apply Hin. by right. }
  exists started, w'. split; [exact Hrun|].
  split_and!; [congruence..| |].
  - intros id' Hni. rewrite Hframe, Hb1; [done|].
    intros ?. apply Hni. by right.
  - intros id' bz' [[= <- <-]|Hin'].
    + rewrite Hframe, Hb1, Hb by done. done.
    + by apply Hres. }
cbn [sweepLoop].
destruct (Business.license bz) as [l|] eqn:Hl; cycle 1.
{ apply Hkeep; [done..|]. exists 0%nat. unfold outcome. by rewrite Hl. }
destruct (decide (Business.isActive bz = Some false)) as [Hoff|Hact].
{ rewrite bool_decide_true by done. cbn [negb].
  apply Hkeep; [done..|]. exists 0%nat. unfold outcome. rewrite Hl.
  by rewrite decide_True. }
rewrite bool_decide_false by done. cbn [negb].
assert (Hsweep : ∀ w0 i,
  users w0 = users w → digitalRecords w0 = digitalRecords w →
  online w0 = online w → businesses w0 = businesses w →
  (BusinessLicense.isActive l = true → endedBefore (clock i) l) →
  ∃ started w',
    (deactivate clock id ;;
     started ← sweepLoop clock rest; mret (id :: started)) w0 = (inr started, w')
    ∧ users w' = users w ∧ digitalRecords w' = digitalRecords w
    ∧ online w' = online w
    ∧ (∀ id', id' ∉ ((id, bz) :: rest).*1 →
              businesses w' !! id' = businesses w !! id')
    ∧ (∀ id' bz', In (id', bz') ((id, bz) :: rest) →
                  ∃ i, outcome (clock i) bz' (businesses w' !! id'))).
{ intros w0 i Hu0 Hd0 Ho0 Hb0 Hended.
  destruct (deactivate_runs clock id w0 bz l) as
    (w1 & bz1 & Hde & Hsw & Hb1 & Hu1 & Hd1 & Ho1); [by rewrite Hb0|done|].
  run. rewrite Hde.
  destruct (IH w1 Hnd) as (started & w' & Hrun & Hu & Hd & Ho & Hframe & Hres).
  { intros id' bz' Hin'. rewrite Hb1, Hb0.
    rewrite lookup_insert_ne.
    - apply Hin. by right.
    - intros <-. apply Hid. apply list_elem_of_In.
      apply (in_map fst) in Hin'. done. }
  rewrite Hrun. eexists _, w'. split; [reflexivity|].
  split_and!; [congruence..| |].
  - intros id' Hni. rewrite Hframe, Hb1, Hb0.
    + apply lookup_insert_ne. intros <-. apply Hni. by left.
    + intros ?. apply Hni. by right.
  - intros id' bz' [[= <- <-]|Hin'].
    + rewrite Hframe, Hb1, lookup_insert_eq by done.
      exists i. unfold outcome. rewrite Hl. rewrite decide_False by done.
      destruct (BusinessLicense.isActive l); [left|]; eauto.
    + by apply Hres. }
unfold isLicenseExpired.
destruct (BusinessLicense.isActive l) eqn:Hlact; cbn [negb].
- run. set (w0 := mkWorld _ _ _ _ _ _ _).
  destruct (date_gt (Some (clock (ticks w)))
              (Date_parse (BusinessLicense.endDate l))) eqn:Hgt.
  + apply date_gt_iff in Hgt.
    destruct (Hsweep w0 (ticks w)) as (started & w' & Hrun & Hrest); [done..|].
    revert Hrun. run. intros Hrun. by exists started, w'.
  + apply (Hkeep w0); [done..|]. exists (ticks w). unfold outcome.
    rewrite Hl, decide_False, Hlact by done.
    right. split; [|done]. unfold endedBefore. rewrite <- date_gt_iff. by rewrite Hgt.
- run. destruct (Hsweep w 0%nat) as (started & w' & Hrun & Hrest); [done..|].
  revert Hrun. run. intros Hrun. by exists started, w'.
Qed.

Lemma cascades_run clock started : ∀ w,
online w = true →
∃ w',
  cascades clock started w = (inr tt, w')
  ∧ businesses w' = businesses w ∧ online w' = true
  ∧ digitalRecords w' = digitalRecords w
  ∧ (validUsers w → users w' = users w).
Proof.
induction started as [|b rest IH]; intros w Hon.
{ exists w. by split_and!. }
cbn [cascades]. run.
destruct (cascade_runs clock (shouldBlock b) (VBool true)
            (VString "Licencia expirada") w Hon)
  as (w1 & Hrun & Hb1 & Hon1 & Hd1 & Hu1).
change (blockBusinessUsers clock b "Licencia expirada" w)
  with (cascade clock (shouldBlock b) (VBool true) (VString "Licencia expirada") w).
rewrite Hrun.
destruct (IH w1 Hon1) as (w' & Hrun' & Hb' & Hon' & Hd' & Hu').
exists w'. split; [exact Hrun'|]. split_and!; [congruence..|].
intros Hv. rewrite Hu', Hu1; [done..|].
unfold validUsers. by rewrite Hu1.
Qed.

(** X10.  [checkAllLicenses], on a reachable store, ends normally.  It leaves
  alone every business without a license, every business whose
  [isActive] is already false, and every business with an active license
  that is not past its end date at any reading of the clock.  It
  deactivates every other business: one whose license is inactive, or
  past its end date at every reading of the clock; of such a business
  [isActive] and [license.isActive] become false and [updatedAt] is
  renewed, the rest of the business and of the license being kept.  No
  business is added or removed, and no record or user is changed. *)
Theorem checkAllLicenses_sweeps clock (w : World) :
online w = true →
∃ w',
  checkAllLicenses clock w = (inr tt, w')
  ∧ digitalRecords w' = digitalRecords w
  ∧ (validUsers w → users w' = users w)
  ∧ (∀ id, businesses w !! id = None → businesses w' !! id = None)
  ∧ ∀ id bz, businesses w !! id = Some bz →
      ((Business.license bz = None ∨ Business.isActive bz = Some false) →
       businesses w' !! id = Some bz)
      ∧ (∀ l, Business.license bz = Some l →
              BusinessLicense.isActive l = true →
              (∀ i, ¬ endedBefore (clock i) l) →
              businesses w' !! id = Some bz)
      ∧ (∀ l, Business.license bz = Some l →
              Business.isActive bz ≠ Some false →
              (BusinessLicense.isActive l = false ∨ ∀ i, endedBefore (clock i) l) →
              ∃ bz', businesses w' !! id = Some bz' ∧ swept bz l bz').
Proof.
intros Hon. unfold checkAllLicenses, getBusinesses. run. rewrite Hon.
destruct (decide (businesses w = ∅)) as [He|Hne].
{ rewrite bool_decide_true by done. exists w. split_and!; [done..|].
  intros id bz. by rewrite He. }
rewrite bool_decide_false by done.
destruct (sweepLoop_runs clock (map_to_list (businesses w)) w)
  as (started & w1 & Hrun & Hu1 & Hd1 & Ho1 & Hframe & Hres).
{ apply NoDup_fst_map_to_list. }
{ intros id bz Hin. by apply elem_of_map_to_list, list_elem_of_In. }
rewrite Hrun.
destruct (cascades_run clock started w1) as (w' & Hrun' & Hb' & Hon' & Hd' & Hu');
  [congruence|].
exists w'. split; [exact Hrun'|]. split_and!; [congruence| | |].
- intros Hv. rewrite Hu', Hu1; [done..|]. unfold validUsers. by rewrite Hu1.
- intros id Hnone. rewrite Hb', Hframe; [done|].
  intros Hin. apply list_elem_of_fmap in Hin as ([id' bz] & -> & Hin).
  apply elem_of_map_to_list in Hin. cbn in Hnone. congruence.
- intros id bz Hb. rewrite Hb'.
  destruct (Hres id bz) as [i Hout].
  { by apply list_elem_of_In, elem_of_map_to_list. }
  unfold outcome in Hout. split_and!.
  + intros [Hl|Hoff].
    * by rewrite Hl in Hout.
    * destruct (Business.license bz); [|done]. by rewrite decide_True in Hout.
  + intros l Hl Hact Hnot. rewrite Hl in Hout.
    destruct (decide _); [done|]. rewrite Hact in Hout.
    destruct Hout as [[Hended _]|[_ ?]]; [|done]. by destruct (Hnot i).
  + intros l Hl Hon0 Hexp. rewrite Hl in Hout.
    rewrite decide_False in Hout by done.
    destruct (BusinessLicense.isActive l) eqn:Hact; [|done].
    destruct Hout as [[_ ?]|[Hnot _]]; [done|].
    destruct Hexp as [?|Hexp]; [done|]. by destruct (Hnot (Hexp i)).
Qed.

Definition pastLicense : BusinessLicense.t :=
BusinessLicense.mk L15days "2023-12-01T12:00:00.000Z" "2023-12-16T12:00:00.000Z"
  true "a0" "2023-12-01T12:00:00.000Z" 1 None None.

Definition pastSalon : Business.t :=
Business.mk "Salon" "u1" "ABCDEF0123456789" "2023-12-01T12:00:00.000Z"
  (Some pastLicense) (Some true).

Lemma checkAllLicenses_sweeps_witness :
∃ w',
  checkAllLicenses LicenseWindowProofs.noonClock
    (mkWorld {[ "b1"%string := pastSalon ]} ∅ ∅ [] true 0 0) = (inr tt, w')
  ∧ ∃ bz', businesses w' !! "b1"%string = Some bz' ∧ swept pastSalon pastLicense bz'.
Proof.
destruct (checkAllLicenses_sweeps LicenseWindowProofs.noonClock
            (mkWorld {[ "b1"%string := pastSalon ]} ∅ ∅ [] true 0 0) eq_refl)
  as (w' & Hrun & _ & _ & _ & Hall).
exists w'. split; [exact Hrun|].
destruct (Hall "b1"%string pastSalon) as (_ & _ & Hswept); [by vm_compute|].
apply (Hswept pastLicense); [reflexivity|discriminate|].
right. intros i. exists 1702728000000. split; [by vm_compute|].
vm_compute. reflexivity.
Defined.

End SweepProofs.

(** ** The listeners of the license service *)
Module ListenerProofs.
Import Types JsDate Store RealTimeLicense RealTimeBlocking StringFacts.

(** The id under which the listener of a business is kept. *)
Definition listenerId (businessId : string) : string :=
("business_" ++ businessId)%string.

Lemma listenerId_inj b b' : listenerId b = listenerId b' → b = b'.
Proof.
unfold listenerId. intros E. apply (f_equal chars_of_string) in E.
rewrite !chars_of_string_app in E. apply app_inv_head in E.
by apply chars_of_string_inj.
Qed.

Section Registry.
Variable tza : Z.
Variable clock : nat → Z.
Context {Callback : Type}.

(** Every listener is kept under the id of the business it watches, with
  its callback. *)
Definition wellFormed (svc : Service Callback) : Prop :=
∀ lid watched, listeners Callback svc !! lid = Some watched →
               lid = listenerId watched
               ∧ is_Some (licenseCallbacks Callback svc !! lid).

(** One call of the callback, with the status of the snapshot. *)
Definition notify (b : string) (snapshot : option Business.t) (cb : Callback)
: M (list (Callback * LicenseStatus)) :=
status ← onSnapshot tza clock b snapshot; mret [(cb, status)].

Lemma onSnapshot_runs b snapshot w :
∃ st w', onSnapshot tza clock b snapshot w = (inr st, w').
Proof.
destruct snapshot as [bz|]; [|by eexists _, _].
destruct (StatusProofs.statusOfBusiness_runs tza clock b bz w)
  as (st & w' & Hrun & _).
by exists st, w'.
Qed.

Lemma deliver_none b snapshot svc subs : ∀ w,
(∀ lid, ¬ In (lid, b) subs) →
deliver tza clock Callback b snapshot subs svc w = (inr [], w).
Proof.
induction subs as [|[lid watched] rest IH]; intros w Hno; [done|].
cbn [deliver].
destruct (String.eqb_spec watched b) as [->|Hne].
- destruct (Hno lid). by left.
- apply IH. intros lid' Hin. apply (Hno lid'). by right.
Qed.

(** The listeners of a business that a change of it reaches: the one
  kept under its id, if any. *)
Lemma deliver_one b snapshot svc subs : ∀ w,
NoDup subs.*1 →
(∀ lid watched, In (lid, watched) subs →
                lid = listenerId watched
                ∧ is_Some (licenseCallbacks Callback svc !! lid)) →
deliver tza clock Callback b snapshot subs svc w
= match licenseCallbacks Callback svc !! listenerId b with
  | Some cb =>
      if decide ((listenerId b, b) ∈ subs) then notify b snapshot cb w
      else (inr [], w)
  | None => (inr [], w)
  end.
Proof.
induction subs as [|[lid watched] rest IH]; intros w Hnd Hwf.
{ cbn. by destruct (licenseCallbacks Callback svc !! listenerId b). }
apply NoDup_cons in Hnd as [Hlid Hnd]. cbn [fmap list_fmap fst] in Hlid.
assert (Hwf' : ∀ lid watched, In (lid, watched) rest →
          lid = listenerId watched
          ∧ is_Some (licenseCallbacks Callback svc !! lid)).
{ intros lid' watched' Hin. apply Hwf. by right. }
cbn [deliver].
destruct (String.eqb_spec watched b) as [->|Hne].
- destruct (Hwf lid b (or_introl eq_refl)) as [-> [cb Hcb]]. rewrite Hcb.
  rewrite decide_True by (by left). unfold notify. run.
  destruct (onSnapshot_runs b snapshot w) as (st & w' & ->).
  rewrite deliver_none; [done|].
  intros lid' Hin. destruct (Hwf' lid' b Hin) as [-> _].
  apply Hlid. apply list_elem_of_In. by apply (in_map fst) in Hin.
- rewrite IH by done.
  destruct (licenseCallbacks Callback svc !! listenerId b) as [cb|]; [|done].
  destruct (decide ((listenerId b, b) ∈ rest)) as [Hin|Hin].
  + rewrite decide_True by (by right). done.
  + rewrite decide_False; [done|].
    intros [[= _ ?]|?]%elem_of_cons; done.
Qed.

Lemma onValue_one b snapshot svc w :
wellFormed svc →
onValue tza clock Callback b snapshot svc w
= match listeners Callback svc !! listenerId b,
        licenseCallbacks Callback svc !! listenerId b with
  | Some _, Some cb => notify b snapshot cb w
  | _, _ => (inr [], w)
  end.
Proof.
intros Hwf. unfold onValue. rewrite deliver_one.
- destruct (licenseCallbacks Callback svc !! listenerId b) as [cb|];
    [|by destruct (listeners Callback svc !! listenerId b)].
  destruct (listeners Callback svc !! listenerId b) as [watched|] eqn:Hl.
  + destruct (Hwf _ _ Hl) as [E _]. apply listenerId_inj in E as <-.
    rewrite decide_True; [done|].
    by apply elem_of_map_to_list.
  + rewrite decide_False; [done|]. intros Hin.
    apply elem_of_map_to_list in Hin. congruence.
- apply NoDup_fst_map_to_list.
- intros lid watched Hin. apply Hwf.
  by apply elem_of_map_to_list, list_elem_of_In.
Qed.

Lemma removeLicenseListener_wellFormed lid svc :
wellFormed svc → wellFormed (removeLicenseListener Callback lid svc).
Proof.
intros Hwf. unfold removeLicenseListener.
destruct (listeners Callback svc !! lid) eqn:Hl; [|done].
intros lid' watched. cbn [listeners licenseCallbacks].
destruct (decide (lid' = lid)) as [->|Hne].
- by rewrite lookup_delete_eq.
- rewrite !lookup_delete_ne by done. apply Hwf.
Qed.

Lemma setup_wellFormed b cb svc :
wellFormed svc →
wellFormed (setupBusinessLicenseListener Callback b cb svc).1.
Proof.
intros Hwf. unfold setupBusinessLicenseListener. cbn [fst].
fold (listenerId b).
pose proof (removeLicenseListener_wellFormed (listenerId b) svc Hwf) as Hwf0.
set (svc0 := removeLicenseListener Callback (listenerId b) svc) in *.
intros lid watched. cbn [listeners licenseCallbacks].
destruct (decide (lid = listenerId b)) as [->|Hne].
- rewrite !lookup_insert_eq. intros [= <-]. split; [done|by eexists].
- rewrite !lookup_insert_ne by done. apply Hwf0.
Qed.

Lemma setup_lookup b cb svc :
listeners Callback (setupBusinessLicenseListener Callback b cb svc).1
  !! listenerId b = Some b
∧ licenseCallbacks Callback (setupBusinessLicenseListener Callback b cb svc).1
    !! listenerId b = Some cb
∧ (setupBusinessLicenseListener Callback b cb svc).2
  = RemoveListener (listenerId b)
∧ ∀ b', b' ≠ b →
    listeners Callback (setupBusinessLicenseListener Callback b cb svc).1
      !! listenerId b' = listeners Callback svc !! listenerId b'
    ∧ licenseCallbacks Callback (setupBusinessLicenseListener Callback b cb svc).1
        !! listenerId b' = licenseCallbacks Callback svc !! listenerId b'.
Proof.
unfold setupBusinessLicenseListener. cbn [fst snd]. fold (listenerId b).
cbn [listeners licenseCallbacks]. rewrite !lookup_insert_eq.
split_and!; [done..|]. intros b' Hne.
assert (Hid : listenerId b ≠ listenerId b').
{ intros E. by apply listenerId_inj in E. }
rewrite !lookup_insert_ne by done.
unfold removeLicenseListener.
destruct (listeners Callback svc !! listenerId b); [|done].
cbn [listeners licenseCallbacks]. by rewrite !lookup_delete_ne.
Qed.

(** X14.  The service keeps one listener per business.  After a first and a
  second subscription to the same business, a change of the business
  is passed to the second callback only, once, with the status of the
  snapshot; the cleanup function the first subscriber was given
  removes the listener of the second, after which a change reaches
  nobody; the listeners of other businesses are served as before; and
  after [cleanup] of the service nobody is served. *)
Theorem one_listener_per_business b (cb1 cb2 : Callback) svc snapshot (w : World) :
wellFormed svc →
∀ svc1 svc2, svc1 = (setupBusinessLicenseListener Callback b cb1 svc).1 →
  svc2 = (setupBusinessLicenseListener Callback b cb2 svc1).1 →
  wellFormed svc2
  ∧ onValue tza clock Callback b snapshot svc1 w = notify b snapshot cb1 w
  ∧ onValue tza clock Callback b snapshot svc2 w = notify b snapshot cb2 w
  ∧ onValue tza clock Callback b snapshot
      (runCleanup Callback (setupBusinessLicenseListener Callback b cb1 svc).2 svc2) w
    = (inr [], w)
  ∧ (∀ b', b' ≠ b →
       onValue tza clock Callback b' snapshot svc2 w
       = onValue tza clock Callback b' snapshot svc w)
  ∧ (∀ b', onValue tza clock Callback b' snapshot (cleanup svc2) w = (inr [], w)).
Proof.
intros Hwf svc1 svc2 -> ->.
pose proof (setup_wellFormed b cb1 svc Hwf) as Hwf1.
set (svc1 := (setupBusinessLicenseListener Callback b cb1 svc).1) in *.
pose proof (setup_wellFormed b cb2 svc1 Hwf1) as Hwf2.
set (svc2 := (setupBusinessLicenseListener Callback b cb2 svc1).1) in *.
destruct (setup_lookup b cb1 svc) as (Hl1 & Hc1 & Hclean1 & Hother1).
destruct (setup_lookup b cb2 svc1) as (Hl2 & Hc2 & _ & Hother2).
fold svc1 in Hl1, Hc1, Hother1. fold svc2 in Hl2, Hc2, Hother2.
split_and!.
- done.
- rewrite onValue_one by done. by rewrite Hl1, Hc1.
- rewrite onValue_one by done. by rewrite Hl2, Hc2.
- rewrite Hclean1. cbn [runCleanup].
  rewrite onValue_one by (by apply removeLicenseListener_wellFormed).
  unfold removeLicenseListener. rewrite Hl2. cbn [listeners licenseCallbacks].
  by rewrite lookup_delete_eq.
- intros b' Hne. rewrite !onValue_one by done.
  destruct (Hother2 b' Hne) as [-> ->]. destruct (Hother1 b' Hne) as [-> ->].
  done.
- intros b'. unfold onValue, cleanup. cbn [listeners].
  by rewrite map_to_list_empty.
Qed.
End Registry.

Definition noListeners : Service nat := mkService nat ∅ ∅.

Definition firstSubscribed : Service nat :=
(setupBusinessLicenseListener nat "b1" 1%nat noListeners).1.

Definition secondSubscribed : Service nat :=
(setupBusinessLicenseListener nat "b1" 2%nat firstSubscribed).1.

Lemma noListeners_wellFormed : wellFormed noListeners.
Proof. intros lid watched H. cbn in H. by rewrite lookup_empty in H. Defined.

Lemma one_listener_per_business_witness :
onValue 0 (λ _, 0) nat "b1" None secondSubscribed (mkWorld ∅ ∅ ∅ [] true 0 0)
= notify 0 (λ _, 0) "b1" None 2%nat (mkWorld ∅ ∅ ∅ [] true 0 0).
Proof.
destruct (one_listener_per_business 0 (λ _, 0) "b1" 1%nat 2%nat noListeners
            None (mkWorld ∅ ∅ ∅ [] true 0 0) noListeners_wellFormed
            firstSubscribed secondSubscribed eq_refl eq_refl)
  as (_ & _ & H & _).
exact H.
Defined.

End ListenerProofs.

(** ** Refreshing the license state of the session *)
Module RefreshProofs.
Import Types JsDate Store RealTimeLicense RealTimeBlocking AuthLicense
  StringFacts TypeFacts StatusProofs BlockingProofs CascadeWriteProofs.

Lemma userRef_valid uid : validKey uid → userRef uid = ["users"%string; uid].
Proof.
intros Hu. unfold userRef, splitPath. rewrite chars_of_string_app.
change (chars_of_string "users/") with (chars_of_string "users" ++ ["/"%char]).
rewrite <- app_assoc. cbn [app].
rewrite splitPathAux_segment
  by (intros c Hc; cbn in Hc; intuition (subst; discriminate)).
rewrite splitPathAux_last by apply Hu.
rewrite (flushed_key uid) by done. done.
Qed.

(** The user with the block fields and the stamp written. *)
Definition withBlock (u : User.t) (flag : bool) (reason : option string)
  (stamp : string) : User.t :=
User.mk (User.uid u) (User.email u) (User.role u) (User.businessId u)
  (User.displayName u) (User.businessAccess u) (User.currentBusiness u)
  (Some flag) reason (Some stamp).

(** The value written for a reason. *)
Definition reasonValue (reason : option string) : Value :=
match reason with Some s => VString s | None => VNull end.

Lemma setUserField_isBlocked u flag :
setUserField u "isBlocked" (VBool flag)
= Some (User.mk (User.uid u) (User.email u) (User.role u) (User.businessId u)
          (User.displayName u) (User.businessAccess u) (User.currentBusiness u)
          (Some flag) (User.blockedReason u) (User.updatedAt u)).
Proof. by destruct u. Qed.

Lemma setUserField_blockedReason u reason :
setUserField u "blockedReason" (reasonValue reason)
= Some (User.mk (User.uid u) (User.email u) (User.role u) (User.businessId u)
          (User.displayName u) (User.businessAccess u) (User.currentBusiness u)
          (User.isBlocked u) reason (User.updatedAt u)).
Proof. by destruct u, reason. Qed.

Lemma setUserField_updatedAt u stamp :
setUserField u "updatedAt" (VString stamp)
= Some (User.mk (User.uid u) (User.email u) (User.role u) (User.businessId u)
          (User.displayName u) (User.businessAccess u) (User.currentBusiness u)
          (User.isBlocked u) (User.blockedReason u) (Some stamp)).
Proof. by destruct u. Qed.

Lemma writeAt_user uid field v u u' w :
users w !! uid = Some u → setUserField u field v = Some u' →
writeAt ["users"%string; uid; field] v w = putUser uid u' w.
Proof.
intros Hu Hset. unfold writeAt.
change (String.eqb "users" "users") with true. cbn iota.
rewrite Hu. cbn [mbind option_bind]. by rewrite Hset.
Qed.

Lemma update_block uid u flag reason stamp w :
validKey uid → users w !! uid = Some u →
update (userRef uid)
  [("isBlocked"%string, VBool flag); ("blockedReason"%string, reasonValue reason);
   ("updatedAt"%string, VString stamp)] w
= (inr tt,
   mkWorld (businesses w) (<[uid := withBlock u flag reason stamp]> (users w))
     (digitalRecords w) (stray w) (online w) (ticks w) (draws w)).
Proof.
intros Hv Hu. rewrite userRef_valid by done. cbn [update]. run.
unfold childPath.
change (splitPath "isBlocked") with ["isBlocked"%string].
change (splitPath "blockedReason") with ["blockedReason"%string].
change (splitPath "updatedAt") with ["updatedAt"%string].
cbn [app].
rewrite (writeAt_user uid _ _ u _ w Hu (setUserField_isBlocked u flag)).
unfold putUser at 1.
set (u1 := User.mk _ _ _ _ _ _ _ _ _ _). set (w1 := mkWorld _ _ _ _ _ _ _).
assert (Hu1 : users w1 !! uid = Some u1) by (subst w1; apply lookup_insert_eq).
rewrite (writeAt_user uid _ _ u1 _ w1 Hu1 (setUserField_blockedReason u1 reason)).
unfold putUser at 1.
set (u2 := User.mk _ _ _ _ _ _ _ _ _ _). set (w2 := mkWorld _ _ _ _ _ _ _).
assert (Hu2 : users w2 !! uid = Some u2) by (subst w2; apply lookup_insert_eq).
rewrite (writeAt_user uid _ _ u2 _ w2 Hu2 (setUserField_updatedAt u2 stamp)).
unfold putUser. subst w2 w1 u2 u1.
cbn [businesses users digitalRecords stray online ticks draws
     User.uid User.email User.role User.businessId User.displayName
     User.businessAccess User.currentBusiness User.isBlocked User.blockedReason
     User.updatedAt].
by rewrite !insert_insert_eq.
Qed.

(** The user of the session as [refreshLicenseStatus] builds it from the
  stored record. *)
Definition reloaded (user userData : User.t) : User.t :=
User.mk (User.uid user) (User.email user) (User.role userData)
  (User.businessId userData)
  (if truthy_string (User.displayName userData)
   then User.displayName userData else User.displayName user)
  (Some (default ∅ (User.businessAccess userData)))
  (User.currentBusiness userData)
  (Some (truthy_flag (User.isBlocked userData)))
  (User.blockedReason userData) None.

(** The user of the session with the block fields set. *)
Definition flagged (u : User.t) (flag : bool) (reason : option string) : User.t :=
User.mk (User.uid u) (User.email u) (User.role u) (User.businessId u)
  (User.displayName u) (User.businessAccess u) (User.currentBusiness u)
  (Some flag) reason (User.updatedAt u).

(** The business whose license governs the user is stored with a license
  that is in force at no reading of the clock, or there is no such
  business. *)
Definition unlicensed (clock : nat → Z) (user : User.t) (w : World) : Prop :=
∀ b bz, businessOf user = Some b → businesses w !! b = Some bz →
        ∀ i, ¬ inForce (clock i) bz.

Lemma status_unlicensed tza clock user w :
User.role user ≠ admin → unlicensed clock user w →
∃ st w',
  checkUserLicenseStatus tza clock user w = (inr st, w')
  ∧ sameData w w' ∧ isValid st = false
  ∧ (license st = None → isExpired st = true).
Proof.
intros Ha Hun. unfold checkUserLicenseStatus. rewrite bool_decide_false by done.
destruct (businessOf user) as [b|] eqn:Hb; [|by eexists _, _].
destruct (truthy_string b); [|by eexists _, _].
destruct (checkBusinessLicense_runs tza clock b w)
  as (st & w' & -> & Hsame & _ & Hvalid & _ & Hnone & _).
exists st, w'. split_and!; [done..| |by intros ?; apply Hnone].
apply not_true_iff_false. rewrite Hvalid. intros (_ & bz & Hbz & Hin).
by apply (Hun b bz Hb Hbz (ticks w)).
Qed.

Lemma unlicensed_same clock user w w' :
sameData w w' → unlicensed clock user w → unlicensed clock user w'.
Proof. intros (Hb & _) Hun b bz. rewrite Hb. apply Hun. Qed.

(** Setting up the listener leaves the user of the session as it is when
  the user it is set up for is flagged blocked, and the reported status
  stays invalid. *)
Lemma setupLicenseListener_blocked user p st :
User.role user ≠ admin → User.isBlocked user = Some true →
licenseStatus p = Some st → isValid st = false →
currentUser (setupLicenseListener user p) = currentUser p
∧ (isValid <$> licenseStatus (setupLicenseListener user p)) = Some false.
Proof.
intros Ha Hb Hst Hv. unfold setupLicenseListener, setupUserLicenseListener.
rewrite bool_decide_false by done.
assert (Hcall : ∀ q status, isValid status = false →
          currentUser (licenseCallback user status q) = currentUser q
          ∧ licenseStatus (licenseCallback user status q) = Some status).
{ intros q status Hs. unfold licenseCallback. rewrite Hb. cbn [truthy_flag default].
  by rewrite andb_false_r. }
set (q := match licenseCleanup p with Some _ => _ | None => _ end).
assert (Hq : currentUser q = currentUser p ∧ licenseStatus q = licenseStatus p)
  by (subst q; by destruct (licenseCleanup p)).
clearbody q. destruct Hq as [Hq1 Hq2].
destruct (businessOf user) as [b|]; [destruct (truthy_string b)|].
- unfold setupBusinessLicenseListener. cbn [fold_left currentUser licenseStatus].
  rewrite Hq1, Hq2, Hst. cbn. by rewrite Hv.
- cbn [fold_left fst snd currentUser licenseStatus].
  destruct (Hcall (mkProvider (currentUser q) (businessAccess q) (licenseStatus q)
                     (licenseCleanup q) (service q))
              (noLicenseStatus None) eq_refl) as [E1 E2].
  by rewrite E1, E2.
- cbn [fold_left fst snd currentUser licenseStatus].
  destruct (Hcall (mkProvider (currentUser q) (businessAccess q) (licenseStatus q)
                     (licenseCleanup q) (service q))
              (noLicenseStatus None) eq_refl) as [E1 E2].
  by rewrite E1, E2.
Qed.

(** Setting up the listener for a user whose license is governed by a
  business calls nothing at once. *)
Lemma setupLicenseListener_governed user p b :
User.role user ≠ admin → businessOf user = Some b → b ≠ ""%string →
currentUser (setupLicenseListener user p) = currentUser p
∧ licenseStatus (setupLicenseListener user p) = licenseStatus p.
Proof.
intros Ha Hb Hne. unfold setupLicenseListener, setupUserLicenseListener.
rewrite bool_decide_false by done. rewrite Hb.
rewrite (proj2 (truthy_string_true b)) by done.
by destruct (licenseCleanup p).
Qed.

Lemma businessOf_reloaded user userData :
businessOf (reloaded user userData) = businessOf userData.
Proof. done. Qed.

(** X25.  [refreshLicenseStatus], for a signed-in user who is stored as blocked
  and whose business has its license in force: when the stored reason
  mentions the license ([licencia] or [Licencia]) the block is lifted,
  in the stored user and in the session; when it does not, the user
  stays blocked and nothing is written.  The reasons the cascades and
  the listener give mention the license. *)
Theorem refresh_lifts_license_block tza clock p user userData reason b bz
  (w : World) :
currentUser p = Some user → validKey (User.uid user) → online w = true →
users w !! User.uid user = Some userData →
User.role userData ≠ admin →
User.isBlocked userData = Some true → User.blockedReason userData = Some reason →
businessOf userData = Some b → b ≠ ""%string →
businesses w !! b = Some bz → inForce (clock (ticks w)) bz →
∃ p' w',
  refreshLicenseStatus tza clock true p w = (inr p', w')
  ∧ businesses w' = businesses w
  ∧ (mentionsLicense (Some reason) = true →
     (∃ stamp, users w'
               = <[User.uid user := withBlock userData false None stamp]> (users w))
     ∧ currentUser p' = Some (flagged (reloaded user userData) false None))
  ∧ (mentionsLicense (Some reason) = false →
     users w' = users w ∧ currentUser p' = Some (reloaded user userData))
  ∧ mentionsLicense (Some "Licencia expirada"%string) = true
  ∧ mentionsLicense (Some "Licencia cancelada por administrador"%string) = true
  ∧ mentionsLicense (Some "Licencia expirada o cancelada"%string) = true.
Proof.
intros Hcu Hkey Hon Hu Ha Hblk Hrsn Hb Hbne Hbz Hin.
unfold refreshLicenseStatus. rewrite Hcu. cbn [negb]. run. rewrite Hon, Hu.
fold (reloaded user userData).
unfold shouldBlockUser. cbn [User.role reloaded].
rewrite bool_decide_false by done. cbn [User.isBlocked reloaded].
rewrite Hblk. cbn [truthy_flag default]. unfold id. run.
unfold checkUserLicenseStatus. cbn [User.role reloaded].
rewrite bool_decide_false by done.
rewrite businessOf_reloaded, Hb. rewrite (proj2 (truthy_string_true b)) by done.
destruct (checkBusinessLicense_runs tza clock b w)
  as (st & w1 & -> & (Hb1 & Hu1 & _ & _ & Ho1) & _ & Hvalid & _).
assert (Hv : isValid st = true) by (apply Hvalid; eauto).
rewrite Hv. cbn [andb].
change (User.blockedReason (reloaded user userData))
  with (User.blockedReason userData).
rewrite Hrsn.
assert (Hmsg : mentionsLicense (Some "Licencia expirada"%string) = true
               ∧ mentionsLicense (Some "Licencia cancelada por administrador"%string)
                 = true
               ∧ mentionsLicense (Some "Licencia expirada o cancelada"%string) = true)
  by (by vm_compute).
destruct (mentionsLicense (Some reason)) eqn:Hm.
- rewrite (update_block _ userData false None) by (by rewrite ?Hu1).
  set (q := mkProvider _ _ _ _ _). set (u' := User.mk _ _ _ _ _ _ _ _ _ _).
  destruct (setupLicenseListener_governed u' q b) as [Hcur _]; [done..|].
  eexists _, _. split; [reflexivity|]. cbn [businesses users].
  split_and!; [done| |done|apply Hmsg..].
  intros _. split; [rewrite Hu1; by eexists|]. by rewrite Hcur.
- cbn [negb]. run.
  set (q := mkProvider _ _ _ _ _).
  destruct (setupLicenseListener_governed (reloaded user userData) q b)
    as [Hcur _]; [done..|].
  eexists _, _. split; [reflexivity|].
  split_and!; [done|done| |apply Hmsg..].
  intros _. split; [done|]. by rewrite Hcur.
Qed.

Definition renewedSalon : Business.t :=
Business.mk "Salon" "u1" "ABCDEF0123456789" "2024-01-01T00:00:00.000Z"
  (Some LicenseWindowProofs.expiringLicense) (Some true).

Definition blockedAna : User.t :=
User.mk "u1" "ana@example.com" owner (Some "b1"%string) "Ana" None None
  (Some true) (Some "Licencia expirada"%string) None.

Definition renewed : World :=
mkWorld {[ "b1"%string := renewedSalon ]} {[ "u1"%string := blockedAna ]} ∅ [] true 0 0.

Definition session : Provider :=
mkProvider (Some blockedAna) ∅ None None (mkService User.t ∅ ∅).

Lemma u1_valid : validKey "u1".
Proof.
split; [done|]. intros c Hc. cbn in Hc. intuition (subst; discriminate).
Defined.

Lemma renewedSalon_inForce : inForce (LicenseWindowProofs.noonClock 0) renewedSalon.
Proof.
split; [discriminate|]. exists LicenseWindowProofs.expiringLicense.
split; [reflexivity|]. split; [reflexivity|].
intros (e & He & Hlt). vm_compute in He. injection He as <-.
vm_compute in Hlt. discriminate.
Defined.

Lemma refresh_lifts_license_block_witness :
∃ p' w',
  refreshLicenseStatus 0 LicenseWindowProofs.noonClock true session renewed
  = (inr p', w')
  ∧ currentUser p' = Some (flagged (reloaded blockedAna blockedAna) false None).
Proof.
destruct (refresh_lifts_license_block 0 LicenseWindowProofs.noonClock session
            blockedAna blockedAna "Licencia expirada" "b1" renewedSalon renewed
            eq_refl u1_valid eq_refl)
  as (p' & w' & Hrun & _ & Hlift & _).
- by vm_compute.
- discriminate.
- reflexivity.
- reflexivity.
- reflexivity.
- discriminate.
- by vm_compute.
- exact renewedSalon_inForce.
- exists p', w'. split; [exact Hrun|]. apply Hlift. by vm_compute.
Defined.

(** X26.  [refreshLicenseStatus], for a signed-in user who is stored as not
  blocked, is not an administrator, and whose license is in force at no
  reading of the clock (or who has no business, or whose business is not
  stored): the user is blocked, in the stored user and in the session,
  with the reason that the license has expired or that the account has
  been deactivated, and the status of the session is not valid. *)
Theorem refresh_blocks_unlicensed tza clock p user userData (w : World) :
currentUser p = Some user → validKey (User.uid user) → online w = true →
users w !! User.uid user = Some userData →
User.role userData ≠ admin → truthy_flag (User.isBlocked userData) = false →
unlicensed clock userData w →
∃ p' w' reason stamp,
  refreshLicenseStatus tza clock true p w = (inr p', w')
  ∧ businesses w' = businesses w
  ∧ users w'
    = <[User.uid user := withBlock userData true (Some reason) stamp]> (users w)
  ∧ (reason = expiredMessage ∨ reason = deactivatedMessage)
  ∧ currentUser p' = Some (flagged (reloaded user userData) true (Some reason))
  ∧ (isValid <$> licenseStatus p') = Some false.
Proof.
intros Hcu Hkey Hon Hu Ha Hblk Hun.
assert (Hun' : ∀ w0, sameData w w0 → unlicensed clock (reloaded user userData) w0).
{ intros w0 Hs b bz. rewrite businessOf_reloaded. destruct Hs as [-> _].
  apply Hun. }
unfold refreshLicenseStatus. rewrite Hcu. cbn [negb]. run. rewrite Hon, Hu.
fold (reloaded user userData).
unfold shouldBlockUser, getBlockingReason. cbn [User.role User.isBlocked reloaded].
rewrite bool_decide_false by done. rewrite Hblk.
cbn [truthy_flag default andb]. unfold id. run.
destruct (status_unlicensed tza clock (reloaded user userData) w Ha
            (Hun' w (sameData_refl w)))
  as (st0 & w1 & Hrun0 & Hs1 & Hv0 & _).
change (User.mk (User.uid user) _ _ _ _ _ _ _ _ _) with (reloaded user userData).
rewrite Hrun0, Hv0.
destruct (status_unlicensed tza clock (reloaded user userData) w1 Ha (Hun' w1 Hs1))
  as (st1 & w2 & Hrun1 & Hs2 & Hv1 & _).
rewrite Hrun1, Hv1. cbn [negb andb].
pose proof (sameData_trans _ _ _ Hs1 Hs2) as Hs02.
destruct (status_unlicensed tza clock (reloaded user userData) w2 Ha (Hun' w2 Hs02))
  as (st2 & w3 & Hrun2 & Hs3 & Hv2 & Hnone2).
rewrite Hrun2, Hv2. cbn [negb].
pose proof (sameData_trans _ _ _ Hs02 Hs3) as (Hb3 & Hu3 & _).
destruct (isExpired st2) eqn:Hexp.
- run. rewrite (update_block _ userData true (Some expiredMessage))
    by (by rewrite ?Hu3).
  set (u' := User.mk _ _ _ _ _ _ _ _ _ _). set (q' := mkProvider _ _ _ _ _).
  destruct (setupLicenseListener_blocked u' q' st1) as [Hcur Hst]; [done..|].
  eexists _, _, expiredMessage, _. split; [reflexivity|]. cbn [businesses users].
  rewrite Hb3, Hu3. split_and!; [done|done|by left| |done]. by rewrite Hcur.
- destruct (license st2) as [l|] eqn:Hl; [|by specialize (Hnone2 eq_refl)].
  rewrite bool_decide_true by eauto. cbn [negb]. run.
  rewrite (update_block _ userData true (Some deactivatedMessage))
    by (by rewrite ?Hu3).
  set (u' := User.mk _ _ _ _ _ _ _ _ _ _). set (q' := mkProvider _ _ _ _ _).
  destruct (setupLicenseListener_blocked u' q' st1) as [Hcur Hst]; [done..|].
  eexists _, _, deactivatedMessage, _. split; [reflexivity|]. cbn [businesses users].
  rewrite Hb3, Hu3. split_and!; [done|done|by right| |done]. by rewrite Hcur.
Qed.

Definition freshAna : User.t :=
User.mk "u1" "ana@example.com" owner (Some "b1"%string) "Ana" None None
  None None None.

Definition lapsedWorld : World :=
mkWorld ∅ {[ "u1"%string := freshAna ]} ∅ [] true 0 0.

Lemma refresh_blocks_unlicensed_witness :
∃ p' w' reason stamp,
  refreshLicenseStatus 0 LicenseWindowProofs.noonClock true
    (mkProvider (Some freshAna) ∅ None None (mkService User.t ∅ ∅)) lapsedWorld
  = (inr p', w')
  ∧ users w' = <[ "u1"%string := withBlock freshAna true (Some reason) stamp ]>
                 (users lapsedWorld).
Proof.
destruct (refresh_blocks_unlicensed 0 LicenseWindowProofs.noonClock
            (mkProvider (Some freshAna) ∅ None None (mkService User.t ∅ ∅))
            freshAna freshAna lapsedWorld eq_refl u1_valid eq_refl)
  as (p' & w' & reason & stamp & Hrun & _ & Hu & _).
- by vm_compute.
- discriminate.
- reflexivity.
- intros b bz _ Hbz. vm_compute in Hbz. discriminate.
- exists p', w', reason, stamp. split; [exact Hrun|exact Hu].
Defined.

End RefreshProofs.

(** ** How long a license lasts *)
Module DurationProofs.
Import Types JsDate Store LicenseService Calendar EndDateProofs.

(** The days from the first of month [m] (from 0) of year [y] to the
  first of the month [k] months later. *)
Definition span (y m k : Z) : Z :=
days_from_civil (y + (m + k) / 12) ((m + k) mod 12 + 1) 1
- days_from_civil y (m + 1) 1.

Definition check_span (y : Z) : bool :=
forall_range 12 0 (λ m,
  (span y m 1 =? DaysInMonth y (m + 1))
  && (89 <=? span y m 3) && (span y m 3 <=? 92)
  && (181 <=? span y m 6) && (span y m 6 <=? 184)
  && (365 <=? span y m 12) && (span y m 12 <=? 366)).

Lemma check_span_era : forall_range 400 0 check_span = true.
Proof. vm_cast_no_check (eq_refl true). Qed.

Lemma span_era y m k : span (y mod 400) m k = span y m k.
Proof.
unfold span. set (q := y / 400). set (yoe := y mod 400).
assert (Hy : y = yoe + 400 * q).
{ unfold yoe, q. pose proof (Z.div_mod y 400). lia. }
rewrite Hy.
replace (yoe + 400 * q + (m + k) / 12) with (yoe + (m + k) / 12 + 400 * q) by lia.
rewrite !days_from_civil_era. lia.
Qed.

Lemma month_spans y m :
0 <= m <= 11 →
span y m 1 = DaysInMonth y (m + 1)
∧ 89 <= span y m 3 <= 92 ∧ 181 <= span y m 6 <= 184
∧ 365 <= span y m 12 <= 366.
Proof.
intros Hm.
assert (Hyoe : 0 <= y mod 400 < 0 + Z.of_nat 400).
{ pose proof (Z.mod_pos_bound y 400). lia. }
pose proof (forall_range_spec _ _ _ check_span_era (y mod 400) Hyoe) as Hc.
unfold check_span in Hc.
assert (Hm' : 0 <= m < 0 + Z.of_nat 12) by lia.
pose proof (forall_range_spec _ _ _ Hc m Hm') as Hc2. clear Hc.
cbv beta in Hc2. rewrite !span_era, DaysInMonth_era in Hc2.
rewrite !andb_true_iff, Z.eqb_eq, !Z.leb_le in Hc2. lia.
Qed.

Lemma MakeDay_span y m d k :
0 <= m <= 11 → MakeDay y (m + k) d - MakeDay y m d = span y m k.
Proof.
intros Hm. rewrite (MakeDay_date y (m + k) 1 d), (MakeDay_date y m 1 d).
unfold MakeDay, span. cbv zeta.
rewrite (Z.div_small m 12), (Z.mod_small m 12), Z.add_0_r by lia. lia.
Qed.

(** The number of days of 24 hours a license of the type lasts, from a
  start in the month [m] (from 0) of the year [y]. *)
Definition lasts (ty : LicenseType) (y m : Z) (days : Z) : Prop :=
match ty with
| L15days => days = 15
| L1month => days = DaysInMonth y (m + 1)
| L3months => 89 <= days <= 92
| L6months => 181 <= days <= 184
| L1year => 365 <= days <= 366
end.

(** X7.  The end date [calculateEndDate] returns lies a whole number of days
  after the start date, in every zone of fixed offset: 15 days for
  [15days]; for [1month] as many days as the month of the start date has
  in local time, whatever the day of the month, so that a license from
  the 31st of January ends in March; 89 to 92 days for [3months], 181 to
  184 for [6months] and 365 or 366 for [1year]. *)
Theorem license_durations tza s t ty :
Date_parse s = Some t → Z.abs t <= maxTime - 372 * msPerDay →
∃ t' days,
  calculateEndDate tza s ty = Some (isoOfTime t')
  ∧ t' = t + days * msPerDay
  ∧ lasts ty (YearFromTime (LocalTime tza t)) (MonthFromTime (LocalTime tza t)) days.
Proof.
intros Hs Ht.
destruct (calculateEndDate_runs tza s t ty Hs Ht) as (t' & Hrun & Ht' & _).
exists t', (endDay ty (LocalTime tza t) - Day (LocalTime tza t)).
split; [done|]. split; [done|].
set (lt := LocalTime tza t).
pose proof (fields_range lt) as [Hm _].
pose proof (month_spans (YearFromTime lt) (MonthFromTime lt) Hm)
  as (H1 & H3 & H6 & H12).
pose proof (MakeDay_fields lt) as Hday. unfold endDay.
destruct ty; cbn [addFields lasts]; rewrite <- Hday.
- rewrite (MakeDay_date _ _ (DateFromTime lt) (DateFromTime lt + 15)). lia.
- by rewrite MakeDay_span.
- by rewrite MakeDay_span.
- by rewrite MakeDay_span.
- by rewrite MakeDay_year, MakeDay_span.
Qed.

Lemma license_durations_witness :
∃ t' days,
  calculateEndDate 0 "2024-01-31T12:00:00.000Z" L1month = Some (isoOfTime t')
  ∧ t' = 1706702400000 + days * msPerDay
  ∧ days = 31.
Proof.
destruct (license_durations 0 "2024-01-31T12:00:00.000Z" 1706702400000 L1month)
  as (t' & days & Hrun & Ht' & Hdays).
- by vm_compute.
- vm_compute. discriminate.
- exists t', days. split; [exact Hrun|]. split; [exact Ht'|].
  rewrite Hdays. by vm_compute.
Defined.

End DurationProofs.
